(** * Image compressor: adaptive compression pipeline

    A shallow embedding of the compression core of the image-compressor
    repository (TypeScript) and the properties of its quality search,
    content classifier, quantization passes, tile partition, worker pool
    and size check.

    Conventions of the embedding.
    - JavaScript numbers that hold pixel bytes, sizes, coordinates and
      counters are integers ([Z] or [nat]).  Quality values are JavaScript
      doubles; they are embedded as exact rationals ([Q]).  Every
      comparison the code makes on the fixed constants (0.1, 0.95, 0.01,
      0.03) has a margin far above double rounding, so the control flow of
      the searches is the same in both readings.  Where the rounding of a
      double decides a comparison or a rounding to an integer (the ratios
      of the classifier, the scaled sides of a canvas), each operation is
      followed by [double], the rounding to the nearest double.
    - [async] functions are embedded in the monad [M]: a computation yields
      a value or a thrown error, and records the platform calls it made in
      a trace.
    - The browser (canvas, encoders, file reader) is an interface, the
      class [Browser]; theorems quantify over all its implementations. *)

From Stdlib Require Import ZArith QArith Qround Qpower Lqa Lia String.
From stdpp Require Import base tactics option list gmap.

Set Default Proof Using "Type".

(** ** Errors, traces and the monad of asynchronous computations *)

Inductive mime : Type := Jpeg | Png.

(** The errors the modelled functions throw (or reject with). *)
Inductive error : Type :=
| UnsupportedFileType      (* "Unsupported file type. ..." *)
| FileTooLarge             (* "File size ... exceeds maximum supported size (50MB)" *)
| ReadFailed               (* FileReader onerror *)
| ImageLoadFailed          (* img.onerror *)
| NoCanvasContext          (* "Could not get canvas context" *)
| CanvasToBlobFailed       (* "Canvas to Blob conversion failed" *)
| TargetNotReached         (* "Could not compress image to target size" *)
| WorkerFailed             (* a worker reported an error, or could not be set up *)
| StrategyFailed           (* a compression strategy of the pipeline rejected *)
| FuelExhausted.           (* the model's loop ran out of fuel; not a JS error *)

Inductive result (A : Type) : Type :=
| Ok (a : A)
| Err (e : error).
Arguments Ok {A} a.
Arguments Err {A} e.

(** Platform calls that a computation performs, in order. *)
Inductive event : Type :=
| EvReadDataURL                 (* fileToDataURL *)
| EvLoadImage                   (* createImageFromFile *)
| EvDraw (w h : Z)              (* canvas creation and drawImage *)
| EvEncode (m : mime) (q : Q)   (* canvasToBlob at quality q *)
| EvClassify                    (* analyzeImageType *)
| EvQuantize                    (* an in-place colour reduction *)
| EvProgressive                 (* progressive encoding request to the worker *)
| EvStrategy.                   (* any later stage of the pipeline *)

Definition M (A : Type) : Type := (list event * result A)%type.

Definition ret {A} (a : A) : M A := ([], Ok a).
Definition throw {A} (e : error) : M A := ([], Err e).
Definition emit (ev : event) : M unit := ([ev], Ok tt).

Definition bind {A B} (m : M A) (k : A -> M B) : M B :=
  match m with
  | (t, Ok a) => let '(t', r) := k a in (t ++ t', r)
  | (t, Err e) => (t, Err e)
  end.

(** [try { m } catch { h }] *)
Definition try_catch {A} (m : M A) (h : error -> M A) : M A :=
  match m with
  | (t, Ok a) => (t, Ok a)
  | (t, Err e) => let '(t', r) := h e in (t ++ t', r)
  end.

Definition trace {A} (m : M A) : list event := fst m.
Definition outcome {A} (m : M A) : result A := snd m.

Global Instance M_ret : MRet M := fun A a => ret a.
Global Instance M_bind : MBind M := fun A B k m => bind m k.

Local Open Scope Z_scope.

(** of an optional platform answer *)
Definition lift {A} (e : error) (o : option A) : M A :=
  match o with Some a => ret a | None => throw e end.

(** ** The browser interface *)

Class Browser : Type := {
  Blob : Type;
  blob_size : Blob -> Z;
  DataUrl : Type;
  Image : Type;
  image_width : Image -> Z;
  image_height : Image -> Z;
  Canvas : Type;
  (* FileReader.readAsDataURL; None on onerror *)
  readAsDataURL : Blob -> option DataUrl;
  (* new Image() loaded from the file; None on onerror *)
  loadImage : Blob -> option Image;
  (* a canvas of the given size with the image drawn on it;
     None when getContext("2d") gives null *)
  drawImage : Image -> Z -> Z -> option Canvas;
  (* canvas.toDataURL(mime, quality) *)
  toDataURL : mime -> Canvas -> Q -> DataUrl;
  (* canvas.toBlob(callback, mime, quality); None when the callback
     receives null *)
  toBlob : mime -> Canvas -> Q -> option Blob;
  (* the RGBA bytes of the image drawn on a canvas of the given side:
     drawImage(img, 0, 0, w, h, 0, 0, side, side), then
     getImageData(0, 0, side, side).data; None when there is no context *)
  sampleImage : Image -> nat -> option (list Z);
}.

Section Types.
Context `{Browser}.

Record File : Type := { file_type : string; file_blob : Blob }.

Definition file_size (f : File) : Z := blob_size (file_blob f).

(** lib/types.ts *)
Record CompressedImageResult : Type :=
  { blob : Blob; dataUrl : DataUrl; quality : Q }.

Definition fileToDataURL (file : File) : M DataUrl :=
  emit EvReadDataURL ;; lift ReadFailed (readAsDataURL (file_blob file)).

Definition createImageFromFile (file : File) : M Image :=
  emit EvLoadImage ;; lift ImageLoadFailed (loadImage (file_blob file)).

Definition canvasToBlob (m : mime) (canvas : Canvas) (q : Q)
  : M (Blob * DataUrl) :=
  emit (EvEncode m q) ;;
  let url := toDataURL m canvas q in
  b ← lift CanvasToBlobFailed (toBlob m canvas q);
  ret (b, url).

Definition includes (types : list string) (t : string) : bool :=
  existsb (String.eqb t) types.

(** The result [r] is the encoding of the canvas at its own quality and
    is within the target. *)
Definition meets (m : mime) (canvas : Canvas) (target : Z)
    (r : CompressedImageResult) : Prop :=
  toBlob m canvas (quality r) = Some (blob r) /\ blob_size (blob r) <= target.

(** Quality [q] gives an encoding within the target. *)
Definition fits (canvas : Canvas) (target : Z) (q : Q) : Prop :=
  exists b, toBlob Jpeg canvas q = Some b /\ blob_size b <= target.

(** The encoder never fails on the canvas. *)
Definition encodes (canvas : Canvas) : Prop :=
  forall q, is_Some (toBlob Jpeg canvas q).

(** Encoded size is weakly monotonic in quality. *)
Definition monotone (canvas : Canvas) : Prop :=
  forall q1 q2 b1 b2, (q1 <= q2)%Q ->
    toBlob Jpeg canvas q1 = Some b1 -> toBlob Jpeg canvas q2 = Some b2 ->
    blob_size b1 <= blob_size b2.

(** quality [q] gives a PNG encoding above the target *)
Definition tooLarge (canvas : Canvas) (target : Z) (q : Q) : Prop :=
  exists b, toBlob Png canvas q = Some b /\ target < blob_size b.
End Types.

(** [Math.ceil(Math.log2(x))] for [x >= 1]; 0 below *)
Definition ceil_log2 (x : Q) : nat := Z.to_nat (Z.log2_up (Qceiling x)).

(** [Math.round(x)]: the nearest integer, halves up *)
Definition Math_round (x : Q) : Z := Qfloor (x + (1 # 2))%Q.

(** ** Double-precision numbers

    A JavaScript number is an IEEE 754 double: a rational [m * 2 ^ e] with
    a significand [m] of at most 53 bits.  Where the code divides or
    multiplies doubles, or adds ratios, and then compares the result with
    a threshold or rounds it to an integer, the result of each operation
    is the double nearest to the exact value, and a decimal literal stands
    for the double nearest to it.  [double] is that rounding, on the
    rational a number denotes.  Values from [2 ^ 1024] on, where a double
    overflows to Infinity, do not occur: the operands here are sides of
    images and counters of samples. *)

(** the nearest integer; a tie goes to the even one *)
Definition roundHalfEven (x : Q) : Z :=
  let n := Qfloor x in
  match (x - inject_Z n ?= 1 # 2)%Q with
  | Lt => n
  | Gt => n + 1
  | Eq => if Z.even n then n else n + 1
  end.

(** the exponent [e] with [2 ^ 52 <= x / 2 ^ e < 2 ^ 53], for a positive
    [x]: scaled by it, [x] has a significand of 53 bits.  The logarithms
    of numerator and denominator give [e] or [e - 1]; the comparison tells
    which. *)
Definition significandPlace (x : Q) : Z :=
  let e := Z.log2 (Qnum x) - Z.log2 (Z.pos (Qden x)) - 53 in
  if Qle_bool (2 ^ 53) (x / 2 ^ e) then e + 1 else e.

(** the exponent of the last place of the double nearest to a positive
    [x]: not below -1074, the last place of the subnormal numbers *)
Definition lastPlace (x : Q) : Z := Z.max (significandPlace x) (-1074).

(** the double nearest to [x], ties to the even significand *)
Definition double (x : Q) : Q :=
  match Qnum x with
  | Z0 => 0
  | Z.pos _ =>
      let e := lastPlace x in
      inject_Z (roundHalfEven (x / 2 ^ e)) * 2 ^ e
  | Z.neg _ =>
      let e := lastPlace (- x) in
      - (inject_Z (roundHalfEven (- x / 2 ^ e)) * 2 ^ e)
  end%Q.

(** [2 ^ -53]: the relative error of [double] is at most this *)
Definition unitRoundoff : Q := 1 # 9007199254740992.

(** ** Pixel buffers

    [ImageData.data] is a [Uint8ClampedArray] of RGBA bytes, four per pixel;
    it is embedded as a list of integers.  A read out of range gives the
    default 0 and a write out of range is ignored; neither occurs on a
    buffer whose length is four times its number of pixels.  Every value
    the passes below write lies between 0 and 255 when the bytes read do,
    so the clamping of the array never applies. *)

Definition byte (v : Z) : Prop := 0 <= v <= 255.

(** the values of [for (let i = 0; i < length; i += 4)] *)
Definition pixelOffsets (len : nat) : list nat :=
  (fun k => (4 * k)%nat) <$> seq 0 ((len + 3) / 4).

(** [Math.floor(v / level) * level] *)
Definition quantize (level v : Z) : Z := v / level * level.

(** [a < 128 ? 0 : 255] *)
Definition binarizeAlpha (a : Z) : Z := if a <? 128 then 0 else 255.

(** summed channel difference between the pixels at byte offsets [i], [j] *)
Definition colorDiff (data : list Z) (i j : nat) : Z :=
  Z.abs (data !!! i - data !!! j)
  + Z.abs (data !!! (i + 1)%nat - data !!! (j + 1)%nat)
  + Z.abs (data !!! (i + 2)%nat - data !!! (j + 2)%nat).

(** the pixel number [k] of a buffer, as (r, g, b, a) *)
Definition pixelAt (data : list Z) (k : nat) : Z * Z * Z * Z :=
  (data !!! (4 * k)%nat, data !!! (4 * k + 1)%nat,
   data !!! (4 * k + 2)%nat, data !!! (4 * k + 3)%nat).

(** the four bytes at offset [i] replaced by the pixel [p] *)
Definition write4 (data : list Z) (i : nat) (p : Z * Z * Z * Z) : list Z :=
  let '(r, g, b, a) := p in
  <[(i + 3)%nat := a]> (<[(i + 2)%nat := b]> (<[(i + 1)%nat := g]> (<[i := r]> data))).

(** the four entries of a pixel are bytes *)
Definition bytePixel (p : Z * Z * Z * Z) : Prop :=
  let '(r, g, b, a) := p in byte r /\ byte g /\ byte b /\ byte a.

(** [v'] is [v] lowered to a multiple of [level], by less than [level] *)
Definition flooredTo (level v v' : Z) : Prop :=
  v' mod level = 0 /\ v - level < v' <= v.

(** ** Tiles

    A canvas of [width * height] pixels is embedded as the list of its
    pixels in row-major order.  [getImageData] and [putImageData] are the
    canvas calls of the browser: the first copies a rectangle out (cells
    outside the canvas read as transparent), the second copies a rectangle
    back in. *)

Record Tile : Type := {
  tile_x : nat;        (* x *)
  tile_y : nat;        (* y *)
  tile_width : nat;    (* width *)
  tile_height : nat;   (* height *)
}.

(** the pixel at column [px], row [py] lies in the tile *)
Definition inTile (t : Tile) (px py : nat) : Prop :=
  (tile_x t <= px < tile_x t + tile_width t)%nat /\
  (tile_y t <= py < tile_y t + tile_height t)%nat.

Global Instance inTile_dec t px py : Decision (inTile t px py).
Proof. unfold inTile. apply _. Defined.

(** [Math.ceil(a / b)] *)
Definition ceilDiv (a b : nat) : nat :=
  if (a mod b =? 0)%nat then (a / b)%nat else S (a / b).

(** the tile of column [x] and row [y] of the grid:
    origin [(x * tileSize, y * tileSize)], size
    [(Math.min(tileSize, width - x * tileSize),
      Math.min(tileSize, height - y * tileSize))] *)
Definition tileAt (width height tileSize x y : nat) : Tile :=
  {| tile_x := x * tileSize; tile_y := y * tileSize;
     tile_width := Nat.min tileSize (width - x * tileSize);
     tile_height := Nat.min tileSize (height - y * tileSize) |}.

Section Canvas.
Context {P : Type}.
(** the transparent pixel *)
Variable blank : P.

(** [ctx.getImageData(t.x, t.y, t.width, t.height)] on a canvas of the
    given width *)
Definition getImageData (width : nat) (canvas : list P) (t : Tile) : list P :=
  (fun n =>
     let j := (n / tile_width t)%nat in
     let i := (n mod tile_width t)%nat in
     if (tile_x t + i <? width)%nat
     then nth ((tile_y t + j) * width + (tile_x t + i)) canvas blank
     else blank)
  <$> seq 0 (tile_width t * tile_height t).

(** [ctx.putImageData(data, t.x, t.y)] for data of the size of [t] *)
Definition putImageData (width : nat) (canvas : list P) (t : Tile)
    (data : list P) : list P :=
  imap (fun k old =>
          let px := (k mod width)%nat in
          let py := (k / width)%nat in
          if decide (inTile t px py)
          then nth ((py - tile_y t) * tile_width t + (px - tile_x t)) data blank
          else old)
       canvas.

(** the tiles of an image cut out of a buffer *)
Definition cutTiles (width : nat) (source : list P) (tiles : list Tile)
  : list (Tile * list P) :=
  (fun t => (t, getImageData width source t)) <$> tiles.

(** tiles written onto a canvas one after the other *)
Definition writeTiles (width : nat) (canvas : list P)
    (pieces : list (Tile * list P)) : list P :=
  foldl (fun canvas piece => putImageData width canvas piece.1 piece.2)
        canvas pieces.

(** tiles taken out of a canvas, processed, and put back in place, one
    after the other *)
Definition processTiles (process : nat -> nat -> list P -> list P)
    (width : nat) (canvas : list P) (tiles : list Tile) : list P :=
  foldl (fun canvas t =>
           let tileData := getImageData width canvas t in
           putImageData width canvas t
             (process (tile_width t) (tile_height t) tileData))
        canvas tiles.
End Canvas.

(** ** JPEGCompressor: binary search on the canvas encoder *)

Module JPEGCompressor.
Section JPEGCompressor.
Context `{Browser}.

Definition supportedTypes : list string := ["image/jpeg"; "image/jpg"]%string.
Definition TARGET_SIZE : Z := 100 * 1024.
Definition MIN_QUALITY : Q := 0.1%Q.
Definition MAX_QUALITY : Q := 0.95%Q.
Definition QUALITY_PRECISION : Q := 0.01%Q.

(** the variables of the search loop *)
Record SearchState : Type := {
  minQuality : Q;
  maxQuality : Q;
  bestQuality : Q;
  best : option (Blob * DataUrl);   (* bestBlob, bestDataUrl *)
}.

(** [while (maxQuality - minQuality > prec) { ... }]; [prec] is
    QUALITY_PRECISION in the code *)
Fixpoint searchLoop (prec : Q) (target : Z) (canvas : Canvas)
    (fuel : nat) (st : SearchState) : M SearchState :=
  if Qlt_le_dec prec (maxQuality st - minQuality st)%Q then
    match fuel with
    | O => throw FuelExhausted
    | S fuel' =>
        let midQuality := ((minQuality st + maxQuality st) / 2)%Q in
        '(b, url) ← canvasToBlob Jpeg canvas midQuality;
        if blob_size b <=? target then
          searchLoop prec target canvas fuel'
            {| minQuality := midQuality; maxQuality := maxQuality st;
               bestQuality := midQuality; best := Some (b, url) |}
        else
          searchLoop prec target canvas fuel'
            {| minQuality := minQuality st; maxQuality := midQuality;
               bestQuality := bestQuality st; best := best st |}
    end
  else ret st.

Definition initialState : SearchState :=
  {| minQuality := MIN_QUALITY; maxQuality := MAX_QUALITY;
     bestQuality := MAX_QUALITY; best := None |}.

(** the part of [compress] after the canvas is drawn: the search and
    the last resort at minimum quality *)
Definition search (fuel : nat) (canvas : Canvas) : M CompressedImageResult :=
  st ← searchLoop QUALITY_PRECISION TARGET_SIZE canvas fuel initialState;
  match best st with
  | Some (b, url) =>
      ret {| blob := b; dataUrl := url; quality := bestQuality st |}
  | None =>
      '(b, url) ← canvasToBlob Jpeg canvas MIN_QUALITY;
      if blob_size b <=? TARGET_SIZE then
        ret {| blob := b; dataUrl := url; quality := MIN_QUALITY |}
      else throw TargetNotReached
  end.

(** the canvas size: images of files above 5MB with a side above 3000
    are scaled to a longest side of 2000.  [scale] and the two products
    are doubles:
    [scale = MAX_DIMENSION / Math.max(width, height)],
    [Math.round(width * scale)], [Math.round(height * scale)] *)
Definition canvasSize (file : File) (img : Image) : Z * Z :=
  let width := image_width img in
  let height := image_height img in
  let isLargeImage := 5 * 1024 * 1024 <? file_size file in
  if isLargeImage && ((3000 <? width) || (3000 <? height)) then
    let scale := double (2000 / inject_Z (Z.max width height)) in
    (Math_round (double (inject_Z width * scale)),
     Math_round (double (inject_Z height * scale)))
  else (width, height).

Definition compress (fuel : nat) (file : File) : M CompressedImageResult :=
  if negb (includes supportedTypes (file_type file)) then
    throw UnsupportedFileType
  else if file_size file <=? TARGET_SIZE then
    url ← fileToDataURL file;
    ret {| blob := file_blob file; dataUrl := url; quality := 1.0%Q |}
  else
    img ← createImageFromFile file;
    let '(width, height) := canvasSize file img in
    emit (EvDraw width height) ;;
    canvas ← lift NoCanvasContext (drawImage img width height);
    search fuel canvas.

(** *** Vocabulary for the loop *)

Section LoopVocabulary.
Variables (target : Z) (canvas : Canvas).

Definition midQuality (st : SearchState) : Q :=
  ((minQuality st + maxQuality st) / 2)%Q.

(** the state after a probe that produced blob [b] *)
Definition next (st : SearchState) (b : Blob) : SearchState :=
  if blob_size b <=? target then
    {| minQuality := midQuality st; maxQuality := maxQuality st;
       bestQuality := midQuality st;
       best := Some (b, toDataURL Jpeg canvas (midQuality st)) |}
  else
    {| minQuality := minQuality st; maxQuality := midQuality st;
       bestQuality := bestQuality st; best := best st |}.

(** a recorded best probe is an encoding within the target *)
Definition best_ok (st : SearchState) : Prop :=
  match best st with
  | Some (b, url) =>
      toBlob Jpeg canvas (bestQuality st) = Some b /\ blob_size b <= target
  | None => True
  end.

(** the qualities stay inside the initial interval *)
Definition within (lo hi : Q) (st : SearchState) : Prop :=
  (lo <= minQuality st)%Q /\ (minQuality st <= maxQuality st)%Q /\
  (maxQuality st <= hi)%Q.

(** no quality above [maxQuality] fits, and the lower end of the interval
    is the recorded best quality, or the initial bound [lo] as long as
    nothing is recorded *)
Definition tight (lo hi : Q) (st : SearchState) : Prop :=
  (forall q, fits canvas target q -> (q <= hi)%Q -> (q <= maxQuality st)%Q)
  /\ (best st = None -> minQuality st = lo)
  /\ (best st <> None -> bestQuality st = minQuality st).

End LoopVocabulary.
End JPEGCompressor.
End JPEGCompressor.

(** ** JPEGCompressorAdvanced.findOptimalQuality *)

Module JPEGCompressorAdvanced.
Section JPEGCompressorAdvanced.
Context `{Browser}.

(** The worker's answer to a "compressProgressive" request
    (public/js/jpeg/mozjpeg-worker.js), [None] when the worker cannot be
    set up, the canvas gives no blob, or the worker reports an error. *)
Variable progressiveEncode : Canvas -> Z -> option CompressedImageResult.

Definition MIN_QUALITY : Q := 0.1%Q.
Definition MAX_QUALITY : Q := 0.95%Q.
Definition QUALITY_PRECISION : Q := 0.01%Q.

(** [Math.ceil(Math.log2((MAX_QUALITY - MIN_QUALITY) / QUALITY_PRECISION)) + 2] *)
Definition maxIterations : nat :=
  (ceil_log2 ((MAX_QUALITY - MIN_QUALITY) / QUALITY_PRECISION) + 2)%nat.

Record SearchState : Type := {
  minQuality : Q;
  maxQuality : Q;
  bestQuality : Q;
  best : option (Blob * DataUrl);   (* bestBlob, bestDataUrl *)
  iteration : nat;
}.

(** one probe: the body of the loop up to the early-stop test *)
Definition probe (target : Z) (canvas : Canvas) (st : SearchState)
  : M SearchState :=
  let iteration' := S (iteration st) in
  let midQuality := ((minQuality st + maxQuality st) / 2)%Q in
  '(b, url) ← canvasToBlob Jpeg canvas midQuality;
  if blob_size b <=? target then
    ret {| minQuality := midQuality; maxQuality := maxQuality st;
           bestQuality := midQuality; best := Some (b, url);
           iteration := iteration' |}
  else
    ret {| minQuality := minQuality st; maxQuality := midQuality;
           bestQuality := bestQuality st; best := best st;
           iteration := iteration' |}.

(** [if (bestBlob && (maxQuality - minQuality < 0.03 ||
          iteration >= maxIterations - 1)) break] *)
Definition goodEnough (maxIter : nat) (st : SearchState) : bool :=
  match best st with
  | Some _ =>
      (if Qlt_le_dec (maxQuality st - minQuality st) 0.03 then true else false)
      || (maxIter - 1 <=? iteration st)%nat
  | None => false
  end.

(** [while (maxQuality - minQuality > prec && iteration < maxIter) { ... }] *)
Fixpoint searchLoop (prec : Q) (maxIter : nat) (target : Z) (canvas : Canvas)
    (fuel : nat) (st : SearchState) : M SearchState :=
  if Qlt_le_dec prec (maxQuality st - minQuality st)%Q then
    if (iteration st <? maxIter)%nat then
      match fuel with
      | O => throw FuelExhausted
      | S fuel' =>
          st' ← probe target canvas st;
          if goodEnough maxIter st' then ret st'
          else searchLoop prec maxIter target canvas fuel' st'
      end
    else ret st
  else ret st.

Definition initialState : SearchState :=
  {| minQuality := MIN_QUALITY; maxQuality := MAX_QUALITY;
     bestQuality := MIN_QUALITY; best := None; iteration := 0 |}.

Definition compressWithProgressiveJPEG (canvas : Canvas) (targetSize : Z)
  : M CompressedImageResult :=
  emit EvProgressive ;; lift WorkerFailed (progressiveEncode canvas targetSize).

Definition findOptimalQuality (canvas : Canvas) (targetSize : Z)
  : M CompressedImageResult :=
  '(maxBlob, maxUrl) ← canvasToBlob Jpeg canvas MAX_QUALITY;
  if blob_size maxBlob <=? targetSize then
    ret {| blob := maxBlob; dataUrl := maxUrl; quality := MAX_QUALITY |}
  else
    st ← searchLoop QUALITY_PRECISION maxIterations targetSize canvas
           maxIterations initialState;
    match best st with
    | Some (b, url) =>
        ret {| blob := b; dataUrl := url; quality := bestQuality st |}
    | None =>
        '(b, url) ← canvasToBlob Jpeg canvas MIN_QUALITY;
        if blob_size b <=? targetSize then
          ret {| blob := b; dataUrl := url; quality := MIN_QUALITY |}
        else
          try_catch (compressWithProgressiveJPEG canvas targetSize)
            (fun _ => ret {| blob := b; dataUrl := url; quality := MIN_QUALITY |})
    end.

(** *** JPEGCompressorAdvanced.compressWithTiling: the grid of tiles *)

(** [img.width > 6000 || img.height > 4000 ? 512
      : img.width > 4000 || img.height > 3000 ? 768 : 1024] *)
Definition TILE_SIZE (width height : nat) : nat :=
  if ((6000 <? Z.of_nat width) || (4000 <? Z.of_nat height))%Z then 512%nat
  else if ((4000 <? Z.of_nat width) || (3000 <? Z.of_nat height))%Z then 768%nat
  else 1024%nat.

Definition BATCH_SIZE : nat := 4.

(** the columns of one batch:
    [for (let i = 0; i < BATCH_SIZE && x + i < tilesX; i++) tileX = x + i] *)
Definition batchColumns (tilesX x : nat) : list nat :=
  filter (fun tileX => (tileX < tilesX)%nat) ((fun i => (x + i)%nat) <$> seq 0 BATCH_SIZE).

(** the tiles in the order in which they are cut and drawn back:
    [for (y = 0; y < tilesY; y++) for (x = 0; x < tilesX; x += BATCH_SIZE)]
    and then the columns of the batch *)
Definition tilingOrder (width height tileSize : nat) : list Tile :=
  let tilesX := ceilDiv width tileSize in
  let tilesY := ceilDiv height tileSize in
  y ← seq 0 tilesY;
  x ← (fun b => (b * BATCH_SIZE)%nat) <$> seq 0 (ceilDiv tilesX BATCH_SIZE);
  tileX ← batchColumns tilesX x;
  [tileAt width height tileSize tileX y].

(** *** JPEGCompressorAdvanced.compressWithTiling: the tile canvas

    One canvas, [tileCanvas], serves all tiles.  The batch loop draws a
    tile on it and calls [processTileWithWorker], which reads the tile
    from it at once and sends the data to the worker; the loop does not
    wait, and draws the next tile of the batch over the first.  The
    promises of the batch are settled while the loop waits at
    [Promise.allSettled], and [processTileLocally], to which
    [processTileWithWorker] falls back, reads the tile canvas again at
    the moment it is called. *)

Section TileCanvas.
Context {P : Type}.
(** the transparent pixel *)
Variable blank : P.
(** the image the worker makes of the data of a tile, and the image that
    [processTileLocally] makes of it *)
Variables workerImage localImage : nat -> nat -> list P -> list P.

(** the batches: [for (y ...) for (x = 0; x < tilesX; x += BATCH_SIZE)],
    each with the tiles of its columns *)
Definition tilingBatches (width height tileSize : nat) : list (list Tile) :=
  let tilesX := ceilDiv width tileSize in
  let tilesY := ceilDiv height tileSize in
  y ← seq 0 tilesY;
  x ← (fun b => (b * BATCH_SIZE)%nat) <$> seq 0 (ceilDiv tilesX BATCH_SIZE);
  [(fun tileX => tileAt width height tileSize tileX y) <$> batchColumns tilesX x].

(** [tileCanvas]: its size and its pixels, row by row *)
Record TileCanvas : Type := {
  tileCanvas_width : nat;
  tileCanvas_height : nat;
  tileCanvas_pixels : list P;
}.

(** a canvas that has just been given a size is transparent *)
Definition newCanvas (width height : nat) : TileCanvas :=
  {| tileCanvas_width := width; tileCanvas_height := height;
     tileCanvas_pixels := replicate (width * height) blank |}.

(** the rectangle [(0, 0, width, height)] *)
Definition wholeTile (width height : nat) : Tile :=
  {| tile_x := 0; tile_y := 0; tile_width := width; tile_height := height |}.

(** [tileCtx.getImageData(0, 0, width, height)] *)
Definition readTileCanvas (c : TileCanvas) (width height : nat) : list P :=
  getImageData blank (tileCanvas_width c) (tileCanvas_pixels c)
    (wholeTile width height).

(** the tile canvas takes the size of the tile if it has another one,
    the rectangle of the tile is cleared, and the part of the image that
    the tile covers is drawn on it:
    [if (tileWidth !== tileCanvas.width || tileHeight !== tileCanvas.height)
       { tileCanvas.width = tileWidth; tileCanvas.height = tileHeight }
     tileCtx.clearRect(0, 0, tileWidth, tileHeight)
     tileCtx.drawImage(img, tileX * TILE_SIZE, y * TILE_SIZE,
                       tileWidth, tileHeight, 0, 0, tileWidth, tileHeight)] *)
Definition drawTile (width : nat) (img : list P) (t : Tile) (c : TileCanvas)
  : TileCanvas :=
  let c :=
    if decide (tile_width t = tileCanvas_width c
               /\ tile_height t = tileCanvas_height c)
    then c else newCanvas (tile_width t) (tile_height t) in
  let rect := wholeTile (tile_width t) (tile_height t) in
  let cleared :=
    putImageData blank (tileCanvas_width c) (tileCanvas_pixels c) rect
      (replicate (tile_width t * tile_height t) blank) in
  {| tileCanvas_width := tileCanvas_width c;
     tileCanvas_height := tileCanvas_height c;
     tileCanvas_pixels :=
       putImageData blank (tileCanvas_width c) cleared rect
         (getImageData blank width img t) |}.

(** how the promise of a tile comes to be settled *)
Inductive tileOutcome : Type :=
| ByWorker      (* "tileResult": the image of the data sent to the worker *)
| LocalAtOnce   (* postMessage threw: processTileLocally, called in the
                   batch loop *)
| LocalLater    (* "tileError", img.onerror or the 5 s timer:
                   processTileLocally, called while the loop waits *)
| NoImage.      (* processTileLocally gave null: nothing to draw *)

(** the batch loop up to [Promise.allSettled]: every tile is drawn on
    the tile canvas and read from it, one after the other; the canvas is
    left as the last tile made it *)
Definition drawBatch (width : nat) (img : list P) (batch : list Tile)
    (c : TileCanvas) : TileCanvas * list (Tile * list P) :=
  foldl (fun '(c, read) t =>
           let c := drawTile width img t c in
           (c, read ++ [(t, readTileCanvas c (tile_width t) (tile_height t))]))
        (c, []) batch.

(** the value of the promise of a tile; [c] is the tile canvas as the
    batch loop left it, [read] the data read from the canvas when the
    tile was drawn *)
Definition settleTile (outcome : Tile -> tileOutcome) (c : TileCanvas)
    (task : Tile * list P) : option (Tile * list P) :=
  let '(t, read) := task in
  match outcome t with
  | ByWorker => Some (t, workerImage (tile_width t) (tile_height t) read)
  | LocalAtOnce => Some (t, localImage (tile_width t) (tile_height t) read)
  | LocalLater =>
      Some (t, localImage (tile_width t) (tile_height t)
                 (readTileCanvas c (tile_width t) (tile_height t)))
  | NoImage => None
  end.

(** one batch: the tiles are drawn and read, the promises settled, and
    the images of the fulfilled ones drawn on the full canvas at the
    place of their tile, in the order of the batch *)
Definition runBatch (width : nat) (img : list P)
    (outcome : Tile -> tileOutcome) (st : TileCanvas * list P)
    (batch : list Tile) : TileCanvas * list P :=
  let '(c, fullCanvas) := st in
  let '(c, tasks) := drawBatch width img batch c in
  (c, writeTiles blank width fullCanvas (omap (settleTile outcome c) tasks)).

(** the full canvas of [compressWithTiling] when all batches are done:
    it first holds the image, and the tile canvas starts with the size of
    a whole tile *)
Definition tiledFullCanvas (width height tileSize : nat) (img : list P)
    (outcome : Tile -> tileOutcome) : list P :=
  (foldl (runBatch width img outcome) (newCanvas tileSize tileSize, img)
         (tilingBatches width height tileSize)).2.

(** what the promise of a tile of a batch comes to: the image of the
    tile's own rectangle, or, when [processTileLocally] is called late,
    of what the last tile of the batch left on the tile canvas *)
Definition settledPiece (width : nat) (img : list P)
    (outcome : Tile -> tileOutcome) (lastTile : Tile) (t : Tile)
  : option (Tile * list P) :=
  let own := getImageData blank width img t in
  match outcome t with
  | ByWorker => Some (t, workerImage (tile_width t) (tile_height t) own)
  | LocalAtOnce => Some (t, localImage (tile_width t) (tile_height t) own)
  | LocalLater =>
      Some (t, localImage (tile_width t) (tile_height t)
                 (getImageData blank (tile_width lastTile)
                    (getImageData blank width img lastTile)
                    (wholeTile (tile_width t) (tile_height t))))
  | NoImage => None
  end.

(** the images drawn on the full canvas for one batch *)
Definition batchPieces (width : nat) (img : list P)
    (outcome : Tile -> tileOutcome) (batch : list Tile)
  : list (Tile * list P) :=
  match last batch with
  | Some lastTile => omap (settledPiece width img outcome lastTile) batch
  | None => []
  end.

(** the pixels of a canvas fill its size *)
Definition filled (c : TileCanvas) : Prop :=
  length (tileCanvas_pixels c) = (tileCanvas_width c * tileCanvas_height c)%nat.

(** the tile canvas with a tile of the image drawn on it *)
Definition canvasOf (width : nat) (img : list P) (t : Tile) : TileCanvas :=
  {| tileCanvas_width := tile_width t; tileCanvas_height := tile_height t;
     tileCanvas_pixels := getImageData blank width img t |}.
End TileCanvas.

(** *** JPEGCompressorAdvanced.compress *)

Definition supportedTypes : list string := ["image/jpeg"; "image/jpg"]%string.
Definition TARGET_SIZE_BASE : Z := 100 * 1024.
Definition MAX_SIZE : Z := 50 * 1024 * 1024.

Section Routing.
(** the two strategies, which load the image themselves *)
Variables compressWithTiling compressWithWorker
  : File -> Z -> M CompressedImageResult.

Definition compress (file : File) : M CompressedImageResult :=
  if negb (includes supportedTypes (file_type file)) then
    throw UnsupportedFileType
  else if MAX_SIZE <? file_size file then throw FileTooLarge
  else
    let targetSize :=
      if 15 * 1024 * 1024 <? file_size file then 300 * 1024
      else if 8 * 1024 * 1024 <? file_size file then 250 * 1024
      else if 3 * 1024 * 1024 <? file_size file then 200 * 1024
      else TARGET_SIZE_BASE in
    if 5 * 1024 * 1024 <? file_size file then compressWithTiling file targetSize
    else compressWithWorker file targetSize.
End Routing.

(** [totalTiles > 36 || img.width * img.height > 30000000] *)
Definition isExtremelyLarge (width height tileSize : nat) : bool :=
  (36 <? ceilDiv width tileSize * ceilDiv height tileSize)%nat
  || (30000000 <? Z.of_nat width * Z.of_nat height).

(** *** JPEGCompressorAdvanced.compressExtremelyLargeImage: regions and tiles *)

(** the four quadrants, with [Math.ceil(img.width / 2)],
    [Math.floor(img.width / 2)] and the same for the height *)
Definition regions (width height : nat) : list Tile :=
  [ {| tile_x := 0; tile_y := 0;
       tile_width := ceilDiv width 2; tile_height := ceilDiv height 2 |};
    {| tile_x := ceilDiv width 2; tile_y := 0;
       tile_width := width / 2; tile_height := ceilDiv height 2 |};
    {| tile_x := 0; tile_y := ceilDiv height 2;
       tile_width := ceilDiv width 2; tile_height := height / 2 |};
    {| tile_x := ceilDiv width 2; tile_y := ceilDiv height 2;
       tile_width := width / 2; tile_height := height / 2 |} ].

(** the tiles of one region, at their place on the full canvas
    [(region.x + x * tileSize, region.y + y * tileSize)], in the order of
    [for (y = 0; y < tilesY; y++) for (x = 0; x < tilesX; x++)] *)
Definition tilesOfRegion (tileSize : nat) (region : Tile) : list Tile :=
  let tilesX := ceilDiv (tile_width region) tileSize in
  let tilesY := ceilDiv (tile_height region) tileSize in
  y ← seq 0 tilesY;
  x ← seq 0 tilesX;
  [{| tile_x := tile_x region + x * tileSize;
      tile_y := tile_y region + y * tileSize;
      tile_width := Nat.min tileSize (tile_width region - x * tileSize);
      tile_height := Nat.min tileSize (tile_height region - y * tileSize) |}].

(** all the tiles drawn back onto the full canvas, region after region *)
Definition regionTiles (width height tileSize : nat) : list Tile :=
  regions width height ≫= tilesOfRegion tileSize.

(** the loop condition *)
Definition continues (prec : Q) (maxIter : nat) (st : SearchState) : Prop :=
  (prec < maxQuality st - minQuality st)%Q /\ (iteration st < maxIter)%nat.

(** *** Vocabulary for the loop *)

Section LoopVocabulary.
Variables (target : Z) (canvas : Canvas).

Definition midQuality (st : SearchState) : Q :=
  ((minQuality st + maxQuality st) / 2)%Q.

(** the state after a probe that produced blob [b] *)
Definition next (st : SearchState) (b : Blob) : SearchState :=
  if blob_size b <=? target then
    {| minQuality := midQuality st; maxQuality := maxQuality st;
       bestQuality := midQuality st;
       best := Some (b, toDataURL Jpeg canvas (midQuality st));
       iteration := S (iteration st) |}
  else
    {| minQuality := minQuality st; maxQuality := midQuality st;
       bestQuality := bestQuality st; best := best st;
       iteration := S (iteration st) |}.

(** a recorded best probe is an encoding within the target *)
Definition best_ok (st : SearchState) : Prop :=
  match best st with
  | Some (b, url) =>
      toBlob Jpeg canvas (bestQuality st) = Some b /\ blob_size b <= target
  | None => True
  end.

(** the qualities stay inside the initial interval *)
Definition within (lo hi : Q) (st : SearchState) : Prop :=
  (lo <= minQuality st)%Q /\ (minQuality st <= maxQuality st)%Q /\
  (maxQuality st <= hi)%Q.

(** no quality above [maxQuality] fits, and the lower end of the interval
    is the recorded best quality, or the initial bound [lo] as long as
    nothing is recorded *)
Definition tight (lo hi : Q) (st : SearchState) : Prop :=
  (forall q, fits canvas target q -> (q <= hi)%Q -> (q <= maxQuality st)%Q)
  /\ (best st = None -> minQuality st = lo)
  /\ (best st <> None -> bestQuality st = minQuality st).

(** the interval has been halved [iteration] times *)
Definition halved (lo hi : Q) (st : SearchState) : Prop :=
  ((maxQuality st - minQuality st) * inject_Z (2 ^ Z.of_nat (iteration st))
   == hi - lo)%Q.
End LoopVocabulary.
End JPEGCompressorAdvanced.
End JPEGCompressorAdvanced.

(** ** PNGCompressorAdvanced.findOptimalQuality: a ladder of qualities *)

Module PNGCompressorAdvanced.
Section PNGCompressorAdvanced.
Context `{Browser}.

Definition qualityLevels : list Q := [0.8; 0.6; 0.4; 0.2]%Q.

(** [for (const quality of levels) { ...; if (blob.size <= targetSize) return ... }];
    [None] when the loop falls through *)
Fixpoint tryLevels (canvas : Canvas) (targetSize : Z) (levels : list Q)
  : M (option CompressedImageResult) :=
  match levels with
  | [] => ret None
  | q :: rest =>
      '(b, url) ← canvasToBlob Png canvas q;
      if blob_size b <=? targetSize then
        ret (Some {| blob := b; dataUrl := url; quality := q |})
      else tryLevels canvas targetSize rest
  end.

Definition findOptimalQuality (canvas : Canvas) (targetSize : Z)
  : M CompressedImageResult :=
  found ← tryLevels canvas targetSize qualityLevels;
  match found with
  | Some r => ret r
  | None =>
      '(b, url) ← canvasToBlob Png canvas 0.1%Q;
      ret {| blob := b; dataUrl := url; quality := 0.1%Q |}
  end.

(** *** PNGCompressorAdvanced.optimizeColorsForPNG *)

(** the body of the loop, at byte offset [i] *)
Definition optimizePixel (colorPrecision : Z) (data : list Z) (i : nat)
  : list Z :=
  if data !!! (i + 3)%nat <? 128 then
    let data := <[i := 0]> data in
    let data := <[(i + 1)%nat := 0]> data in
    let data := <[(i + 2)%nat := 0]> data in
    <[(i + 3)%nat := 0]> data   (* continue *)
  else
    let data := <[(i + 3)%nat := 255]> data in
    let data := <[i := quantize colorPrecision (data !!! i)]> data in
    let data :=
      <[(i + 1)%nat := quantize colorPrecision (data !!! (i + 1)%nat)]> data in
    <[(i + 2)%nat := quantize colorPrecision (data !!! (i + 2)%nat)]> data.

Definition optimizeColorsForPNG (data : list Z) (width height : nat) : list Z :=
  let colorPrecision :=
    if 1000000 <? Z.of_nat width * Z.of_nat height then 16 else 8 in
  foldl (optimizePixel colorPrecision) data (pixelOffsets (length data)).

(** what the pass does to one pixel *)
Definition optimizedPixel (colorPrecision : Z) (p : Z * Z * Z * Z)
  : Z * Z * Z * Z :=
  let '(r, g, b, a) := p in
  if a <? 128 then (0, 0, 0, 0)
  else (quantize colorPrecision r, quantize colorPrecision g,
        quantize colorPrecision b, 255).

(** *** PNGCompressorAdvanced.compressWithSimpleTiling: the grid of tiles *)

Definition tileSize : nat := 1024.

(** the tiles in the order of
    [for (y = 0; y < tilesY; y++) for (x = 0; x < tilesX; x++)] *)
Definition simpleTiles (width height tileSize : nat) : list Tile :=
  let tilesX := ceilDiv width tileSize in
  let tilesY := ceilDiv height tileSize in
  y ← seq 0 tilesY;
  x ← seq 0 tilesX;
  [tileAt width height tileSize x y].

(** *** The canvas as pixels, and the two canvas-only strategies *)

(** the bytes of a run of pixels, as in [ImageData.data], and back *)
Definition toBytes (pixels : list (Z * Z * Z * Z)) : list Z :=
  pixels ≫= (fun p => let '(r, g, b, a) := p in [r; g; b; a]).

Definition toPixels (data : list Z) : list (Z * Z * Z * Z) :=
  pixelAt data <$> seq 0 (length data / 4).

(** the transparent pixel *)
Definition transparent : Z * Z * Z * Z := (0, 0, 0, 0).

(** the body of the tile loop of [compressWithSimpleTiling], between
    [getImageData] and [putImageData]:
    [this.optimizeColorsForPNG(tileData.data, tileWidth, tileHeight)] *)
Definition optimizeTile (tileWidth tileHeight : nat)
    (tileData : list (Z * Z * Z * Z)) : list (Z * Z * Z * Z) :=
  toPixels (optimizeColorsForPNG (toBytes tileData) tileWidth tileHeight).

(** the canvas of [compressWithSimpleTiling] before it is encoded *)
Definition tiledCanvas (width height : nat) (canvas : list (Z * Z * Z * Z))
  : list (Z * Z * Z * Z) :=
  processTiles transparent optimizeTile width canvas
    (simpleTiles width height tileSize).

(** the canvas of [compressWithSimpleApproach] before it is encoded:
    [optimizeColorsForPNG(imageData.data, img.width, img.height)] *)
Definition optimizedCanvas (width height : nat) (canvas : list (Z * Z * Z * Z))
  : list (Z * Z * Z * Z) :=
  toPixels (optimizeColorsForPNG (toBytes canvas) width height).

(** the colour precision that [optimizeColorsForPNG] uses for an image,
    or a tile, of the given size *)
Definition colorPrecisionOf (width height : nat) : Z :=
  if 1000000 <? Z.of_nat width * Z.of_nat height then 16 else 8.

(** *** The worker pool and the tasks dispatched to a worker *)

(** [PooledWorker], without the handle of the worker itself *)
Record PooledWorker : Type := {
  worker_id : nat;     (* id *)
  busy : bool;
  lastUsed : nat;
}.

(** [w.busy = true; w.lastUsed = Date.now()] on the first worker that
    is not busy ([this.workerPool.find((w) => !w.busy)]) *)
Fixpoint takeIdle (now : nat) (pool : list PooledWorker)
  : option (PooledWorker * list PooledWorker) :=
  match pool with
  | [] => None
  | w :: rest =>
      if busy w then
        match takeIdle now rest with
        | Some (got, rest') => Some (got, w :: rest')
        | None => None
        end
      else
        let w' := {| worker_id := worker_id w; busy := true; lastUsed := now |} in
        Some (w', w' :: rest)
  end.

(** what [getWorker] comes to *)
Inductive acquisition : Type :=
| Acquired (w : PooledWorker) (pool : list PooledWorker)
| CreationFailed                      (* createWorker rejected *)
| Polling (pool : list PooledWorker). (* the pool is saturated: setInterval *)

(** [getWorker]; [created] tells whether a worker that has to be created
    gets ready *)
Definition getWorker (maxWorkers now : nat) (created : bool)
    (pool : list PooledWorker) : acquisition :=
  match takeIdle now pool with
  | Some (w, pool') => Acquired w pool'
  | None =>
      if (length pool <? maxWorkers)%nat then
        if created then
          let newWorker :=
            {| worker_id := length pool; busy := true; lastUsed := now |} in
          Acquired newWorker (pool ++ [newWorker])
        else CreationFailed
      else Polling pool
  end.

(** [releaseWorker]: the first worker of the pool with the id of the
    given one ([find((w) => w.id === worker.id)]) is marked idle *)
Fixpoint releaseWorker (now : nat) (id : nat) (pool : list PooledWorker)
  : list PooledWorker :=
  match pool with
  | [] => []
  | w :: rest =>
      if (worker_id w =? id)%nat
      then {| worker_id := worker_id w; busy := false; lastUsed := now |} :: rest
      else w :: releaseWorker now id rest
  end.

(** What can happen to a task once its worker is acquired, the message
    handler is registered and [canvas.toBlob] is called. *)
Inductive taskEvent : Type :=
| BlobNull        (* the toBlob callback receives null *)
| BlobPosted      (* it receives a blob, which is posted to the worker *)
| BlobThrows      (* it receives a blob; arrayBuffer or postMessage throws *)
| WorkerResult    (* the worker answers with a message of type "result" *)
| WorkerError     (* the worker answers with a message of type "error" *)
| TimerFires.     (* the setTimeout callback runs *)

Inductive settlement : Type := Pending | Resolved | Rejected.

Record Task : Type := {
  workerId : nat;          (* pooledWorker.id *)
  listening : bool;        (* messageHandler is registered on the worker *)
  timerArmed : bool;       (* the timeout is set and not cleared *)
  blobPending : bool;      (* the toBlob callback has not run yet *)
  awaitingAnswer : bool;   (* the worker was sent the data and has not answered *)
  promise : settlement;
}.

(** [resolve] and [reject] settle a promise once *)
Definition settle (s : settlement) (p : settlement) : settlement :=
  match p with Pending => s | _ => p end.

(** the task of [compressWithPngEncoder] right after the promise executor
    has run *)
Definition pngEncoderTask (w : PooledWorker) : Task :=
  {| workerId := worker_id w; listening := true; timerArmed := true;
     blobPending := true; awaitingAnswer := false; promise := Pending |}.

(** the task of [compressWithQualityPreservation], which sets no timer *)
Definition qualityPreservationTask (w : PooledWorker) : Task :=
  {| workerId := worker_id w; listening := true; timerArmed := false;
     blobPending := true; awaitingAnswer := false; promise := Pending |}.

(** One event of a task of [compressWithPngEncoder]; [None] when the
    event cannot occur in this state. *)
Definition pngEncoderStep (now : nat) (st : list PooledWorker * Task)
    (ev : taskEvent) : option (list PooledWorker * Task) :=
  let '(pool, t) := st in
  match ev with
  | BlobNull =>
      if blobPending t then
        (* clearTimeout(timeoutId); reject(...); return *)
        Some (pool,
              {| workerId := workerId t; listening := listening t;
                 timerArmed := false; blobPending := false;
                 awaitingAnswer := false;
                 promise := settle Rejected (promise t) |})
      else None
  | BlobPosted =>
      if blobPending t then
        Some (pool,
              {| workerId := workerId t; listening := listening t;
                 timerArmed := timerArmed t; blobPending := false;
                 awaitingAnswer := true; promise := promise t |})
      else None
  | BlobThrows =>
      if blobPending t then
        (* clearTimeout; removeEventListener; releaseWorker; reject *)
        Some (releaseWorker now (workerId t) pool,
              {| workerId := workerId t; listening := false;
                 timerArmed := false; blobPending := false;
                 awaitingAnswer := false;
                 promise := settle Rejected (promise t) |})
      else None
  | WorkerResult | WorkerError =>
      if awaitingAnswer t then
        if listening t then
          (* removeEventListener; releaseWorker; resolve or reject *)
          Some (releaseWorker now (workerId t) pool,
                {| workerId := workerId t; listening := false;
                   timerArmed := timerArmed t; blobPending := false;
                   awaitingAnswer := false;
                   promise :=
                     settle (match ev with WorkerResult => Resolved | _ => Rejected end)
                            (promise t) |})
        else
          Some (pool,
                {| workerId := workerId t; listening := false;
                   timerArmed := timerArmed t; blobPending := false;
                   awaitingAnswer := false; promise := promise t |})
      else None
  | TimerFires =>
      if timerArmed t then
        (* removeEventListener; releaseWorker; reject *)
        Some (releaseWorker now (workerId t) pool,
              {| workerId := workerId t; listening := false;
                 timerArmed := false; blobPending := blobPending t;
                 awaitingAnswer := awaitingAnswer t;
                 promise := settle Rejected (promise t) |})
      else None
  end.

(** One event of a task of [compressWithQualityPreservation]. *)
Definition qualityPreservationStep (now : nat) (st : list PooledWorker * Task)
    (ev : taskEvent) : option (list PooledWorker * Task) :=
  let '(pool, t) := st in
  match ev with
  | BlobNull =>
      if blobPending t then
        (* reject(...); return *)
        Some (pool,
              {| workerId := workerId t; listening := listening t;
                 timerArmed := timerArmed t; blobPending := false;
                 awaitingAnswer := false;
                 promise := settle Rejected (promise t) |})
      else None
  | BlobPosted =>
      if blobPending t then
        Some (pool,
              {| workerId := workerId t; listening := listening t;
                 timerArmed := timerArmed t; blobPending := false;
                 awaitingAnswer := true; promise := promise t |})
      else None
  | BlobThrows =>
      if blobPending t then
        (* the exception leaves the async callback; nothing catches it *)
        Some (pool,
              {| workerId := workerId t; listening := listening t;
                 timerArmed := timerArmed t; blobPending := false;
                 awaitingAnswer := false; promise := promise t |})
      else None
  | WorkerResult | WorkerError =>
      if awaitingAnswer t then
        if listening t then
          Some (releaseWorker now (workerId t) pool,
                {| workerId := workerId t; listening := false;
                   timerArmed := timerArmed t; blobPending := false;
                   awaitingAnswer := false;
                   promise :=
                     settle (match ev with WorkerResult => Resolved | _ => Rejected end)
                            (promise t) |})
        else
          Some (pool,
                {| workerId := workerId t; listening := false;
                   timerArmed := timerArmed t; blobPending := false;
                   awaitingAnswer := false; promise := promise t |})
      else None
  | TimerFires => None   (* no timer is ever set *)
  end.

(** the events of a list, one after the other *)
Fixpoint runTask (step : list PooledWorker * Task -> taskEvent ->
                         option (list PooledWorker * Task))
    (st : list PooledWorker * Task) (evs : list taskEvent)
  : option (list PooledWorker * Task) :=
  match evs with
  | [] => Some st
  | ev :: rest =>
      match step st ev with
      | Some st' => runTask step st' rest
      | None => None
      end
  end.

(** the worker with this id that [releaseWorker] would find is busy *)
Definition busyIn (pool : list PooledWorker) (id : nat) : bool :=
  match list_find (fun w => worker_id w = id) pool with
  | Some (_, w) => busy w
  | None => false
  end.

(** the task runs on the worker [id], and its promise is settled only
    once that worker is released *)
Definition settledReleased (id : nat) (st : list PooledWorker * Task) : Prop :=
  workerId st.2 = id /\ (promise st.2 <> Pending -> busyIn st.1 id = false).

(** [Math.max(2, Math.min(4, navigator.hardwareConcurrency || 2))];
    an undefined [hardwareConcurrency] is 0 here *)
Definition maxWorkers (hardwareConcurrency : nat) : nat :=
  Nat.max 2 (Nat.min 4 (if (hardwareConcurrency =? 0)%nat then 2
                        else hardwareConcurrency)).

(** [createWorker(id)]: the worker is pushed on the pool, idle, when it
    answers "ready"; nothing is pushed when it fails or times out *)
Definition createWorker (now id : nat) (ready : bool)
    (pool : list PooledWorker) : list PooledWorker :=
  if ready then pool ++ [{| worker_id := id; busy := false; lastUsed := now |}]
  else pool.

(** [getWorker] in two steps, as it runs when the pool changes while it
    waits for [createWorker].  The first step is the call up to
    [await this.createWorker(newWorkerId)]: it takes an idle worker, or
    decides to create the worker [newWorkerId], or polls. *)
Inductive started : Type :=
| Took (w : PooledWorker) (pool : list PooledWorker)
| Creating (newWorkerId : nat)
| Saturated.

Definition getWorker_start (maxWorkers now : nat) (pool : list PooledWorker)
  : started :=
  match takeIdle now pool with
  | Some (w, pool') => Took w pool'
  | None =>
      if (length pool <? maxWorkers)%nat then Creating (length pool)
      else Saturated
  end.

(** the second step, after the await:
    [newWorker = this.workerPool[newWorkerId]; newWorker.busy = true;
     newWorker.lastUsed = Date.now()].  There is no result when the pool
    has no such entry: the assignment throws. *)
Definition getWorker_resume (now newWorkerId : nat)
    (pool : list PooledWorker) : option (PooledWorker * list PooledWorker) :=
  match pool !! newWorkerId with
  | Some w =>
      let w' := {| worker_id := worker_id w; busy := true; lastUsed := now |} in
      Some (w', <[newWorkerId := w']> pool)
  | None => None
  end.

(** a worker marked idle: [busy = false; lastUsed = Date.now()] *)
Definition idle (now : nat) (w : PooledWorker) : PooledWorker :=
  {| worker_id := worker_id w; busy := false; lastUsed := now |}.

(** *** The canvas pool *)

(** a canvas of the pool: its size, and whether it is blank *)
Record PoolCanvas : Type := {
  canvas_width : nat;
  canvas_height : nat;
  cleared : bool;
}.

(** [getCanvas]: the first canvas of the pool with the given size is
    taken out of it ([findIndex], [splice]); a new canvas otherwise *)
Definition getCanvas (width height : nat) (canvasPool : list PoolCanvas)
  : PoolCanvas * list PoolCanvas :=
  match list_find (fun canvas => canvas_width canvas = width
                                 /\ canvas_height canvas = height) canvasPool with
  | Some (availableCanvasIndex, canvas) =>
      (canvas, delete availableCanvasIndex canvasPool)
  | None =>
      ({| canvas_width := width; canvas_height := height; cleared := true |},
       canvasPool)
  end.

(** [recycleCanvas]: the canvas is cleared (when it has a 2d context) and
    pushed, unless the pool holds 10 canvases already *)
Definition recycleCanvas (hasContext : bool) (canvas : PoolCanvas)
    (canvasPool : list PoolCanvas) : list PoolCanvas :=
  if (length canvasPool <? 10)%nat then
    canvasPool ++
      [if hasContext
       then {| canvas_width := canvas_width canvas;
               canvas_height := canvas_height canvas; cleared := true |}
       else canvas]
  else canvasPool.

(** *** PNGCompressorAdvanced.compress *)

Record CompressionOptions : Type := { targetSize : option Z }.

Definition supportedTypes : list string := ["image/png"]%string.
Definition TARGET_SIZE_BASE : Z := 200 * 1024.
Definition ACCEPTABLE_SIZE : Z := 500 * 1024.
Definition MAX_SIZE : Z := 50 * 1024 * 1024.

(** [options?.targetSize || this.TARGET_SIZE_BASE] *)
Definition chosenTarget (options : option CompressionOptions) : Z :=
  match options with
  | Some {| targetSize := Some t |} => if t =? 0 then TARGET_SIZE_BASE else t
  | _ => TARGET_SIZE_BASE
  end.

(** [error.message.includes("worker") || error.message.includes("WASM")] *)
Definition mentionsWorker (e : error) : bool :=
  match e with WorkerFailed => true | _ => false end.

Section Pipeline.
(** the stages that run only when the file is above the target *)
Variable initializeWorkerPool : M unit.
Variables compressLargeImage compressWithDownscaling
          compressWithQualityPreservation compressWithSimpleApproach
          compressWithSimpleTiling : File -> Z -> M CompressedImageResult.

Definition compress (file : File) (options : option CompressionOptions)
  : M CompressedImageResult :=
  if negb (includes supportedTypes (file_type file)) then
    throw UnsupportedFileType
  else if MAX_SIZE <? file_size file then throw FileTooLarge
  else
    let targetSize := chosenTarget options in
    if file_size file <=? targetSize then
      url ← fileToDataURL file;
      ret {| blob := file_blob file; dataUrl := url; quality := 1.0%Q |}
    else
      initializeWorkerPool ;;
      let targetSizeInternal :=
        if 15 * 1024 * 1024 <? file_size file then 400 * 1024
        else if 8 * 1024 * 1024 <? file_size file then 300 * 1024
        else if 3 * 1024 * 1024 <? file_size file then 250 * 1024
        else TARGET_SIZE_BASE in
      if 10 * 1024 * 1024 <? file_size file then
        compressLargeImage file targetSizeInternal
      else
        try_catch
          (if 5 * 1024 * 1024 <? file_size file
           then compressWithDownscaling file targetSizeInternal
           else compressWithQualityPreservation file targetSizeInternal)
          (fun e =>
             try_catch
               (if mentionsWorker e
                then compressWithSimpleApproach file targetSizeInternal
                else compressWithSimpleTiling file targetSizeInternal)
               (fun _ => throw StrategyFailed)).
End Pipeline.
End PNGCompressorAdvanced.
End PNGCompressorAdvanced.

(** ** PNGCompressor: the classifier and the choice of a strategy *)

Module PNGCompressor.

Inductive imageType : Type := lineart | photographic | graphical | mixed.

(** the counters of [analyzeImageType] *)
Record Tally : Type := {
  uniqueColors : gset (Z * Z * Z);
  edgeCount : nat;
  transparentPixels : nat;
  blackPixels : nat;
  whitePixels : nat;
  grayPixels : nat;
  coloredPixels : nat;
}.

Definition emptyTally : Tally :=
  {| uniqueColors := ∅; edgeCount := 0; transparentPixels := 0;
     blackPixels := 0; whitePixels := 0; grayPixels := 0; coloredPixels := 0 |}.

Inductive bucket : Type := Black | White | Gray | Colored.

Definition countTransparent (t : Tally) : Tally :=
  {| uniqueColors := uniqueColors t; edgeCount := edgeCount t;
     transparentPixels := S (transparentPixels t);
     blackPixels := blackPixels t; whitePixels := whitePixels t;
     grayPixels := grayPixels t; coloredPixels := coloredPixels t |}.

Definition countBucket (k : bucket) (t : Tally) : Tally :=
  {| uniqueColors := uniqueColors t; edgeCount := edgeCount t;
     transparentPixels := transparentPixels t;
     blackPixels := match k with Black => S (blackPixels t) | _ => blackPixels t end;
     whitePixels := match k with White => S (whitePixels t) | _ => whitePixels t end;
     grayPixels := match k with Gray => S (grayPixels t) | _ => grayPixels t end;
     coloredPixels :=
       match k with Colored => S (coloredPixels t) | _ => coloredPixels t end |}.

Definition addColor (key : Z * Z * Z) (t : Tally) : Tally :=
  {| uniqueColors := {[ key ]} ∪ uniqueColors t; edgeCount := edgeCount t;
     transparentPixels := transparentPixels t;
     blackPixels := blackPixels t; whitePixels := whitePixels t;
     grayPixels := grayPixels t; coloredPixels := coloredPixels t |}.

Definition countEdge (t : Tally) : Tally :=
  {| uniqueColors := uniqueColors t; edgeCount := S (edgeCount t);
     transparentPixels := transparentPixels t;
     blackPixels := blackPixels t; whitePixels := whitePixels t;
     grayPixels := grayPixels t; coloredPixels := coloredPixels t |}.

(** the bucket of a colour *)
Definition bucketOf (r g b : Z) : bucket :=
  if (r <? 30) && (g <? 30) && (b <? 30) then Black
  else if (225 <? r) && (225 <? g) && (225 <? b) then White
  else if (Z.abs (r - g) <? 20) && (Z.abs (r - b) <? 20) && (Z.abs (g - b) <? 20)
       then Gray
  else Colored.

(** the body of the two sampling loops, at row [y] and column [x] *)
Definition visit (data : list Z) (sampleSize stride : nat)
    (t : Tally) (y x : nat) : Tally :=
  let i := ((y * sampleSize + x) * 4)%nat in
  let alpha := data !!! (i + 3)%nat in
  let t := if alpha <? 255 then countTransparent t else t in
  if (alpha <? 255) && (alpha =? 0) then t (* continue *)
  else
    let r := data !!! i in
    let g := data !!! (i + 1)%nat in
    let b := data !!! (i + 2)%nat in
    let t := countBucket (bucketOf r g b) t in
    let t := addColor (r / 5, g / 5, b / 5) t in
    if ((x <? sampleSize - stride)%nat && (y <? sampleSize - stride)%nat)%bool then
      let rightIdx := ((y * sampleSize + (x + stride)) * 4)%nat in
      let bottomIdx := (((y + stride) * sampleSize + x) * 4)%nat in
      let colorDiff1 := colorDiff data i rightIdx in
      let colorDiff2 := colorDiff data i bottomIdx in
      if (100 <? colorDiff1) || (100 <? colorDiff2) then countEdge t else t
    else t.

(** the values of [for (let v = 0; v < bound; v += stride)] *)
Definition strides (bound stride : nat) : list nat :=
  (fun k => (k * stride)%nat) <$> seq 0 ((bound + stride - 1) / stride).

Definition scan (data : list Z) (sampleSize stride : nat) : Tally :=
  foldl (fun t y => foldl (fun t x => visit data sampleSize stride t y x) t
                      (strides sampleSize stride))
        emptyTally (strides sampleSize stride).

(** the samples that were put in a bucket *)
Definition counted (t : Tally) : nat :=
  (blackPixels t + whitePixels t + grayPixels t + coloredPixels t)%nat.

(** after [visited] samples: no counter is ahead of the samples, and edges
    and colours are only counted on samples that were put in a bucket *)
Definition tallied (visited : nat) (t : Tally) : Prop :=
  (counted t <= visited)%nat /\ (edgeCount t <= counted t)%nat /\
  (size (uniqueColors t) <= counted t)%nat /\
  (transparentPixels t <= visited)%nat.

(** the exact quotient of a counter and the number of samples *)
Definition ratio (count total : nat) : Q :=
  (inject_Z (Z.of_nat count) / inject_Z (Z.of_nat total))%Q.

Definition Qltb (x y : Q) : bool := if Qlt_le_dec x y then true else false.

(** [analyzeImageType] on the sampled bytes: the counters, the ratios and
    the chain of tests.  The ratios are doubles ([count / total]), their
    sum is a double, and the thresholds are the doubles that the literals
    denote. *)
Definition classifySample (data : list Z) (sampleSize : nat) : imageType :=
  let stride := Nat.max 1 (sampleSize / 50) in
  let totalSampledPixels := ((sampleSize / stride) * (sampleSize / stride))%nat in
  let t := scan data sampleSize stride in
  let colorRatio := double (ratio (size (uniqueColors t)) totalSampledPixels) in
  let edgeRatio := double (ratio (edgeCount t) totalSampledPixels) in
  let blackWhiteRatio :=
    double (ratio (blackPixels t + whitePixels t) totalSampledPixels) in
  let grayRatio := double (ratio (grayPixels t) totalSampledPixels) in
  let hasTransparency := (0 <? transparentPixels t)%nat in
  if (Qltb (double 0.8) blackWhiteRatio
      || Qltb (double 0.9) (double (blackWhiteRatio + grayRatio)))
     && Qltb (double 0.05) edgeRatio then lineart
  else if Qltb (double 0.5) colorRatio && Qltb edgeRatio (double 0.1)
       then photographic
  else if Qltb colorRatio (double 0.2) || Qltb (double 0.2) edgeRatio
          || hasTransparency then graphical
  else mixed.

(** The decision table in the words of the specification: the rules in
    order, the first whose condition holds gives the kind, and [mixed] when
    none does.  The ratios, their sum and the thresholds are numbers of
    the program: doubles. *)
Record Ratios : Type := {
  colorRatio : Q;
  edgeRatio : Q;
  blackWhiteRatio : Q;
  grayRatio : Q;
  hasTransparency : bool;
}.

Definition decisionRules : list ((Ratios -> bool) * imageType) :=
  [ (fun m => (Qltb (double 0.8) (blackWhiteRatio m)
               || Qltb (double 0.9) (double (blackWhiteRatio m + grayRatio m)))
              && Qltb (double 0.05) (edgeRatio m), lineart);
    (fun m => Qltb (double 0.5) (colorRatio m)
              && Qltb (edgeRatio m) (double 0.1), photographic);
    (fun m => Qltb (colorRatio m) (double 0.2) || Qltb (double 0.2) (edgeRatio m)
              || hasTransparency m, graphical) ].

Fixpoint firstMatch (rules : list ((Ratios -> bool) * imageType)) (m : Ratios)
  : imageType :=
  match rules with
  | [] => mixed
  | (cond, kind) :: rest => if cond m then kind else firstMatch rest m
  end.

Definition decisionTable (m : Ratios) : imageType := firstMatch decisionRules m.

(** the conditions of the three rules, as propositions *)
Definition lineartRule (m : Ratios) : Prop :=
  ((double 0.8 < blackWhiteRatio m)%Q
   \/ (double 0.9 < double (blackWhiteRatio m + grayRatio m))%Q)
  /\ (double 0.05 < edgeRatio m)%Q.
Definition photographicRule (m : Ratios) : Prop :=
  (double 0.5 < colorRatio m)%Q /\ (edgeRatio m < double 0.1)%Q.
Definition graphicalRule (m : Ratios) : Prop :=
  (colorRatio m < double 0.2)%Q \/ (double 0.2 < edgeRatio m)%Q
  \/ hasTransparency m = true.

(** the exact quotients of the counters of [analyzeImageType]; the ratios
    of the program are the doubles nearest to them *)
Definition derivedRatios (data : list Z) (sampleSize : nat) : Ratios :=
  let stride := Nat.max 1 (sampleSize / 50) in
  let total := ((sampleSize / stride) * (sampleSize / stride))%nat in
  let t := scan data sampleSize stride in
  {| colorRatio := ratio (size (uniqueColors t)) total;
     edgeRatio := ratio (edgeCount t) total;
     blackWhiteRatio := ratio (blackPixels t + whitePixels t) total;
     grayRatio := ratio (grayPixels t) total;
     hasTransparency := (0 <? transparentPixels t)%nat |}.

(** the ratios that [analyzeImageType] derives from the sampled bytes:
    [uniqueColors.size / totalSampledPixels] and the like, doubles *)
Definition measuredRatios (data : list Z) (sampleSize : nat) : Ratios :=
  let m := derivedRatios data sampleSize in
  {| colorRatio := double (colorRatio m);
     edgeRatio := double (edgeRatio m);
     blackWhiteRatio := double (blackWhiteRatio m);
     grayRatio := double (grayRatio m);
     hasTransparency := hasTransparency m |}.

(** the decision table on the exact quotients of the counters and the
    thresholds as they are written, in which only the sum of the two
    ratios is taken as the program computes it: the sum of two doubles,
    a double, against the double of 0.9 *)
Definition sumRoundedRules : list ((Ratios -> bool) * imageType) :=
  [ (fun m => (Qltb 0.8 (blackWhiteRatio m)
               || Qltb (double 0.9)
                       (double (double (blackWhiteRatio m)
                                + double (grayRatio m))))
              && Qltb 0.05 (edgeRatio m), lineart);
    (fun m => Qltb 0.5 (colorRatio m) && Qltb (edgeRatio m) 0.1, photographic);
    (fun m => Qltb (colorRatio m) 0.2 || Qltb 0.2 (edgeRatio m)
              || hasTransparency m, graphical) ].

(** the same table with the exact sum *)
Definition exactRules : list ((Ratios -> bool) * imageType) :=
  [ (fun m => (Qltb 0.8 (blackWhiteRatio m)
               || Qltb 0.9 (blackWhiteRatio m + grayRatio m))
              && Qltb 0.05 (edgeRatio m), lineart);
    (fun m => Qltb 0.5 (colorRatio m) && Qltb (edgeRatio m) 0.1, photographic);
    (fun m => Qltb (colorRatio m) 0.2 || Qltb 0.2 (edgeRatio m)
              || hasTransparency m, graphical) ].

(** *** The colour reductions *)

(** the body of the loop of [reduceColorsForPhotographic],
    [reduceColorsForGraphical] and [reduceColorsAggressively], which differ
    in [quantizationLevel] only; at byte offset [i] *)
Definition quantizePixel (quantizationLevel : Z) (data : list Z) (i : nat)
  : list Z :=
  if data !!! (i + 3)%nat =? 0 then data   (* continue *)
  else
    let data := <[i := quantize quantizationLevel (data !!! i)]> data in
    let data :=
      <[(i + 1)%nat := quantize quantizationLevel (data !!! (i + 1)%nat)]> data in
    let data :=
      <[(i + 2)%nat := quantize quantizationLevel (data !!! (i + 2)%nat)]> data in
    <[(i + 3)%nat := binarizeAlpha (data !!! (i + 3)%nat)]> data.

Definition reduceColorsWith (quantizationLevel : Z) (data : list Z) : list Z :=
  foldl (quantizePixel quantizationLevel) data (pixelOffsets (length data)).

Definition reduceColorsForPhotographic : list Z -> list Z := reduceColorsWith 4.
Definition reduceColorsForGraphical : list Z -> list Z := reduceColorsWith 8.
Definition reduceColorsAggressively : list Z -> list Z := reduceColorsWith 16.

(** what these passes do to one pixel *)
Definition quantizedPixel (quantizationLevel : Z) (p : Z * Z * Z * Z)
  : Z * Z * Z * Z :=
  let '(r, g, b, a) := p in
  if a =? 0 then p
  else (quantize quantizationLevel r, quantize quantizationLevel g,
        quantize quantizationLevel b, binarizeAlpha a).

(** [reduceColorsAdaptive]: the body of the edge detection, at row [y] and
    column [x] *)
Definition detectEdge (data : list Z) (width : nat) (edgeMap : list Z)
    (y x : nat) : list Z :=
  let idx := ((y * width + x) * 4)%nat in
  let leftIdx := ((y * width + (x - 1)) * 4)%nat in
  let rightIdx := ((y * width + (x + 1)) * 4)%nat in
  let topIdx := (((y - 1) * width + x) * 4)%nat in
  let bottomIdx := (((y + 1) * width + x) * 4)%nat in
  if data !!! (idx + 3)%nat <? 128 then edgeMap   (* continue *)
  else
    let leftDiff := colorDiff data idx leftIdx in
    let rightDiff := colorDiff data idx rightIdx in
    let topDiff := colorDiff data idx topIdx in
    let bottomDiff := colorDiff data idx bottomIdx in
    let maxDiff := Z.max (Z.max (Z.max leftDiff rightDiff) topDiff) bottomDiff in
    <[(y * width + x)%nat := if 100 <? maxDiff then 255 else 0]> edgeMap.

(** [for (y = 1; y < height - 1; y++) for (x = 1; x < width - 1; x++)] over
    a zeroed [Uint8Array(width * height)] *)
Definition detectEdges (data : list Z) (width height : nat) : list Z :=
  foldl (fun edgeMap y =>
           foldl (fun edgeMap x => detectEdge data width edgeMap y x)
                 edgeMap (seq 1 (width - 2)))
        (replicate (width * height) 0) (seq 1 (height - 2)).

(** the body of the quantization loop, at row [y] and column [x] *)
Definition adaptPixel (edgeMap : list Z) (width : nat) (data : list Z)
    (y x : nat) : list Z :=
  let i := ((y * width + x) * 4)%nat in
  if data !!! (i + 3)%nat =? 0 then data   (* continue *)
  else
    let isEdge := 0 <? edgeMap !!! (y * width + x)%nat in
    let quantizationLevel := if isEdge then 2 else 6 in
    let data := <[i := quantize quantizationLevel (data !!! i)]> data in
    let data :=
      <[(i + 1)%nat := quantize quantizationLevel (data !!! (i + 1)%nat)]> data in
    let data :=
      <[(i + 2)%nat := quantize quantizationLevel (data !!! (i + 2)%nat)]> data in
    <[(i + 3)%nat := binarizeAlpha (data !!! (i + 3)%nat)]> data.

Definition reduceColorsAdaptive (data : list Z) (width height : nat) : list Z :=
  let edgeMap := detectEdges data width height in
  foldl (fun data y =>
           foldl (fun data x => adaptPixel edgeMap width data y x)
                 data (seq 0 width))
        data (seq 0 height).

(** *** The line-art passes *)

(** a write of an integer into a [Uint8ClampedArray] *)
Definition clamp8 (v : Z) : Z := Z.max 0 (Z.min 255 v).

(** the body of the loop of [optimizeLineArt], at byte offset [i];
    BLACK_THRESHOLD is 30, WHITE_THRESHOLD 200, and
    [255 / (GRAY_LEVELS - 1)] is 85 *)
Definition lineArtPixel (data : list Z) (i : nat) : list Z :=
  if data !!! (i + 3)%nat =? 0 then data   (* continue *)
  else
    let r := data !!! i in
    let g := data !!! (i + 1)%nat in
    let b := data !!! (i + 2)%nat in
    if (r <? 30) && (g <? 30) && (b <? 30) then
      <[(i + 2)%nat := 0]> (<[(i + 1)%nat := 0]> (<[i := 0]> data))
    else if (200 <? r) && (200 <? g) && (200 <? b) then
      <[(i + 2)%nat := 255]> (<[(i + 1)%nat := 255]> (<[i := 255]> data))
    else if (Z.abs (r - g) <? 20) && (Z.abs (r - b) <? 20) && (Z.abs (g - b) <? 20)
    then
      let grayLevel := Math_round (inject_Z (r + g + b) / 3) in
      let quantizedGray := Math_round (inject_Z grayLevel / 85) * 85 in
      <[(i + 2)%nat := clamp8 quantizedGray]>
        (<[(i + 1)%nat := clamp8 quantizedGray]>
           (<[i := clamp8 quantizedGray]> data))
    else
      <[(i + 2)%nat := clamp8 (Math_round (inject_Z b / 32) * 32)]>
        (<[(i + 1)%nat := clamp8 (Math_round (inject_Z g / 32) * 32)]>
           (<[i := clamp8 (Math_round (inject_Z r / 32) * 32)]> data)).

Definition optimizeLineArt (data : list Z) : list Z :=
  foldl lineArtPixel data (pixelOffsets (length data)).

(** what [optimizeLineArt] does to one pixel *)
Definition lineArtColor (p : Z * Z * Z * Z) : Z * Z * Z * Z :=
  let '(r, g, b, a) := p in
  if a =? 0 then p
  else if (r <? 30) && (g <? 30) && (b <? 30) then (0, 0, 0, a)
  else if (200 <? r) && (200 <? g) && (200 <? b) then (255, 255, 255, a)
  else if (Z.abs (r - g) <? 20) && (Z.abs (r - b) <? 20) && (Z.abs (g - b) <? 20)
  then
    let quantizedGray :=
      clamp8 (Math_round (inject_Z (Math_round (inject_Z (r + g + b) / 3)) / 85) * 85) in
    (quantizedGray, quantizedGray, quantizedGray, a)
  else
    (clamp8 (Math_round (inject_Z r / 32) * 32),
     clamp8 (Math_round (inject_Z g / 32) * 32),
     clamp8 (Math_round (inject_Z b / 32) * 32), a).

(** the values a colour channel has after [optimizeLineArt] *)
Definition lineArtLevels : list Z :=
  [0; 32; 64; 96; 128; 160; 192; 224; 85; 170; 255].

(** the body of the loop of [optimizeLineArtAggressively], at byte offset
    [i]; BLACK_THRESHOLD is 40 and GRAY_THRESHOLD 150 *)
Definition aggressiveLineArtPixel (data : list Z) (i : nat) : list Z :=
  let data := <[(i + 3)%nat := binarizeAlpha (data !!! (i + 3)%nat)]> data in
  if data !!! (i + 3)%nat =? 0 then data   (* continue *)
  else
    let r := data !!! i in
    let g := data !!! (i + 1)%nat in
    let b := data !!! (i + 2)%nat in
    let brightness := (inject_Z (r + g + b) / 3)%Q in
    if Qltb brightness 40 then
      <[(i + 2)%nat := 0]> (<[(i + 1)%nat := 0]> (<[i := 0]> data))
    else if Qltb brightness 150 then
      <[(i + 2)%nat := 128]> (<[(i + 1)%nat := 128]> (<[i := 128]> data))
    else
      <[(i + 2)%nat := 255]> (<[(i + 1)%nat := 255]> (<[i := 255]> data)).

Definition optimizeLineArtAggressively (data : list Z) : list Z :=
  foldl aggressiveLineArtPixel data (pixelOffsets (length data)).

(** what [optimizeLineArtAggressively] does to one pixel *)
Definition aggressiveLineArtColor (p : Z * Z * Z * Z) : Z * Z * Z * Z :=
  let '(r, g, b, a) := p in
  if a <? 128 then (r, g, b, 0)
  else
    let brightness := (inject_Z (r + g + b) / 3)%Q in
    if Qltb brightness 40 then (0, 0, 0, 255)
    else if Qltb brightness 150 then (128, 128, 128, 255)
    else (255, 255, 255, 255).

(** *** Vocabulary for the adaptive reduction *)

(** the pixel at row [y], column [x] has alpha at least 128 *)
Definition opaqueAt (data : list Z) (width y x : nat) : bool :=
  negb (data !!! ((y * width + x) * 4 + 3)%nat <? 128).

(** the largest summed channel difference with the four neighbours *)
Definition maxNeighbourDiff (data : list Z) (width y x : nat) : Z :=
  let idx := ((y * width + x) * 4)%nat in
  Z.max (Z.max (Z.max (colorDiff data idx ((y * width + (x - 1)) * 4)%nat)
                      (colorDiff data idx ((y * width + (x + 1)) * 4)%nat))
               (colorDiff data idx (((y - 1) * width + x) * 4)%nat))
        (colorDiff data idx (((y + 1) * width + x) * 4)%nat).

(** the pixel is not on the border of the image *)
Definition interior (width height y x : nat) : bool :=
  ((1 <=? y) && (y <? height - 1) && (1 <=? x) && (x <? width - 1))%nat.

(** the edge flag: an interior pixel of alpha at least 128 whose largest
    difference with a neighbour is above 100 *)
Definition isEdge (data : list Z) (width height y x : nat) : bool :=
  interior width height y x && opaqueAt data width y x
  && (100 <? maxNeighbourDiff data width y x).

(** what the edge detection writes for an opaque interior pixel *)
Definition edgeMark (data : list Z) (width y x : nat) : Z :=
  if 100 <? maxNeighbourDiff data width y x then 255 else 0.

(** the body of the quantization loop, at the byte offset [i] of a pixel *)
Definition adaptAt (edgeMap : list Z) (data : list Z) (i : nat) : list Z :=
  quantizePixel (if 0 <? edgeMap !!! (i / 4)%nat then 2 else 6) data i.

Section PNGCompressor.
Context `{Browser}.

Definition supportedTypes : list string := ["image/png"]%string.
Definition TARGET_SIZE : Z := 200 * 1024.

Definition analyzeImageType (img : Image) : M imageType :=
  let sampleSize :=
    Z.to_nat (Z.min (Z.min (image_width img) (image_height img)) 300) in
  emit EvClassify ;;
  data ← lift NoCanvasContext (sampleImage img sampleSize);
  ret (classifySample data sampleSize).

(** the four strategies, which quantize and encode *)
Variables compressLineArt compressPhotographicPNG compressGraphicalPNG
          compressHybridPNG : Image -> Z -> M CompressedImageResult.

Definition compress (file : File) : M CompressedImageResult :=
  if negb (includes supportedTypes (file_type file)) then
    throw UnsupportedFileType
  else if file_size file <=? TARGET_SIZE then
    url ← fileToDataURL file;
    ret {| blob := file_blob file; dataUrl := url; quality := 1.0%Q |}
  else
    img ← createImageFromFile file;
    imageType ← analyzeImageType img;
    match imageType with
    | lineart => compressLineArt img (file_size file)
    | photographic => compressPhotographicPNG img (file_size file)
    | graphical => compressGraphicalPNG img (file_size file)
    | mixed => compressHybridPNG img (file_size file)
    end.
End PNGCompressor.

(** *** The strategies: a colour reduction, then ladders of qualities *)

Section Strategies.
Context `{Browser}.
(** the bytes of the image drawn on a canvas of its own size
    ([drawImage], [getImageData]); [None] when the canvas has no context *)
Variable imageData : Image -> option (list Z).
(** that canvas after [putImageData] of the given bytes *)
Variable canvasWith : Image -> list Z -> Canvas.

(** [blob.size <= originalSize * ratio] *)
Definition reducedTo (size originalSize : Z) (ratio : Q) : bool :=
  if Qlt_le_dec (inject_Z originalSize * ratio) (inject_Z size) then false
  else true.

(** [for (const quality of qualityLevels) { ...;
      if (blob.size <= originalSize * ratio) return { blob, dataUrl, quality } }];
    [None] when the loop falls through *)
Fixpoint tryQualities (canvas : Canvas) (originalSize : Z) (ratio : Q)
    (levels : list Q) : M (option CompressedImageResult) :=
  match levels with
  | [] => ret None
  | q :: rest =>
      '(b, url) ← canvasToBlob Png canvas q;
      if reducedTo (blob_size b) originalSize ratio then
        ret (Some {| blob := b; dataUrl := url; quality := q |})
      else tryQualities canvas originalSize ratio rest
  end.

(** the last resort: the encoding at the given quality, whatever its size *)
Definition lastResort (canvas : Canvas) (q : Q) : M CompressedImageResult :=
  '(b, url) ← canvasToBlob Png canvas q;
  ret {| blob := b; dataUrl := url; quality := q |}.

Definition compressLineArt (img : Image) (originalSize : Z)
  : M CompressedImageResult :=
  emit (EvDraw (image_width img) (image_height img)) ;;
  data ← lift NoCanvasContext (imageData img);
  emit EvQuantize ;;
  let data := optimizeLineArt data in
  let qualityLevels := [0.7; 0.5; 0.3; 0.2; 0.1]%Q in
  found ← tryQualities (canvasWith img data) originalSize 0.6 qualityLevels;
  match found with
  | Some r => ret r
  | None =>
      emit EvQuantize ;;
      let data := optimizeLineArtAggressively data in
      found ← tryQualities (canvasWith img data) originalSize 0.6 qualityLevels;
      match found with
      | Some r => ret r
      | None => lastResort (canvasWith img data) 0.1
      end
  end.

Definition compressPhotographicPNG (img : Image) (originalSize : Z)
  : M CompressedImageResult :=
  emit (EvDraw (image_width img) (image_height img)) ;;
  data ← lift NoCanvasContext (imageData img);
  emit EvQuantize ;;
  let canvas := canvasWith img (reduceColorsForPhotographic data) in
  let qualityLevels := [0.8; 0.7; 0.6; 0.5; 0.4]%Q in
  found ← tryQualities canvas originalSize 0.85 qualityLevels;
  match found with
  | Some r => ret r
  | None =>
      found ← tryQualities canvas originalSize 0.95 qualityLevels;
      match found with
      | Some r => ret r
      | None => lastResort canvas 0.4
      end
  end.

Definition compressGraphicalPNG (img : Image) (originalSize : Z)
  : M CompressedImageResult :=
  emit (EvDraw (image_width img) (image_height img)) ;;
  data ← lift NoCanvasContext (imageData img);
  emit EvQuantize ;;
  let canvas := canvasWith img (reduceColorsForGraphical data) in
  let qualityLevels := [0.9; 0.8; 0.7; 0.6; 0.5]%Q in
  found ← tryQualities canvas originalSize 0.8 qualityLevels;
  match found with
  | Some r => ret r
  | None =>
      found ← tryQualities canvas originalSize 0.9 qualityLevels;
      match found with
      | Some r => ret r
      | None => lastResort canvas 0.5
      end
  end.

(** the encoding of the canvas at quality [q] is above
    [originalSize * ratio] *)
Definition notReduced (canvas : Canvas) (originalSize : Z) (ratio : Q) (q : Q)
  : Prop :=
  exists b, toBlob Png canvas q = Some b /\
            (inject_Z originalSize * ratio < inject_Z (blob_size b))%Q.

(** the result is the encoding of the canvas at its own quality *)
Definition encodingOf (canvas : Canvas) (r : CompressedImageResult) : Prop :=
  toBlob Png canvas (quality r) = Some (blob r) /\
  dataUrl r = toDataURL Png canvas (quality r).
End Strategies.
End PNGCompressor.

(** ** The workers: public/js/jpeg/mozjpeg-worker.js and
    public/js/png/oxipng-worker.js

    The encoders of the workers are parameters: the MozJPEG encoder with
    the settings of the loop ([encodeTuned]) and with the short settings of
    the fallback ([encodePlain]), [canvas.convertToBlob], and the
    conversion of the outcome to a data URL; each gives [None] when it
    throws. *)

Module MozJPEGWorker.
Section MozJPEGWorker.
Variables Data Url : Type.
Variable byteLength : Data -> Z.
Variables encodeTuned encodePlain : Z -> option Data.
Variable blobToDataURL : Data -> option Url.

Definition MIN_QUALITY : Q := 0.1%Q.
Definition qualityLevels : list Q := [0.7; 0.5; 0.3; 0.1]%Q.

(** [for (const quality of levels) { ... }] of the "compressProgressive"
    handler, from the values [bestQuality] and [bestData] on; [None] when
    the encoder throws *)
Fixpoint tryProgressive (targetSize : Z) (levels : list Q)
    (bestQuality : Q) (bestData : option Data) : option (Q * option Data) :=
  match levels with
  | [] => Some (bestQuality, bestData)
  | quality :: rest =>
      let mozJpegQuality := Math_round (quality * 100) in
      match encodeTuned mozJpegQuality with
      | None => None
      | Some compressedData =>
          let fits := byteLength compressedData <=? targetSize in
          let '(bestQuality, bestData) :=
            if fits && PNGCompressor.Qltb bestQuality quality
            then (quality, Some compressedData)
            else (bestQuality, bestData) in
          if fits then Some (bestQuality, bestData)   (* break *)
          else tryProgressive targetSize rest bestQuality bestData
      end
  end.

(** the "result" message of the handler (data, data URL, quality), once
    the module is loaded and the image is drawn; [None] for an "error"
    message *)
Definition compressProgressive (targetSize : Z) : option (Data * Url * Q) :=
  match tryProgressive targetSize qualityLevels MIN_QUALITY None with
  | None => None
  | Some (bestQuality, Some bestData) =>
      match blobToDataURL bestData with
      | Some dataUrl => Some (bestData, dataUrl, bestQuality)
      | None => None
      end
  | Some (_, None) =>
      match encodePlain (Math_round (MIN_QUALITY * 100)) with
      | Some compressedData =>
          match blobToDataURL compressedData with
          | Some dataUrl => Some (compressedData, dataUrl, MIN_QUALITY)
          | None => None
          end
      | None => None
      end
  end.

(** the tuned encoding at the MozJPEG quality [q] exceeds the target *)
Definition tunedTooLarge (targetSize : Z) (q : Z) : Prop :=
  exists compressedData,
    encodeTuned q = Some compressedData /\ targetSize < byteLength compressedData.
End MozJPEGWorker.
End MozJPEGWorker.

Module OxipngWorker.
Section OxipngWorker.
Variables OutBlob Url : Type.
Variable size : OutBlob -> Z.
(** [canvas.convertToBlob({ type: "image/png", quality })] on the canvas
    after [optimizeForPng] *)
Variable convertToBlob : Q -> option OutBlob.
Variable blobToDataURL : OutBlob -> option Url.

Definition qualityLevels : list Q := [0.8; 0.6; 0.4; 0.2; 0.1]%Q.

(** the loop of the "compressPng" handler: a level at which the encoding
    or the conversion to a data URL throws is skipped (the [catch] only
    logs) *)
Fixpoint tryLevels (targetSize : Z) (levels : list Q)
  : option (OutBlob * Url * Q) :=
  match levels with
  | [] => None
  | quality :: rest =>
      match convertToBlob quality with
      | Some compressedBlob =>
          if size compressedBlob <=? targetSize then
            match blobToDataURL compressedBlob with
            | Some dataUrl => Some (compressedBlob, dataUrl, quality)
            | None => tryLevels targetSize rest
            end
          else tryLevels targetSize rest
      | None => tryLevels targetSize rest
      end
  end.

(** the "result" message (blob, data URL, quality); [None] for an "error"
    message *)
Definition compressPng (targetSize : Z) : option (OutBlob * Url * Q) :=
  match tryLevels targetSize qualityLevels with
  | Some found => Some found
  | None =>
      match convertToBlob 0.1%Q with
      | Some finalBlob =>
          match blobToDataURL finalBlob with
          | Some dataUrl => Some (finalBlob, dataUrl, 0.1%Q)
          | None => None
          end
      | None => None
      end
  end.

(** the loop passes over the level: the encoding throws, or is above the
    target, or its conversion to a data URL throws *)
Definition skipped (targetSize : Z) (quality : Q) : Prop :=
  match convertToBlob quality with
  | Some compressedBlob =>
      size compressedBlob <= targetSize -> blobToDataURL compressedBlob = None
  | None => True
  end.
End OxipngWorker.
End OxipngWorker.

(** ** Concrete browsers used to run the definitions

    A blob is a pair of its size and of the picture it decodes to; a
    picture is the function that gives the size of its encoding at each
    quality.  Images and canvases are pictures. *)

Definition pictureBrowser : Browser :=
  {| Blob := Z * (Q -> Z); blob_size := fst;
     DataUrl := unit; Image := Q -> Z;
     image_width := fun _ => 64; image_height := fun _ => 64;
     Canvas := Q -> Z;
     readAsDataURL := fun _ => Some tt;
     loadImage := fun b => Some (snd b);
     drawImage := fun img _ _ => Some img;
     toDataURL := fun _ _ _ => tt;
     toBlob := fun _ canvas q => Some (canvas q, canvas);
     sampleImage := fun _ _ => None |}.

(** every encoding is far too large, except at quality 1/2 *)
Definition spike : Q -> Z := fun q => if Qeq_bool q (1 # 2) then 0 else 1000000.
(** the encoded size grows linearly with the quality *)
Definition ramp : Q -> Z := fun q => Qfloor (q * 200000).
(** every encoding is too large *)
Definition heavy : Q -> Z := fun _ => 1000000.


(** a worker whose progressive encoding always fails, and one that answers
    with a blob of 900000 bytes *)
Definition noProgressive : (Q -> Z) -> Z -> option (@CompressedImageResult pictureBrowser) :=
  fun _ _ => None.

(** a 2x2 sample: two black and two white opaque pixels *)
Definition checker2 : list Z :=
  [0; 0; 0; 255;  255; 255; 255; 255;
   255; 255; 255; 255;  0; 0; 0; 255].

(** a PNG and a JPEG file already within the targets *)
Definition smallPng : @File pictureBrowser :=
  @Build_File pictureBrowser "image/png" (5000, ramp).
Definition smallJpeg : @File pictureBrowser :=
  @Build_File pictureBrowser "image/jpeg" (5000, ramp).

(** a buffer of two pixels: one opaque, one almost transparent *)
Definition twoPixels : list Z := [203; 100; 7; 200;  90; 45; 13; 100].

(** two opaque pixels side by side, black and white *)
Definition blackWhiteRow : list Z := [0; 0; 0; 255;  255; 255; 255; 255].
(** one fully transparent pixel that still carries a colour *)
Definition ghostPixel : list Z := [7; 7; 7; 0].
(** a 3x3 image, black but for a white centre *)
Definition whiteCentre : list Z :=
  [0; 0; 0; 255;  0; 0; 0; 255;        0; 0; 0; 255;
   0; 0; 0; 255;  255; 255; 255; 255;  0; 0; 0; 255;
   0; 0; 0; 255;  0; 0; 0; 255;        0; 0; 0; 255].

(** a 3x2 canvas of numbered pixels, and a blank canvas of the same size *)
Definition numbered : list nat := [1; 2; 3; 4; 5; 6]%nat.
Definition blankCanvas : list nat := [0; 0; 0; 0; 0; 0]%nat.

(** a pool of two idle workers *)
Definition idlePool : list PNGCompressorAdvanced.PooledWorker :=
  [ {| PNGCompressorAdvanced.worker_id := 0; PNGCompressorAdvanced.busy := false;
       PNGCompressorAdvanced.lastUsed := 0 |};
    {| PNGCompressorAdvanced.worker_id := 1; PNGCompressorAdvanced.busy := false;
       PNGCompressorAdvanced.lastUsed := 0 |} ].

(** a PNG file of 6000000 bytes, a strategy that always fails and one
    that hands the file back *)
Definition largePng : @File pictureBrowser :=
  @Build_File pictureBrowser "image/png" (6000000, ramp).
Definition failingStrategy
  : @File pictureBrowser -> Z -> M (@CompressedImageResult pictureBrowser) :=
  fun _ _ => throw ImageLoadFailed.
Definition echoStrategy
  : @File pictureBrowser -> Z -> M (@CompressedImageResult pictureBrowser) :=
  fun file _ =>
    ret (@Build_CompressedImageResult pictureBrowser (@file_blob pictureBrowser file)
           tt 0.5%Q).

(** a browser whose images are 3168 by 99 pixels, and a file of 6000000
    bytes for it *)
Definition panoramaBrowser : Browser :=
  {| Blob := Z * (Q -> Z); blob_size := fst;
     DataUrl := unit; Image := Q -> Z;
     image_width := fun _ => 3168; image_height := fun _ => 99;
     Canvas := Q -> Z;
     readAsDataURL := fun _ => Some tt;
     loadImage := fun b => Some (snd b);
     drawImage := fun img _ _ => Some img;
     toDataURL := fun _ _ _ => tt;
     toBlob := fun _ canvas q => Some (canvas q, canvas);
     sampleImage := fun _ _ => None |}.
Definition panoramaFile : @File panoramaBrowser :=
  @Build_File panoramaBrowser "image/jpeg" (6000000, heavy).

(** a pool whose first worker is busy and whose second is idle *)
Definition halfBusyPool : list PNGCompressorAdvanced.PooledWorker :=
  [ {| PNGCompressorAdvanced.worker_id := 0;
       PNGCompressorAdvanced.busy := true;
       PNGCompressorAdvanced.lastUsed := 3 |};
    {| PNGCompressorAdvanced.worker_id := 1;
       PNGCompressorAdvanced.busy := false;
       PNGCompressorAdvanced.lastUsed := 5 |} ].
(** a pool of one busy worker *)
Definition busyPool : list PNGCompressorAdvanced.PooledWorker :=
  [ {| PNGCompressorAdvanced.worker_id := 0;
       PNGCompressorAdvanced.busy := true;
       PNGCompressorAdvanced.lastUsed := 3 |} ].

(** an image of 1025 by 1 pixels, numbered from 1; pixel 0 is the
    transparent one *)
Definition stripImage : list nat := seq 1 1025.
(** the worker reports an error for the tile at the left edge and answers
    for the others *)
Definition leftTileFails (t : Tile) : JPEGCompressorAdvanced.tileOutcome :=
  if (tile_x t =? 0)%nat then JPEGCompressorAdvanced.LocalLater
  else JPEGCompressorAdvanced.ByWorker.
(** the tiles are left as they are *)
Definition untouched {P : Type} : nat -> nat -> list P -> list P :=
  fun _ _ data => data.

(** a sample of 10 by 10 opaque pixels: 34 black, then 56 gray, then 10
    red, row by row *)
Definition ninetyPercent : list Z :=
  mjoin (replicate 34 [0; 0; 0; 255] ++ replicate 56 [128; 128; 128; 255]
         ++ replicate 10 [255; 0; 0; 255]).

(** the platform of the PNG strategies for the concrete browser: every
    image holds the two pixels above, and a canvas encodes as the picture
    does, whatever is put on it *)
Definition twoPixelData : (Q -> Z) -> option (list Z) := fun _ => Some twoPixels.
Definition sameCanvas : (Q -> Z) -> list Z -> (Q -> Z) := fun img _ => img.

(* ===== PROOFS ===== *)

(** * Properties *)

(** ** The monad *)

Section MonadFacts.
Context {A B : Type}.

Lemma outcome_bind (m : M A) (k : A -> M B) :
  outcome (m ≫= k) =
  match outcome m with Ok a => outcome (k a) | Err e => Err e end.
Proof.
  destruct m as [t [a|e]]; cbn; [|reflexivity].
  destruct (k a); reflexivity.
Qed.

Lemma trace_bind (m : M A) (k : A -> M B) :
  trace (m ≫= k) =
  trace m ++ match outcome m with Ok a => trace (k a) | Err _ => [] end.
Proof.
  destruct m as [t [a|e]]; cbn.
  - destruct (k a); reflexivity.
  - by rewrite app_nil_r.
Qed.

Lemma bind_ret_l (a : A) (k : A -> M B) : (ret a ≫= k) = k a.
Proof. cbn. by destruct (k a). Qed.
End MonadFacts.

Lemma outcome_try_catch {A} (m : M A) (h : error -> M A) :
  outcome (try_catch m h) =
  match outcome m with Ok a => Ok a | Err e => outcome (h e) end.
Proof.
  destruct m as [t [a|e]]; cbn; [reflexivity|]. by destruct (h e).
Qed.

Section EncoderFacts.
Context `{Browser}.

Lemma canvasToBlob_eq m canvas q :
  canvasToBlob m canvas q =
  ([EvEncode m q],
   match toBlob m canvas q with
   | Some b => Ok (b, toDataURL m canvas q)
   | None => Err CanvasToBlobFailed
   end).
Proof. unfold canvasToBlob. cbn. by destruct (toBlob m canvas q). Qed.

End EncoderFacts.

(** ** Halving *)

Lemma half_width (lo hi : Q) :
  (hi - (lo + hi) / 2 == (hi - lo) / 2)%Q /\ ((lo + hi) / 2 - lo == (hi - lo) / 2)%Q.
Proof. split; field. Qed.

Lemma mid_between (lo hi : Q) :
  (lo <= hi)%Q -> (lo <= (lo + hi) / 2)%Q /\ ((lo + hi) / 2 <= hi)%Q.
Proof.
  intros Hle. unfold Qdiv. change (/ 2)%Q with (1 # 2)%Q. split; lra.
Qed.

Lemma pow2_succ_Q (n : nat) :
  (inject_Z (2 ^ Z.of_nat (S n)) == 2 * inject_Z (2 ^ Z.of_nat n))%Q.
Proof.
  rewrite Nat2Z.inj_succ, Z.pow_succ_r by lia.
  by rewrite inject_Z_mult.
Qed.

Lemma halve_bound (w prec : Q) (n : nat) :
  (w <= prec * inject_Z (2 ^ Z.of_nat (S n)))%Q ->
  (w / 2 <= prec * inject_Z (2 ^ Z.of_nat n))%Q.
Proof.
  rewrite pow2_succ_Q. intros Hw.
  unfold Qdiv. change (/ 2)%Q with (1 # 2)%Q.
  set (p := inject_Z (2 ^ Z.of_nat n)) in *.
  assert (E : (prec * (2 * p) == 2 * (prec * p))%Q) by ring.
  rewrite E in Hw. set (x := (prec * p)%Q) in *. lra.
Qed.

(** [ceil_log2 (w / prec)] halvings bring a width [w] down to [prec]. *)
Lemma ceil_log2_spec (w prec : Q) :
  (0 < prec)%Q ->
  (w <= prec * inject_Z (2 ^ Z.of_nat (ceil_log2 (w / prec))))%Q.
Proof.
  intros Hp. unfold ceil_log2.
  set (a := Qceiling (w / prec)).
  rewrite Z2Nat.id by apply Z.log2_up_nonneg.
  assert (Ha : a <= 2 ^ Z.log2_up a).
  { destruct (Z_lt_le_dec 1 a) as [Hlt|Hle].
    - apply Z.log2_up_spec in Hlt. lia.
    - rewrite Z.log2_up_eqn0 by lia. simpl. lia. }
  assert (Hx : (w / prec <= inject_Z (2 ^ Z.log2_up a))%Q).
  { eapply Qle_trans; [apply Qle_ceiling|]. fold a. by rewrite <- Zle_Qle. }
  assert (E : (w == prec * (w / prec))%Q) by (field; lra).
  rewrite E at 1. by apply Qmult_le_l.
Qed.

(** ** The search loop of JPEGCompressor *)

Module JPEGCompressorFacts.
Import JPEGCompressor.
Section Loop.
Context `{Browser}.
Variables (prec : Q) (target : Z) (canvas : Canvas).

Local Abbreviation next := (next target canvas).
Local Abbreviation best_ok := (best_ok target canvas).

Lemma searchLoop_exit fuel st :
  (maxQuality st - minQuality st <= prec)%Q ->
  searchLoop prec target canvas fuel st = ret st.
Proof.
  intros Hle. destruct fuel; simpl;
    (destruct (Qlt_le_dec _ _) as [Hlt|_]; [|reflexivity]);
    exfalso; apply (Qlt_not_le _ _ Hlt Hle).
Qed.

Lemma searchLoop_out_of_fuel st :
  (prec < maxQuality st - minQuality st)%Q ->
  searchLoop prec target canvas 0 st = throw FuelExhausted.
Proof.
  intros Hlt. simpl. destruct (Qlt_le_dec _ _) as [_|Hle]; [reflexivity|].
  exfalso; apply (Qlt_not_le _ _ Hlt Hle).
Qed.

Lemma searchLoop_step fuel st :
  (prec < maxQuality st - minQuality st)%Q ->
  searchLoop prec target canvas (S fuel) st =
  match toBlob Jpeg canvas (midQuality st) with
  | None => ([EvEncode Jpeg (midQuality st)], Err CanvasToBlobFailed)
  | Some b =>
      let run := searchLoop prec target canvas fuel (next st b) in
      (EvEncode Jpeg (midQuality st) :: trace run, outcome run)
  end.
Proof.
  intros Hlt. simpl.
  destruct (Qlt_le_dec _ _) as [_|Hle];
    [|exfalso; apply (Qlt_not_le _ _ Hlt Hle)].
  rewrite canvasToBlob_eq. fold (midQuality st).
  destruct (toBlob Jpeg canvas (midQuality st)) as [b|]; [|reflexivity].
  unfold next. cbn.
  destruct (blob_size b <=? target);
    match goal with |- context [searchLoop ?p ?t ?c ?f ?s] =>
      destruct (searchLoop p t c f s) end; reflexivity.
Qed.

Lemma next_width st b :
  (maxQuality (next st b) - minQuality (next st b)
     == (maxQuality st - minQuality st) / 2)%Q.
Proof.
  unfold next, midQuality.
  destruct (blob_size b <=? target); simpl; apply half_width.
Qed.

Lemma next_best_ok st b :
  toBlob Jpeg canvas (midQuality st) = Some b ->
  best_ok st -> best_ok (next st b).
Proof.
  unfold next, best_ok. intros Hb Hst.
  destruct (Z.leb_spec (blob_size b) target); simpl; auto.
Qed.

Lemma searchLoop_best_ok fuel : forall st st',
  best_ok st ->
  outcome (searchLoop prec target canvas fuel st) = Ok st' ->
  best_ok st'.
Proof.
  induction fuel as [|fuel IH]; intros st st' Hst Hrun;
    destruct (Qlt_le_dec prec (maxQuality st - minQuality st)) as [Hlt|Hle].
  - by rewrite searchLoop_out_of_fuel in Hrun.
  - rewrite searchLoop_exit in Hrun by done. injection Hrun as <-. done.
  - rewrite searchLoop_step in Hrun by done.
    destruct (toBlob Jpeg canvas (midQuality st)) as [b|] eqn:Hb; [|done].
    eapply IH; [|exact Hrun]. by apply next_best_ok.
  - rewrite searchLoop_exit in Hrun by done. injection Hrun as <-. done.
Qed.

(** Termination with a bound: once the width is at most [prec * 2^n],
    at most [n] probes are made and [n] units of fuel are enough. *)
Lemma searchLoop_bounded (n : nat) : forall st fuel,
  (maxQuality st - minQuality st <= prec * inject_Z (2 ^ Z.of_nat n))%Q ->
  (n <= fuel)%nat ->
  outcome (searchLoop prec target canvas fuel st) <> Err FuelExhausted /\
  (length (trace (searchLoop prec target canvas fuel st)) <= n)%nat.
Proof.
  induction n as [|n IH]; intros st fuel Hw Hfuel.
  - rewrite searchLoop_exit; [split; [done | simpl; lia]|].
    change (inject_Z (2 ^ Z.of_nat 0)) with 1%Q in Hw.
    by rewrite Qmult_1_r in Hw.
  - destruct (Qlt_le_dec prec (maxQuality st - minQuality st)) as [Hlt|Hle].
    + destruct fuel as [|fuel]; [lia|].
      rewrite searchLoop_step by done.
      destruct (toBlob Jpeg canvas (midQuality st)) as [b|]; cbn.
      * destruct (IH (next st b) fuel) as [Hout Hlen]; [|lia|].
        { rewrite next_width. by apply halve_bound. }
        split; [done | lia].
      * split; [done | lia].
    + rewrite searchLoop_exit by done. split; [done | simpl; lia].
Qed.

(** with an encoder that never fails, the loop ends normally unless the
    fuel ran out *)
Lemma searchLoop_total fuel : forall st,
  encodes canvas ->
  outcome (searchLoop prec target canvas fuel st) <> Err FuelExhausted ->
  exists st', outcome (searchLoop prec target canvas fuel st) = Ok st'.
Proof.
  induction fuel as [|fuel IH]; intros st Henc Hrun;
    destruct (Qlt_le_dec prec (maxQuality st - minQuality st)) as [Hlt|Hle].
  - by rewrite searchLoop_out_of_fuel in Hrun.
  - rewrite searchLoop_exit by done. by eexists.
  - rewrite searchLoop_step in * by done.
    destruct (Henc (midQuality st)) as [b Hb]. rewrite Hb in *.
    by apply IH.
  - rewrite searchLoop_exit by done. by eexists.
Qed.



End Loop.
End JPEGCompressorFacts.

(** ** The search loop of JPEGCompressorAdvanced *)

Module JPEGCompressorAdvancedFacts.
Import JPEGCompressorAdvanced.
Section Loop.
Context `{Browser}.
Variables (prec : Q) (maxIter : nat) (target : Z) (canvas : Canvas).

Local Abbreviation next := (next target canvas).
Local Abbreviation best_ok := (best_ok target canvas).
Local Abbreviation loop := (searchLoop prec maxIter target canvas).
Local Abbreviation continues := (continues prec maxIter).

Lemma probe_eq st :
  probe target canvas st =
  ([EvEncode Jpeg (midQuality st)],
   match toBlob Jpeg canvas (midQuality st) with
   | Some b => Ok (next st b)
   | None => Err CanvasToBlobFailed
   end).
Proof.
  unfold probe. rewrite canvasToBlob_eq. fold (midQuality st).
  destruct (toBlob Jpeg canvas (midQuality st)) as [b|]; [|reflexivity].
  unfold next. cbn. by destruct (blob_size b <=? target).
Qed.

Lemma continues_dec st : {continues st} + {~ continues st}.
Proof.
  unfold continues.
  destruct (Qlt_le_dec prec (maxQuality st - minQuality st)) as [Hlt|Hle].
  - destruct (lt_dec (iteration st) maxIter); [left|right]; tauto.
  - right. intros [Hlt _]. apply (Qlt_not_le _ _ Hlt Hle).
Qed.

Lemma adv_loop_exit fuel st : ~ continues st -> loop fuel st = ret st.
Proof.
  unfold continues. intros Hno.
  destruct fuel; simpl; destruct (Qlt_le_dec _ _) as [Hlt|Hle]; try reflexivity;
    destruct (Nat.ltb_spec (iteration st) maxIter); try reflexivity; tauto.
Qed.

Lemma adv_loop_out_of_fuel st :
  continues st -> loop 0 st = throw FuelExhausted.
Proof.
  intros [Hlt Hit]. simpl.
  destruct (Qlt_le_dec _ _) as [_|Hle];
    [|exfalso; apply (Qlt_not_le _ _ Hlt Hle)].
  destruct (Nat.ltb_spec (iteration st) maxIter); [reflexivity | lia].
Qed.

Lemma adv_loop_step fuel st :
  continues st ->
  loop (S fuel) st =
  match toBlob Jpeg canvas (midQuality st) with
  | None => ([EvEncode Jpeg (midQuality st)], Err CanvasToBlobFailed)
  | Some b =>
      if goodEnough maxIter (next st b)
      then ([EvEncode Jpeg (midQuality st)], Ok (next st b))
      else let run := loop fuel (next st b) in
           (EvEncode Jpeg (midQuality st) :: trace run, outcome run)
  end.
Proof.
  intros [Hlt Hit]. simpl.
  destruct (Qlt_le_dec _ _) as [_|Hle];
    [|exfalso; apply (Qlt_not_le _ _ Hlt Hle)].
  destruct (Nat.ltb_spec (iteration st) maxIter); [|lia].
  rewrite probe_eq.
  destruct (toBlob Jpeg canvas (midQuality st)) as [b|]; [|reflexivity].
  cbn. destruct (goodEnough maxIter (next st b)); [reflexivity|].
  by destruct (searchLoop prec maxIter target canvas fuel (next st b)).
Qed.

Lemma adv_next_iteration st b : iteration (next st b) = S (iteration st).
Proof. unfold next. by destruct (blob_size b <=? target). Qed.

Lemma adv_next_best_ok st b :
  toBlob Jpeg canvas (midQuality st) = Some b ->
  best_ok st -> best_ok (next st b).
Proof.
  unfold next, best_ok. intros Hb Hst.
  destruct (Z.leb_spec (blob_size b) target); simpl; auto.
Qed.

Lemma adv_loop_best_ok fuel : forall st st',
  best_ok st -> outcome (loop fuel st) = Ok st' -> best_ok st'.
Proof.
  induction fuel as [|fuel IH]; intros st st' Hst Hrun;
    destruct (continues_dec st) as [Hc|Hc];
    try (rewrite adv_loop_exit in Hrun by done; by injection Hrun as <-).
  - by rewrite adv_loop_out_of_fuel in Hrun.
  - rewrite adv_loop_step in Hrun by done.
    destruct (toBlob Jpeg canvas (midQuality st)) as [b|] eqn:Hb; [|done].
    pose proof (adv_next_best_ok _ _ Hb Hst).
    destruct (goodEnough maxIter (next st b)).
    + by injection Hrun as <-.
    + by eapply IH.
Qed.

(** the iteration counter bounds the number of probes, and
    [maxIter - iteration] units of fuel are enough *)
Lemma adv_loop_bounded fuel : forall st,
  (maxIter - iteration st <= fuel)%nat ->
  outcome (loop fuel st) <> Err FuelExhausted /\
  (length (trace (loop fuel st)) <= maxIter - iteration st)%nat.
Proof.
  induction fuel as [|fuel IH]; intros st Hfuel;
    destruct (continues_dec st) as [Hc|Hc];
    try (rewrite adv_loop_exit by done; split; [done | simpl; lia]).
  - destruct Hc as [_ Hit]. lia.
  - rewrite adv_loop_step by done. destruct Hc as [_ Hit].
    destruct (toBlob Jpeg canvas (midQuality st)) as [b|];
      [|split; [done | simpl; lia]].
    destruct (goodEnough maxIter (next st b)); [split; [done | simpl; lia]|].
    destruct (IH (next st b)) as [Hout Hlen].
    { rewrite adv_next_iteration. lia. }
    rewrite adv_next_iteration in Hlen. cbn. split; [done | lia].
Qed.

Lemma adv_loop_total fuel : forall st,
  encodes canvas ->
  outcome (loop fuel st) <> Err FuelExhausted ->
  exists st', outcome (loop fuel st) = Ok st'.
Proof.
  induction fuel as [|fuel IH]; intros st Henc Hrun;
    destruct (continues_dec st) as [Hc|Hc];
    try (rewrite adv_loop_exit by done; by eexists).
  - by rewrite adv_loop_out_of_fuel in Hrun.
  - rewrite adv_loop_step in * by done.
    destruct (Henc (midQuality st)) as [b Hb]. rewrite Hb in *.
    destruct (goodEnough maxIter (next st b)); [by eexists|].
    by apply IH.
Qed.

Lemma adv_next_within lo hi st b : within lo hi st -> within lo hi (next st b).
Proof.
  unfold within, next. intros (Hlo & Hmid & Hhi).
  destruct (mid_between _ _ Hmid) as [H1 H2]. fold (midQuality st) in H1, H2.
  destruct (blob_size b <=? target); simpl; repeat split;
    solve [done | eapply Qle_trans; eauto].
Qed.


End Loop.
End JPEGCompressorAdvancedFacts.

(** ** The searches as a whole *)

Section SearchFacts.
Context `{Browser}.
Variable progressiveEncode : Canvas -> Z -> option CompressedImageResult.
Variable canvas : Canvas.

Lemma simple_width_fuel :
  ceil_log2 ((JPEGCompressor.MAX_QUALITY - JPEGCompressor.MIN_QUALITY)
               / JPEGCompressor.QUALITY_PRECISION) = 7%nat.
Proof. reflexivity. Qed.

Lemma maxIterations_eq : JPEGCompressorAdvanced.maxIterations = 9%nat.
Proof. reflexivity. Qed.

Lemma simple_loop_finishes fuel :
  (7 <= fuel)%nat ->
  outcome (JPEGCompressor.searchLoop JPEGCompressor.QUALITY_PRECISION
             JPEGCompressor.TARGET_SIZE canvas fuel JPEGCompressor.initialState)
  <> Err FuelExhausted.
Proof.
  intros Hfuel.
  eapply (JPEGCompressorFacts.searchLoop_bounded _ _ _ 7); [|exact Hfuel].
  rewrite <- simple_width_fuel. apply ceil_log2_spec. reflexivity.
Qed.

Lemma advanced_loop_finishes target :
  outcome (JPEGCompressorAdvanced.searchLoop
             JPEGCompressorAdvanced.QUALITY_PRECISION
             JPEGCompressorAdvanced.maxIterations target canvas
             JPEGCompressorAdvanced.maxIterations
             JPEGCompressorAdvanced.initialState)
  <> Err FuelExhausted.
Proof.
  apply JPEGCompressorAdvancedFacts.adv_loop_bounded. apply Nat.le_sub_l.
Qed.


Lemma advanced_initial_within :
  JPEGCompressorAdvanced.within JPEGCompressorAdvanced.MIN_QUALITY
    JPEGCompressorAdvanced.MAX_QUALITY JPEGCompressorAdvanced.initialState.
Proof. repeat split; simpl; discriminate. Qed.

(** Every result of the simple search is within the target. *)
Lemma simple_search_sound fuel r :
  outcome (JPEGCompressor.search fuel canvas) = Ok r ->
  meets Jpeg canvas JPEGCompressor.TARGET_SIZE r.
Proof.
  unfold JPEGCompressor.search. rewrite outcome_bind.
  destruct (outcome (JPEGCompressor.searchLoop _ _ _ _ _)) as [st|e] eqn:Hloop;
    [|done].
  apply JPEGCompressorFacts.searchLoop_best_ok in Hloop; [|exact I].
  unfold JPEGCompressor.best_ok in Hloop.
  destruct (JPEGCompressor.best st) as [[b url]|].
  - intros [= <-]. exact Hloop.
  - rewrite outcome_bind, canvasToBlob_eq. cbn [outcome snd].
    destruct (toBlob Jpeg canvas JPEGCompressor.MIN_QUALITY) as [b|] eqn:Hb;
      [|done].
    destruct (Z.leb_spec (blob_size b) JPEGCompressor.TARGET_SIZE); [|done].
    intros [= <-]. by split.
Qed.

(** What the simple search does once its loop has ended in state [st]. *)
Lemma simple_search_after fuel st :
  outcome (JPEGCompressor.searchLoop JPEGCompressor.QUALITY_PRECISION
             JPEGCompressor.TARGET_SIZE canvas fuel JPEGCompressor.initialState)
    = Ok st ->
  outcome (JPEGCompressor.search fuel canvas) =
  match JPEGCompressor.best st with
  | Some (b, url) =>
      Ok {| blob := b; dataUrl := url; quality := JPEGCompressor.bestQuality st |}
  | None =>
      match toBlob Jpeg canvas JPEGCompressor.MIN_QUALITY with
      | Some b =>
          if blob_size b <=? JPEGCompressor.TARGET_SIZE
          then Ok {| blob := b;
                     dataUrl := toDataURL Jpeg canvas JPEGCompressor.MIN_QUALITY;
                     quality := JPEGCompressor.MIN_QUALITY |}
          else Err TargetNotReached
      | None => Err CanvasToBlobFailed
      end
  end.
Proof.
  intros Hloop. unfold JPEGCompressor.search. rewrite outcome_bind, Hloop.
  destruct (JPEGCompressor.best st) as [[b url]|]; [reflexivity|].
  rewrite outcome_bind, canvasToBlob_eq. cbn [outcome snd].
  destruct (toBlob Jpeg canvas JPEGCompressor.MIN_QUALITY) as [b|]; [|done].
  by destruct (blob_size b <=? JPEGCompressor.TARGET_SIZE).
Qed.

(** What the advanced search does when the maximum-quality probe is too
    large and its loop has ended in state [st]. *)
Lemma advanced_search_after target st bmax :
  toBlob Jpeg canvas JPEGCompressorAdvanced.MAX_QUALITY = Some bmax ->
  target < blob_size bmax ->
  outcome (JPEGCompressorAdvanced.searchLoop
             JPEGCompressorAdvanced.QUALITY_PRECISION
             JPEGCompressorAdvanced.maxIterations target canvas
             JPEGCompressorAdvanced.maxIterations
             JPEGCompressorAdvanced.initialState) = Ok st ->
  outcome (JPEGCompressorAdvanced.findOptimalQuality progressiveEncode canvas target) =
  match JPEGCompressorAdvanced.best st with
  | Some (b, url) =>
      Ok {| blob := b; dataUrl := url;
            quality := JPEGCompressorAdvanced.bestQuality st |}
  | None =>
      match toBlob Jpeg canvas JPEGCompressorAdvanced.MIN_QUALITY with
      | Some b =>
          let lowest :=
            {| blob := b;
               dataUrl := toDataURL Jpeg canvas JPEGCompressorAdvanced.MIN_QUALITY;
               quality := JPEGCompressorAdvanced.MIN_QUALITY |} in
          if blob_size b <=? target then Ok lowest
          else match progressiveEncode canvas target with
               | Some r => Ok r
               | None => Ok lowest
               end
      | None => Err CanvasToBlobFailed
      end
  end.
Proof.
  intros Hmax Hbig Hloop. unfold JPEGCompressorAdvanced.findOptimalQuality.
  rewrite outcome_bind, canvasToBlob_eq, Hmax. cbn [outcome snd].
  destruct (Z.leb_spec (blob_size bmax) target); [lia|].
  rewrite outcome_bind, Hloop.
  destruct (JPEGCompressorAdvanced.best st) as [[b url]|]; [reflexivity|].
  rewrite outcome_bind, canvasToBlob_eq. cbn [outcome snd].
  destruct (toBlob Jpeg canvas JPEGCompressorAdvanced.MIN_QUALITY) as [b|]; [|done].
  destruct (blob_size b <=? target); [reflexivity|].
  rewrite outcome_try_catch. unfold JPEGCompressorAdvanced.compressWithProgressiveJPEG.
  rewrite outcome_bind. cbn.
  by destruct (progressiveEncode canvas target).
Qed.

Lemma advanced_search_at_max target bmax :
  toBlob Jpeg canvas JPEGCompressorAdvanced.MAX_QUALITY = Some bmax ->
  blob_size bmax <= target ->
  outcome (JPEGCompressorAdvanced.findOptimalQuality progressiveEncode canvas target) =
  Ok {| blob := bmax;
        dataUrl := toDataURL Jpeg canvas JPEGCompressorAdvanced.MAX_QUALITY;
        quality := JPEGCompressorAdvanced.MAX_QUALITY |}.
Proof.
  intros Hmax Hle. unfold JPEGCompressorAdvanced.findOptimalQuality.
  rewrite outcome_bind, canvasToBlob_eq, Hmax. cbn [outcome snd].
  by destruct (Z.leb_spec (blob_size bmax) target); [|lia].
Qed.

Lemma advanced_search_max_fails target :
  toBlob Jpeg canvas JPEGCompressorAdvanced.MAX_QUALITY = None ->
  outcome (JPEGCompressorAdvanced.findOptimalQuality progressiveEncode canvas target) =
  Err CanvasToBlobFailed.
Proof.
  intros Hmax. unfold JPEGCompressorAdvanced.findOptimalQuality.
  by rewrite outcome_bind, canvasToBlob_eq, Hmax.
Qed.

Lemma advanced_loop_error target e :
  forall bmax,
  toBlob Jpeg canvas JPEGCompressorAdvanced.MAX_QUALITY = Some bmax ->
  target < blob_size bmax ->
  outcome (JPEGCompressorAdvanced.searchLoop
             JPEGCompressorAdvanced.QUALITY_PRECISION
             JPEGCompressorAdvanced.maxIterations target canvas
             JPEGCompressorAdvanced.maxIterations
             JPEGCompressorAdvanced.initialState) = Err e ->
  outcome (JPEGCompressorAdvanced.findOptimalQuality progressiveEncode canvas target) =
  Err e.
Proof.
  intros bmax Hmax Hbig Hloop. unfold JPEGCompressorAdvanced.findOptimalQuality.
  rewrite outcome_bind, canvasToBlob_eq, Hmax. cbn [outcome snd].
  destruct (Z.leb_spec (blob_size bmax) target); [lia|].
  by rewrite outcome_bind, Hloop.
Qed.
End SearchFacts.

(** ** Claims on the quality search *)

Section QualitySearchClaims.
Context `{Browser}.
Variable progressiveEncode : Canvas -> Z -> option CompressedImageResult.
Variable canvas : Canvas.

Lemma advanced_search_sound target r :
  outcome (JPEGCompressorAdvanced.findOptimalQuality progressiveEncode canvas target)
    = Ok r ->
  meets Jpeg canvas target r \/
  exists b, toBlob Jpeg canvas JPEGCompressorAdvanced.MIN_QUALITY = Some b /\
            target < blob_size b.
Proof.
  destruct (toBlob Jpeg canvas JPEGCompressorAdvanced.MAX_QUALITY) as [bmax|] eqn:Hmax;
    [|by rewrite advanced_search_max_fails].
  destruct (Z_le_gt_dec (blob_size bmax) target) as [Hle|Hgt].
  { rewrite (advanced_search_at_max _ _ _ _ Hmax Hle). intros [= <-]. left. by split. }
  assert (Hbig : target < blob_size bmax) by lia.
  destruct (outcome (JPEGCompressorAdvanced.searchLoop
                       JPEGCompressorAdvanced.QUALITY_PRECISION
                       JPEGCompressorAdvanced.maxIterations target canvas
                       JPEGCompressorAdvanced.maxIterations
                       JPEGCompressorAdvanced.initialState))
    as [st|e] eqn:Hloop.
  2: { rewrite (advanced_loop_error _ _ _ _ _ Hmax Hbig Hloop). done. }
  rewrite (advanced_search_after _ _ _ _ _ Hmax Hbig Hloop).
  apply JPEGCompressorAdvancedFacts.adv_loop_best_ok in Hloop; [|exact I].
  unfold JPEGCompressorAdvanced.best_ok in Hloop.
  destruct (JPEGCompressorAdvanced.best st) as [[b url]|].
  - intros [= <-]. by left.
  - destruct (toBlob Jpeg canvas JPEGCompressorAdvanced.MIN_QUALITY) as [b|] eqn:Hb;
      [|done].
    cbv zeta. destruct (Z.leb_spec (blob_size b) target).
    + intros [= <-]. left. by split.
    + intros _. right. by exists b.
Qed.

Lemma simple_search_complete fuel q :
  encodes canvas -> monotone canvas -> (7 <= fuel)%nat ->
  (JPEGCompressor.MIN_QUALITY <= q)%Q ->
  fits canvas JPEGCompressor.TARGET_SIZE q ->
  exists r, outcome (JPEGCompressor.search fuel canvas) = Ok r /\
            meets Jpeg canvas JPEGCompressor.TARGET_SIZE r.
Proof.
  intros Henc Hmono Hfuel Hq (bq & Hbq & Hfit).
  destruct (JPEGCompressorFacts.searchLoop_total _ _ _ fuel
              JPEGCompressor.initialState Henc (simple_loop_finishes _ _ Hfuel))
    as [st Hloop].
  assert (exists r, outcome (JPEGCompressor.search fuel canvas) = Ok r) as [r Hr].
  { rewrite (simple_search_after _ _ _ Hloop).
    destruct (JPEGCompressor.best st) as [[b url]|]; [by eexists|].
    destruct (Henc JPEGCompressor.MIN_QUALITY) as [b Hb]. rewrite Hb.
    pose proof (Hmono _ _ _ _ Hq Hb Hbq).
    destruct (Z.leb_spec (blob_size b) JPEGCompressor.TARGET_SIZE); [by eexists | lia]. }
  exists r. split; [done|]. by eapply simple_search_sound.
Qed.

Lemma advanced_search_complete target q :
  encodes canvas -> monotone canvas ->
  (JPEGCompressorAdvanced.MIN_QUALITY <= q)%Q ->
  fits canvas target q ->
  exists r,
    outcome (JPEGCompressorAdvanced.findOptimalQuality progressiveEncode canvas target)
      = Ok r /\
    meets Jpeg canvas target r.
Proof.
  intros Henc Hmono Hq (bq & Hbq & Hfit).
  assert (exists r, outcome (JPEGCompressorAdvanced.findOptimalQuality
                               progressiveEncode canvas target) = Ok r
                    /\ meets Jpeg canvas target r) as Hgoal; [|exact Hgoal].
  destruct (Henc JPEGCompressorAdvanced.MAX_QUALITY) as [bmax Hmax].
  destruct (Z_le_gt_dec (blob_size bmax) target) as [Hle|Hgt].
  { rewrite (advanced_search_at_max _ _ _ _ Hmax Hle). eexists. by split. }
  assert (Hbig : target < blob_size bmax) by lia.
  destruct (JPEGCompressorAdvancedFacts.adv_loop_total _ _ target canvas _
              JPEGCompressorAdvanced.initialState Henc
              (advanced_loop_finishes _ _)) as [st Hloop].
  rewrite (advanced_search_after _ _ _ _ _ Hmax Hbig Hloop).
  apply JPEGCompressorAdvancedFacts.adv_loop_best_ok in Hloop; [|exact I].
  unfold JPEGCompressorAdvanced.best_ok in Hloop.
  destruct (JPEGCompressorAdvanced.best st) as [[b url]|]; [by eexists|].
  destruct (Henc JPEGCompressorAdvanced.MIN_QUALITY) as [b Hb]. rewrite Hb.
  pose proof (Hmono _ _ _ _ Hq Hb Hbq). cbv zeta.
  destruct (Z.leb_spec (blob_size b) target); [|lia].
  eexists. by split.
Qed.

(** C1 (as amended).  Quality search correctness.  (i) Every result of
    the simple search is the encoding of the canvas at the returned
    quality and is within the target; a result of the advanced search is
    so too unless even the minimum-quality encoding exceeds the target.
    In particular a recorded best probe is returned and is within the
    target.  (ii) If the encoder never fails and the encoded size is
    weakly monotonic in the quality, then whenever some quality in
    [MIN_QUALITY, MAX_QUALITY] gives an encoding within the target, both
    searches return a result whose quality gives an encoding within the
    target. *)
Theorem quality_search_correct :
  (forall fuel r,
     outcome (JPEGCompressor.search fuel canvas) = Ok r ->
     meets Jpeg canvas JPEGCompressor.TARGET_SIZE r)
  /\ (forall target r,
     outcome (JPEGCompressorAdvanced.findOptimalQuality progressiveEncode canvas target)
       = Ok r ->
     meets Jpeg canvas target r \/
     exists b, toBlob Jpeg canvas JPEGCompressorAdvanced.MIN_QUALITY = Some b /\
               target < blob_size b)
  /\ (forall fuel st b url,
     outcome (JPEGCompressor.searchLoop JPEGCompressor.QUALITY_PRECISION
                JPEGCompressor.TARGET_SIZE canvas fuel JPEGCompressor.initialState)
       = Ok st ->
     JPEGCompressor.best st = Some (b, url) ->
     outcome (JPEGCompressor.search fuel canvas)
       = Ok {| blob := b; dataUrl := url; quality := JPEGCompressor.bestQuality st |}
     /\ blob_size b <= JPEGCompressor.TARGET_SIZE)
  /\ (forall target st bmax b url,
     toBlob Jpeg canvas JPEGCompressorAdvanced.MAX_QUALITY = Some bmax ->
     target < blob_size bmax ->
     outcome (JPEGCompressorAdvanced.searchLoop
                JPEGCompressorAdvanced.QUALITY_PRECISION
                JPEGCompressorAdvanced.maxIterations target canvas
                JPEGCompressorAdvanced.maxIterations
                JPEGCompressorAdvanced.initialState) = Ok st ->
     JPEGCompressorAdvanced.best st = Some (b, url) ->
     outcome (JPEGCompressorAdvanced.findOptimalQuality progressiveEncode canvas target)
       = Ok {| blob := b; dataUrl := url;
               quality := JPEGCompressorAdvanced.bestQuality st |}
     /\ blob_size b <= target)
  /\ (encodes canvas -> monotone canvas ->
      (forall fuel q, (7 <= fuel)%nat ->
         (JPEGCompressor.MIN_QUALITY <= q)%Q -> (q <= JPEGCompressor.MAX_QUALITY)%Q ->
         fits canvas JPEGCompressor.TARGET_SIZE q ->
         exists r, outcome (JPEGCompressor.search fuel canvas) = Ok r /\
                   meets Jpeg canvas JPEGCompressor.TARGET_SIZE r)
      /\ (forall target q,
         (JPEGCompressorAdvanced.MIN_QUALITY <= q)%Q ->
         (q <= JPEGCompressorAdvanced.MAX_QUALITY)%Q ->
         fits canvas target q ->
         exists r,
           outcome (JPEGCompressorAdvanced.findOptimalQuality
                      progressiveEncode canvas target) = Ok r /\
           meets Jpeg canvas target r)).
Proof.
  split; [apply simple_search_sound|].
  split; [apply advanced_search_sound|].
  split.
  { intros fuel st b url Hloop Hbest.
    rewrite (simple_search_after _ _ _ Hloop), Hbest. split; [done|].
    apply JPEGCompressorFacts.searchLoop_best_ok in Hloop; [|exact I].
    unfold JPEGCompressor.best_ok in Hloop. rewrite Hbest in Hloop. tauto. }
  split.
  { intros target st bmax b url Hmax Hbig Hloop Hbest.
    rewrite (advanced_search_after _ _ _ _ _ Hmax Hbig Hloop), Hbest.
    split; [done|].
    apply JPEGCompressorAdvancedFacts.adv_loop_best_ok in Hloop; [|exact I].
    unfold JPEGCompressorAdvanced.best_ok in Hloop. rewrite Hbest in Hloop. tauto. }
  intros Henc Hmono. split.
  - intros fuel q Hfuel Hlo _ Hfit. by eapply simple_search_complete.
  - intros target q Hlo _ Hfit. by eapply advanced_search_complete.
Qed.


(** C4.  Iteration bound and termination of the quality search.  For
    every precision [prec > 0] and every initial interval [lo, hi], with
    [n = ceil(log2((hi - lo) / prec))]: the simple loop ends within [n]
    probes (so [n] units of fuel are enough) and the advanced loop, whose
    iteration cap is [n + 2], ends within [n + 2] probes, whatever the
    encoder answers; the width of the interval halves at every probe.
    For the constants of the code [n] is 7 and the cap is 9. *)
Theorem quality_search_iteration_bound (prec lo hi : Q) (target : Z) :
  (0 < prec)%Q ->
  let n := ceil_log2 ((hi - lo) / prec) in
  (forall bq bst fuel, (n <= fuel)%nat ->
     let run := JPEGCompressor.searchLoop prec target canvas fuel
                  {| JPEGCompressor.minQuality := lo;
                     JPEGCompressor.maxQuality := hi;
                     JPEGCompressor.bestQuality := bq;
                     JPEGCompressor.best := bst |} in
     outcome run <> Err FuelExhausted /\ (length (trace run) <= n)%nat)
  /\ (forall bq bst,
     let run := JPEGCompressorAdvanced.searchLoop prec (n + 2) target canvas (n + 2)
                  {| JPEGCompressorAdvanced.minQuality := lo;
                     JPEGCompressorAdvanced.maxQuality := hi;
                     JPEGCompressorAdvanced.bestQuality := bq;
                     JPEGCompressorAdvanced.best := bst;
                     JPEGCompressorAdvanced.iteration := 0 |} in
     outcome run <> Err FuelExhausted /\ (length (trace run) <= n + 2)%nat)
  /\ (forall st b,
     (JPEGCompressor.maxQuality (JPEGCompressor.next target canvas st b)
      - JPEGCompressor.minQuality (JPEGCompressor.next target canvas st b)
      == (JPEGCompressor.maxQuality st - JPEGCompressor.minQuality st) / 2)%Q)
  /\ (forall st b,
     (JPEGCompressorAdvanced.maxQuality (JPEGCompressorAdvanced.next target canvas st b)
      - JPEGCompressorAdvanced.minQuality (JPEGCompressorAdvanced.next target canvas st b)
      == (JPEGCompressorAdvanced.maxQuality st
          - JPEGCompressorAdvanced.minQuality st) / 2)%Q)
  /\ ceil_log2 ((JPEGCompressor.MAX_QUALITY - JPEGCompressor.MIN_QUALITY)
                  / JPEGCompressor.QUALITY_PRECISION) = 7%nat
  /\ JPEGCompressorAdvanced.maxIterations
     = (ceil_log2 ((0.95 - 0.1) / 0.01) + 2)%nat
  /\ JPEGCompressorAdvanced.maxIterations = 9%nat.
Proof.
  intros Hprec n.
  split; [|split; [|split; [|split; [|repeat split]]]].
  - intros bq bst fuel Hfuel.
    eapply JPEGCompressorFacts.searchLoop_bounded; [|done]. simpl.
    by apply ceil_log2_spec.
  - intros bq bst.
    pose proof (JPEGCompressorAdvancedFacts.adv_loop_bounded prec (n + 2) target
                  canvas (n + 2)
                  {| JPEGCompressorAdvanced.minQuality := lo;
                     JPEGCompressorAdvanced.maxQuality := hi;
                     JPEGCompressorAdvanced.bestQuality := bq;
                     JPEGCompressorAdvanced.best := bst;
                     JPEGCompressorAdvanced.iteration := 0 |}) as Hb.
    simpl in Hb. rewrite Nat.sub_0_r in Hb. by apply Hb.
  - apply JPEGCompressorFacts.next_width.
  - intros st b.
    unfold JPEGCompressorAdvanced.next, JPEGCompressorAdvanced.midQuality.
    destruct (blob_size b <=? target); simpl; apply half_width.
Qed.
End QualitySearchClaims.

(** ** The claims at concrete inputs *)

Lemma ramp_encodes : @encodes pictureBrowser ramp.
Proof. intros q. by eexists. Qed.

Lemma ramp_monotone : @monotone pictureBrowser ramp.
Proof.
  intros q1 q2 b1 b2 Hle [= <-] [= <-]. simpl. unfold ramp.
  apply Qfloor_resp_le. apply Qmult_le_compat_r; [exact Hle | discriminate].
Qed.



(** C1, counterexample to the claim as stated: quality 1/2 is in the range
    and gives an encoding of 0 bytes, yet the advanced search returns the
    minimum-quality encoding of 1000000 bytes for a target of 102400, and
    the simple search throws. *)
Lemma quality_search_misses_fitting_quality :
  (JPEGCompressorAdvanced.MIN_QUALITY <= 1 # 2)%Q /\
  (1 # 2 <= JPEGCompressorAdvanced.MAX_QUALITY)%Q /\
  @fits pictureBrowser spike 102400 (1 # 2) /\
  (exists r,
     outcome (@JPEGCompressorAdvanced.findOptimalQuality pictureBrowser
                noProgressive spike 102400) = Ok r /\
     blob r = (1000000, spike) /\
     ~ @blob_size pictureBrowser (blob r) <= 102400) /\
  outcome (@JPEGCompressor.search pictureBrowser 7 spike) = Err TargetNotReached.
Proof.
  split; [discriminate|]. split; [discriminate|].
  split; [exists (0, spike); split; [reflexivity | simpl; lia]|].
  split; [|by vm_compute].
  eexists. split; [by vm_compute|]. split; [reflexivity | simpl; lia].
Qed.

Lemma quality_search_correct_witness :
  @encodes pictureBrowser ramp /\ @monotone pictureBrowser ramp /\
  @fits pictureBrowser ramp JPEGCompressor.TARGET_SIZE 0.3 /\
  exists r, outcome (@JPEGCompressor.search pictureBrowser 7 ramp) = Ok r /\
            @meets pictureBrowser Jpeg ramp JPEGCompressor.TARGET_SIZE r.
Proof.
  assert (Hfit : @fits pictureBrowser ramp JPEGCompressor.TARGET_SIZE 0.3).
  { exists (60000, ramp). split; [reflexivity | by vm_compute]. }
  split; [exact ramp_encodes|]. split; [exact ramp_monotone|]. split; [exact Hfit|].
  destruct (@quality_search_correct pictureBrowser noProgressive ramp)
    as (_ & _ & _ & _ & Hcomplete).
  destruct (Hcomplete ramp_encodes ramp_monotone) as [Hsimple _].
  apply (Hsimple 7%nat 0.3%Q); [lia | discriminate | discriminate | exact Hfit].
Defined.



Lemma quality_search_iteration_bound_witness :
  (0 < 0.01)%Q /\
  (length (trace (@JPEGCompressor.searchLoop pictureBrowser 0.01 102400 ramp 7
                    JPEGCompressor.initialState)) <= 7)%nat.
Proof.
  split; [reflexivity|].
  destruct (@quality_search_iteration_bound pictureBrowser ramp 0.01 0.1 0.95 102400
              eq_refl) as [Hsimple _].
  apply (Hsimple 0.95%Q None 7%nat). vm_compute. lia.
Defined.

(** ** The ladder of PNGCompressorAdvanced *)

Section LadderFacts.
Context `{Browser}.
Variables (canvas : Canvas) (target : Z).

Local Abbreviation tooLarge := (tooLarge canvas target).

Lemma tryLevels_spec (levels : list Q) :
  (forall q, q ∈ levels -> is_Some (toBlob Png canvas q)) ->
  (exists tried q rest b,
      levels = tried ++ q :: rest /\ Forall tooLarge tried /\
      toBlob Png canvas q = Some b /\ blob_size b <= target /\
      PNGCompressorAdvanced.tryLevels canvas target levels =
      (EvEncode Png <$> (tried ++ [q]),
       Ok (Some {| blob := b; dataUrl := toDataURL Png canvas q; quality := q |})))
  \/ (Forall tooLarge levels /\
      PNGCompressorAdvanced.tryLevels canvas target levels =
      (EvEncode Png <$> levels, Ok None)).
Proof.
  induction levels as [|q levels IH]; intros Henc.
  { right. split; [constructor | reflexivity]. }
  destruct (Henc q) as [b Hb]; [by left|].
  simpl. rewrite canvasToBlob_eq, Hb. cbn.
  destruct (Z.leb_spec (blob_size b) target) as [Hle|Hgt].
  - left. exists [], q, levels, b. repeat split; try done.
  - destruct IH as [(tried & q' & rest & b' & -> & Htried & Hb' & Hle' & Hrun)
                   |[Hall Hrun]].
    { intros q' Hq'. apply Henc. by right. }
    + left. exists (q :: tried), q', rest, b'.
      repeat split; try done.
      * constructor; [by exists b | done].
      * rewrite Hrun. reflexivity.
    + right. split; [constructor; [by exists b | done]|].
      rewrite Hrun. reflexivity.
Qed.
End LadderFacts.

(** C10.  The quality convergence of the advanced PNG compressor is a
    fixed descending ladder.  When the canvas encoder answers on the five
    qualities, [findOptimalQuality] returns a result whose quality is one
    of 0.8, 0.6, 0.4, 0.2, 0.1 and whose blob is the encoding at that
    quality; it probed, in this order, the qualities of the ladder 0.8,
    0.6, 0.4, 0.2 up to the first whose blob is within the target, and
    returns that probe; when none is within the target it probed 0.1 last
    and returns that encoding; and whenever the returned quality is not
    0.1 the returned blob is within the target. *)
Theorem png_quality_ladder `{Browser} (canvas : Canvas) (target : Z) :
  (forall q, q ∈ [0.8; 0.6; 0.4; 0.2; 0.1]%Q -> is_Some (toBlob Png canvas q)) ->
  exists r,
    outcome (PNGCompressorAdvanced.findOptimalQuality canvas target) = Ok r /\
    quality r ∈ [0.8; 0.6; 0.4; 0.2; 0.1]%Q /\
    toBlob Png canvas (quality r) = Some (blob r) /\
    (quality r <> 0.1%Q -> blob_size (blob r) <= target) /\
    ((exists tried rest,
        [0.8; 0.6; 0.4; 0.2]%Q = tried ++ quality r :: rest /\
        Forall (tooLarge canvas target) tried /\
        blob_size (blob r) <= target /\
        trace (PNGCompressorAdvanced.findOptimalQuality canvas target)
        = EvEncode Png <$> (tried ++ [quality r]))
     \/ (quality r = 0.1%Q /\
         Forall (tooLarge canvas target) [0.8; 0.6; 0.4; 0.2]%Q /\
         trace (PNGCompressorAdvanced.findOptimalQuality canvas target)
         = EvEncode Png <$> [0.8; 0.6; 0.4; 0.2; 0.1]%Q)).
Proof.
  intros Henc. unfold PNGCompressorAdvanced.findOptimalQuality.
  rewrite outcome_bind, trace_bind.
  destruct (tryLevels_spec canvas target PNGCompressorAdvanced.qualityLevels)
    as [(tried & q & rest & b & Hsplit & Htried & Hb & Hle & Hrun)|[Hall Hrun]].
  { intros q Hq. apply Henc.
    change (q ∈ PNGCompressorAdvanced.qualityLevels ++ [0.1%Q]).
    apply elem_of_app. by left. }
  - rewrite Hrun. cbn [outcome trace fst snd].
    eexists. split; [reflexivity|]. cbn [quality blob].
    assert (Hin : q ∈ PNGCompressorAdvanced.qualityLevels).
    { rewrite Hsplit. apply elem_of_app. right. by left. }
    split.
    { change (q ∈ PNGCompressorAdvanced.qualityLevels ++ [0.1%Q]).
      apply elem_of_app. by left. }
    split; [done|]. split; [done|].
    left. exists tried, rest. repeat split; try done.
    by rewrite app_nil_r.
  - rewrite Hrun. cbn [outcome trace fst snd].
    assert (Hlast : 0.1%Q ∈ [0.8; 0.6; 0.4; 0.2; 0.1]%Q).
    { change (0.1%Q ∈ PNGCompressorAdvanced.qualityLevels ++ [0.1%Q]).
      apply elem_of_app. right. by left. }
    destruct (Henc 0.1%Q Hlast) as [b Hb].
    rewrite outcome_bind, trace_bind, canvasToBlob_eq, Hb. cbn.
    eexists. split; [reflexivity|]. cbn [quality blob].
    split; [exact Hlast|]. split; [done|]. split; [done|].
    right. done.
Qed.

Lemma png_quality_ladder_witness :
  exists r,
    outcome (@PNGCompressorAdvanced.findOptimalQuality pictureBrowser ramp 102400) = Ok r /\
    quality r = 0.4%Q /\ @blob_size pictureBrowser (blob r) = 80000.
Proof.
  destruct (@png_quality_ladder pictureBrowser ramp 102400) as (r & Hr & _).
  { intros q _. by eexists. }
  exists r. split; [exact Hr|].
  vm_compute in Hr. injection Hr as <-. by split.
Defined.

(** ** Rounding to a double *)

Section DoubleFacts.
Local Open Scope Q_scope.

Lemma roundHalfEven_close (x : Q) :
  - (1 # 2) <= inject_Z (roundHalfEven x) - x <= 1 # 2.
Proof.
  unfold roundHalfEven.
  pose proof (Qfloor_le x) as Hlo. pose proof (Qlt_floor x) as Hhi.
  rewrite inject_Z_plus in Hhi. change (inject_Z 1) with 1 in Hhi.
  destruct (x - inject_Z (Qfloor x) ?= 1 # 2) eqn:Hc.
  - apply Qeq_alt in Hc. destruct (Z.even (Qfloor x));
      [|rewrite inject_Z_plus; change (inject_Z 1) with 1]; lra.
  - apply Qlt_alt in Hc. lra.
  - apply Qgt_alt in Hc. rewrite inject_Z_plus. change (inject_Z 1) with 1. lra.
Qed.

Lemma two_power_pos (e : Z) : 0 < 2 ^ e.
Proof. by apply Qpower_0_lt. Qed.

Lemma two_power_succ (e : Z) : 2 ^ (e + 1) == 2 * 2 ^ e.
Proof. rewrite Qpower_plus by done. change (2 ^ 1) with 2. ring. Qed.

Lemma inject_Z_pos (z : Z) : (0 < z)%Z -> 0 < inject_Z z.
Proof. intros Hz. unfold Qlt. cbn. lia. Qed.

(** the logarithms of numerator and denominator bound a positive
    fraction from below *)
Lemma log2_fraction (n : Z) (d : positive) :
  (0 < n)%Z ->
  2 ^ (Z.log2 n - Z.log2 (Z.pos d) - 1) <= n # d.
Proof.
  intros Hn.
  destruct (Z.log2_spec n Hn) as [Hn1 _].
  destruct (Z.log2_spec (Z.pos d) eq_refl) as [_ Hd2].
  pose proof (Z.log2_nonneg n) as Ha. pose proof (Z.log2_nonneg (Z.pos d)) as Hb.
  set (a := Z.log2 n) in *. set (b := Z.log2 (Z.pos d)) in *.
  replace (a - b - 1)%Z with (a - Z.succ b)%Z by lia.
  rewrite Qpower_minus by done.
  change 2 with (inject_Z 2).
  rewrite <- !Zpower_Qpower by lia.
  assert (HB : (0 < 2 ^ Z.succ b)%Z) by (apply Z.pow_pos_nonneg; lia).
  apply Qle_shift_div_r; [by apply inject_Z_pos|].
  rewrite (Qmake_Qdiv n d).
  unfold Qdiv. rewrite <- Qmult_assoc, (Qmult_comm (/ _)), Qmult_assoc.
  apply Qle_shift_div_l; [by apply inject_Z_pos|].
  rewrite <- !inject_Z_mult, <- Zle_Qle. nia.
Qed.

(** scaled by its last place, a positive number that is not subnormal
    has a significand of 53 bits *)
Lemma lastPlace_scaled (x : Q) :
  0 < x -> 2 ^ (-1022) <= x -> 2 ^ 52 <= x / 2 ^ lastPlace x.
Proof.
  intros Hx Hnormal. unfold lastPlace, significandPlace.
  set (e0 := (Z.log2 (Qnum x) - Z.log2 (Z.pos (Qden x)) - 53)%Z).
  set (e1 := if Qle_bool (2 ^ 53) (x / 2 ^ e0) then (e0 + 1)%Z else e0).
  destruct (Z.max_spec e1 (-1074)) as [[_ ->]|[_ ->]].
  - apply Qle_shift_div_l; [apply two_power_pos|].
    apply Qle_trans with (2 ^ (-1022)); [|exact Hnormal].
    apply Qle_bool_iff. by vm_compute.
  - subst e1. destruct (Qle_bool (2 ^ 53) (x / 2 ^ e0)) eqn:Hc.
    + apply Qle_bool_iff in Hc.
      apply Qle_shift_div_l; [apply two_power_pos|].
      rewrite two_power_succ.
      pose proof (two_power_pos e0) as HP.
      assert (Hc' : 2 ^ 53 * 2 ^ e0 <= x / 2 ^ e0 * 2 ^ e0)
        by (apply Qmult_le_compat_r; [done | lra]).
      assert (E : x / 2 ^ e0 * 2 ^ e0 == x) by (field; lra).
      rewrite E in Hc'.
      change (2 ^ 53) with (2 * 2 ^ 52) in Hc'. lra.
    + apply Qle_shift_div_l; [apply two_power_pos|].
      rewrite <- Qpower_plus by done.
      replace (52 + e0)%Z
        with (Z.log2 (Qnum x) - Z.log2 (Z.pos (Qden x)) - 1)%Z by (subst e0; lia).
      destruct x as [n d]. apply log2_fraction.
      unfold Qlt in Hx. cbn in *. lia.
Qed.

(** the relative error of the rounding *)
Lemma double_error (x : Q) :
  0 < x -> 2 ^ (-1022) <= x ->
  x * (1 - unitRoundoff) <= double x <= x * (1 + unitRoundoff).
Proof.
  intros Hx Hnormal.
  pose proof (lastPlace_scaled x Hx Hnormal) as Hy.
  unfold double.
  destruct (Qnum x) as [|p|p] eqn:Hn;
    [destruct x; unfold Qlt in Hx; cbn in *; lia | |
     destruct x; unfold Qlt in Hx; cbn in *; lia].
  cbv zeta. set (P := 2 ^ lastPlace x) in *.
  assert (HP : 0 < P) by apply two_power_pos.
  pose proof (roundHalfEven_close (x / P)) as [Hlo Hhi].
  set (m := inject_Z (roundHalfEven (x / P))) in *.
  assert (HyP : x / P * P == x) by (field; lra).
  assert (H1 : (m - x / P) * P <= (1 # 2) * P)
    by (apply Qmult_le_compat_r; lra).
  assert (H2 : - (1 # 2) * P <= (m - x / P) * P)
    by (apply Qmult_le_compat_r; lra).
  assert (H3 : 2 ^ 52 * P <= x / P * P)
    by (apply Qmult_le_compat_r; lra).
  change (2 ^ 52) with 4503599627370496 in H3.
  unfold unitRoundoff.
  set (yP := x / P * P) in *.
  assert (E : (m - x / P) * P == m * P - yP) by (subst yP; ring).
  rewrite E in H1, H2. split; lra.
Qed.

Lemma double_0 (x : Q) : x == 0 -> double x = 0.
Proof.
  intros Hx. unfold double.
  assert (Qnum x = 0%Z) as ->; [|done].
  unfold Qeq in Hx. cbn in Hx. lia.
Qed.

Lemma double_nonneg (x : Q) : 0 <= x -> 0 <= double x.
Proof.
  intros Hx. unfold double.
  destruct (Qnum x) as [|p|p] eqn:Hn; [done| |].
  - cbv zeta. apply Qmult_le_0_compat; [|apply Qlt_le_weak, two_power_pos].
    change 0 with (inject_Z 0). rewrite <- Zle_Qle.
    pose proof (roundHalfEven_close (x / 2 ^ lastPlace x)) as [Hlo _].
    assert (Hpos : 0 <= x / 2 ^ lastPlace x).
    { apply Qle_shift_div_l; [apply two_power_pos | lra]. }
    assert (H : - (1) < inject_Z (roundHalfEven (x / 2 ^ lastPlace x))) by lra.
    change (- (1)) with (inject_Z (-1)) in H. rewrite <- Zlt_Qlt in H. lia.
  - destruct x as [n d]. unfold Qle in Hx. cbn in *. lia.
Qed.
End DoubleFacts.

(** ** The classifier *)

Lemma Qltb_lt (x y : Q) : PNGCompressor.Qltb x y = true <-> (x < y)%Q.
Proof.
  unfold PNGCompressor.Qltb. destruct (Qlt_le_dec x y) as [Hlt|Hle].
  - tauto.
  - split; [discriminate|]. intros Hlt. exfalso. apply (Qlt_not_le _ _ Hlt Hle).
Qed.

Section ClassifierFacts.
Import PNGCompressor.

Lemma lineartRule_test m :
  (Qltb (double 0.8) (blackWhiteRatio m)
   || Qltb (double 0.9) (double (blackWhiteRatio m + grayRatio m)))
  && Qltb (double 0.05) (edgeRatio m) = true <-> PNGCompressor.lineartRule m.
Proof.
  unfold lineartRule.
  rewrite andb_true_iff, orb_true_iff, !Qltb_lt. tauto.
Qed.

Lemma photographicRule_test m :
  Qltb (double 0.5) (colorRatio m) && Qltb (edgeRatio m) (double 0.1) = true
  <-> PNGCompressor.photographicRule m.
Proof. unfold photographicRule. rewrite andb_true_iff, !Qltb_lt. tauto. Qed.

Lemma graphicalRule_test m :
  Qltb (colorRatio m) (double 0.2) || Qltb (double 0.2) (edgeRatio m)
  || hasTransparency m = true
  <-> PNGCompressor.graphicalRule m.
Proof. unfold graphicalRule. rewrite !orb_true_iff, !Qltb_lt. tauto. Qed.

Lemma classifySample_table data sampleSize :
  classifySample data sampleSize = decisionTable (measuredRatios data sampleSize).
Proof. reflexivity. Qed.

Lemma decisionTable_cases m :
  (decisionTable m = lineart <-> PNGCompressor.lineartRule m)
  /\ (decisionTable m = photographic <-> ~ PNGCompressor.lineartRule m /\ PNGCompressor.photographicRule m)
  /\ (decisionTable m = graphical <->
      ~ PNGCompressor.lineartRule m /\ ~ PNGCompressor.photographicRule m /\ PNGCompressor.graphicalRule m)
  /\ (decisionTable m = mixed <->
      ~ PNGCompressor.lineartRule m /\ ~ PNGCompressor.photographicRule m /\ ~ PNGCompressor.graphicalRule m).
Proof.
  rewrite <- lineartRule_test, <- photographicRule_test, <- graphicalRule_test.
  unfold decisionTable, decisionRules, firstMatch.
  destruct ((Qltb (double 0.8) (blackWhiteRatio m)
             || Qltb (double 0.9) (double (blackWhiteRatio m + grayRatio m)))
            && Qltb (double 0.05) (edgeRatio m));
    destruct (Qltb (double 0.5) (colorRatio m) && Qltb (edgeRatio m) (double 0.1));
    destruct (Qltb (colorRatio m) (double 0.2) || Qltb (double 0.2) (edgeRatio m)
              || hasTransparency m);
    repeat split; intros; try discriminate; try tauto; intuition discriminate.
Qed.
End ClassifierFacts.

(** C2.  Classifier decision table.  For every sampled pixel buffer (of a
    sample of positive side), the kind that [analyzeImageType] computes is
    the result of the decision table on the ratios derived from the
    buffer: the first rule, in order, whose condition holds: lineart if
    (blackWhiteRatio > 0.8 or blackWhiteRatio + grayRatio > 0.9) and
    edgeRatio > 0.05; otherwise photographic if colorRatio > 0.5 and
    edgeRatio < 0.1; otherwise graphical if colorRatio < 0.2 or
    edgeRatio > 0.2 or hasTransparency; otherwise mixed.  The ratios, the
    sum and the thresholds are the doubles of the program. *)
Theorem classifier_decision_table (data : list Z) (sampleSize : nat) :
  (0 < sampleSize)%nat ->
  let m := PNGCompressor.measuredRatios data sampleSize in
  let kind := PNGCompressor.classifySample data sampleSize in
  kind = PNGCompressor.decisionTable m
  /\ (kind = PNGCompressor.lineart <-> PNGCompressor.lineartRule m)
  /\ (kind = PNGCompressor.photographic <-> ~ PNGCompressor.lineartRule m /\ PNGCompressor.photographicRule m)
  /\ (kind = PNGCompressor.graphical <->
      ~ PNGCompressor.lineartRule m /\ ~ PNGCompressor.photographicRule m /\ PNGCompressor.graphicalRule m)
  /\ (kind = PNGCompressor.mixed <->
      ~ PNGCompressor.lineartRule m /\ ~ PNGCompressor.photographicRule m /\ ~ PNGCompressor.graphicalRule m).
Proof.
  intros _ m kind. subst kind. rewrite classifySample_table. fold m.
  split; [reflexivity | apply decisionTable_cases].
Qed.

(** On a sample of 100 pixels of which 34 are black and 56 gray, the two
    ratios add up to nine tenths exactly, and to the double above 0.9 in
    the program: the sample is line art. *)
Lemma classifier_decision_table_witness :
  (0 < 10)%nat /\
  (PNGCompressor.blackWhiteRatio (PNGCompressor.derivedRatios ninetyPercent 10)
   + PNGCompressor.grayRatio (PNGCompressor.derivedRatios ninetyPercent 10)
   == 0.9)%Q /\
  PNGCompressor.classifySample ninetyPercent 10 = PNGCompressor.lineart /\
  PNGCompressor.lineartRule (PNGCompressor.measuredRatios ninetyPercent 10).
Proof.
  split; [lia|]. split; [by vm_compute|].
  destruct (classifier_decision_table ninetyPercent 10 ltac:(lia)) as (_ & Hline & _).
  assert (Hkind : PNGCompressor.classifySample ninetyPercent 10 = PNGCompressor.lineart)
    by (by vm_compute).
  split; [exact Hkind | by apply Hline].
Defined.

(** ** The size check *)

Section SizeCheckFacts.
Context `{Browser}.

Lemma fileToDataURL_ok file url :
  readAsDataURL (file_blob file) = Some url ->
  fileToDataURL file = ([EvReadDataURL], Ok url).
Proof. intros Hurl. unfold fileToDataURL. by rewrite Hurl. Qed.

(** C7.  SizeCheck passthrough.  For every file of a supported type
    (and, in the advanced PNG compressor, of at most 50MB) whose size is
    within the target and whose data URL can be read, [compress] returns
    the file object itself as the blob, with quality 1.0, and the only
    platform call it makes is the reading of the data URL: no image is
    loaded, nothing is classified, quantized or encoded, whatever the
    later stages are.  This holds in the simple JPEG compressor, the
    advanced PNG compressor and the simple PNG compressor. *)
Theorem size_check_passthrough (file : File) (url : DataUrl) :
  readAsDataURL (file_blob file) = Some url ->
  let unchanged : M CompressedImageResult :=
    ([EvReadDataURL],
     Ok {| blob := file_blob file; dataUrl := url; quality := 1.0%Q |}) in
  (includes JPEGCompressor.supportedTypes (file_type file) = true ->
   file_size file <= JPEGCompressor.TARGET_SIZE ->
   forall fuel, JPEGCompressor.compress fuel file = unchanged)
  /\ (includes PNGCompressorAdvanced.supportedTypes (file_type file) = true ->
      file_size file <= PNGCompressorAdvanced.MAX_SIZE ->
      forall options,
        file_size file <= PNGCompressorAdvanced.chosenTarget options ->
        forall init large down keep simple tiling,
          PNGCompressorAdvanced.compress init large down keep simple tiling
            file options = unchanged)
  /\ (includes PNGCompressor.supportedTypes (file_type file) = true ->
      file_size file <= PNGCompressor.TARGET_SIZE ->
      forall lineArt photo graphic hybrid,
        PNGCompressor.compress lineArt photo graphic hybrid file = unchanged).
Proof.
  intros Hurl unchanged. subst unchanged. split; [|split].
  - intros Htype Hsize fuel. unfold JPEGCompressor.compress.
    rewrite Htype. cbn [negb].
    destruct (Z.leb_spec (file_size file) JPEGCompressor.TARGET_SIZE); [|lia].
    by rewrite (fileToDataURL_ok _ _ Hurl).
  - intros Htype Hmax options Hsize init large down keep simple tiling.
    unfold PNGCompressorAdvanced.compress. rewrite Htype. cbn [negb].
    destruct (Z.ltb_spec PNGCompressorAdvanced.MAX_SIZE (file_size file)); [lia|].
    cbv zeta.
    destruct (Z.leb_spec (file_size file)
                (PNGCompressorAdvanced.chosenTarget options)); [|lia].
    by rewrite (fileToDataURL_ok _ _ Hurl).
  - intros Htype Hsize lineArt photo graphic hybrid.
    unfold PNGCompressor.compress. rewrite Htype. cbn [negb].
    destruct (Z.leb_spec (file_size file) PNGCompressor.TARGET_SIZE); [|lia].
    by rewrite (fileToDataURL_ok _ _ Hurl).
Qed.
End SizeCheckFacts.

Lemma size_check_passthrough_witness :
  @readAsDataURL pictureBrowser (file_blob smallJpeg) = Some tt /\
  (forall fuel,
     @JPEGCompressor.compress pictureBrowser fuel smallJpeg =
     ([EvReadDataURL],
      Ok (@Build_CompressedImageResult pictureBrowser (file_blob smallJpeg) tt 1.0%Q)))
  /\ (forall lineArt photo graphic hybrid,
     @PNGCompressor.compress pictureBrowser lineArt photo graphic hybrid smallPng =
     ([EvReadDataURL],
      Ok (@Build_CompressedImageResult pictureBrowser (file_blob smallPng) tt 1.0%Q))).
Proof.
  split; [reflexivity|]. split.
  - destruct (@size_check_passthrough pictureBrowser smallJpeg tt eq_refl)
      as (Hjpeg & _). apply Hjpeg; [reflexivity | by vm_compute].
  - destruct (@size_check_passthrough pictureBrowser smallPng tt eq_refl)
      as (_ & _ & Hpng). apply Hpng; [reflexivity | by vm_compute].
Defined.

(** ** Pixel buffers and loops over their pixels *)

Section PixelFacts.
Local Open Scope nat_scope.
Implicit Types (d : list Z) (p : Z * Z * Z * Z) (i j k n : nat).

Lemma write4_length d i p : length (write4 d i p) = length d.
Proof. destruct p as [[[r g] b] a]. unfold write4. by rewrite !length_insert. Qed.

Lemma write4_lookup_out d i p j :
  j < i \/ i + 4 <= j -> write4 d i p !!! j = d !!! j.
Proof.
  intros Hj. destruct p as [[[r g] b] a]. unfold write4.
  rewrite !list_lookup_total_insert_ne by lia. done.
Qed.

Lemma write4_pixel d k p :
  4 * k + 3 < length d -> pixelAt (write4 d (4 * k) p) k = p.
Proof.
  intros Hk. destruct p as [[[r g] b] a]. unfold write4, pixelAt.
  repeat f_equal.
  - rewrite !list_lookup_total_insert_ne by lia.
    rewrite list_lookup_total_insert_eq by lia. done.
  - rewrite !list_lookup_total_insert_ne by lia.
    rewrite list_lookup_total_insert_eq by (rewrite ?length_insert; lia). done.
  - rewrite !list_lookup_total_insert_ne by lia.
    rewrite list_lookup_total_insert_eq by (rewrite ?length_insert; lia). done.
  - rewrite list_lookup_total_insert_eq by (rewrite ?length_insert; lia). done.
Qed.

Lemma write4_other d k k' p :
  k' <> k -> pixelAt (write4 d (4 * k) p) k' = pixelAt d k'.
Proof.
  intros Hk. unfold pixelAt. rewrite !write4_lookup_out by lia. done.
Qed.

(** two buffers of [n] pixels with the same pixels are equal *)
Lemma pixels_ext d1 d2 n :
  length d1 = 4 * n -> length d2 = 4 * n ->
  (forall k, k < n -> pixelAt d1 k = pixelAt d2 k) -> d1 = d2.
Proof.
  intros H1 H2 Hpx. apply list_eq. intros j.
  destruct (decide (j < 4 * n)) as [Hj|Hj].
  - rewrite !list_lookup_lookup_total_lt by lia. f_equal.
    specialize (Hpx (j / 4) ltac:(apply Nat.Div0.div_lt_upper_bound; lia)).
    unfold pixelAt in Hpx. injection Hpx as Hr Hg Hb Ha.
    pose proof (Nat.div_mod_eq j 4) as Hdm.
    pose proof (Nat.mod_upper_bound j 4 ltac:(lia)) as Hlt.
    destruct (j mod 4) as [|[|[|[|?]]]] eqn:Hm; try lia.
    + by replace j with (4 * (j / 4)) by lia.
    + by replace j with (4 * (j / 4) + 1) by lia.
    + by replace j with (4 * (j / 4) + 2) by lia.
    + by replace j with (4 * (j / 4) + 3) by lia.
  - rewrite !lookup_ge_None_2 by lia. done.
Qed.

Lemma pixelOffsets_whole n :
  pixelOffsets (4 * n) = (fun k => 4 * k) <$> seq 0 n.
Proof.
  unfold pixelOffsets. f_equal. f_equal.
  replace (4 * n + 3) with (3 + n * 4) by lia.
  rewrite Nat.div_add by lia. done.
Qed.

(** A loop whose body, at the offset of pixel [k], rewrites that pixel
    by [F k] and leaves the others alone. *)
Section PixelLoop.
Variable step : list Z -> nat -> list Z.
Variable F : nat -> Z * Z * Z * Z -> Z * Z * Z * Z.
Hypothesis step_length : forall d i, length (step d i) = length d.
Hypothesis step_pixel : forall d k,
  4 * k + 3 < length d -> pixelAt (step d (4 * k)) k = F k (pixelAt d k).
Hypothesis step_other : forall d k k',
  k' <> k -> pixelAt (step d (4 * k)) k' = pixelAt d k'.

Lemma pixel_loop_length (offsets : list nat) : forall d,
  length (foldl step d offsets) = length d.
Proof using step_length.
  induction offsets as [|i offsets IH]; intros d; simpl; [done|].
  by rewrite IH.
Qed.

Lemma pixel_loop (ks : list nat) : forall d k,
  NoDup ks ->
  (forall k', k' ∈ ks -> 4 * k' + 3 < length d) ->
  pixelAt (foldl step d ((fun k => 4 * k) <$> ks)) k =
  if decide (k ∈ ks) then F k (pixelAt d k) else pixelAt d k.
Proof using step_length step_pixel step_other.
  induction ks as [|k0 ks IH]; intros d k Hnd Hin.
  { cbn [fmap list_fmap foldl]. case_decide as Hc; [|done].
    by apply elem_of_nil in Hc. }
  cbn [fmap list_fmap foldl]. change (list_fmap nat nat ?f ?l) with (f <$> l).
  apply NoDup_cons in Hnd as [Hk0 Hnd].
  rewrite IH; [|done|].
  2: { intros k' Hk'. rewrite step_length. apply Hin. by right. }
  destruct (decide (k ∈ ks)) as [Hk|Hk]; destruct (decide (k ∈ k0 :: ks)) as [Hk'|Hk'].
  - rewrite step_other by (intros ->; done). done.
  - exfalso. apply Hk'. by right.
  - apply elem_of_cons in Hk' as [->|?]; [|done].
    apply step_pixel. apply Hin. by left.
  - apply step_other. intros ->. apply Hk'. by left.
Qed.

Lemma pixel_loop_whole d n k :
  length d = 4 * n -> k < n ->
  pixelAt (foldl step d (pixelOffsets (length d))) k = F k (pixelAt d k).
Proof using step_length step_pixel step_other.
  intros Hlen Hk. rewrite Hlen, pixelOffsets_whole.
  rewrite pixel_loop.
  - case_decide as Hc; [done|]. exfalso. apply Hc. apply elem_of_seq. lia.
  - apply NoDup_seq.
  - intros k' Hk'. apply elem_of_seq in Hk'. lia.
Qed.
End PixelLoop.
End PixelFacts.

(** ** The uniform colour reductions *)

Section QuantizeFacts.
Local Open Scope nat_scope.
Implicit Types (d : list Z) (p : Z * Z * Z * Z) (i j k n : nat).

Lemma quantize_idem (level v : Z) :
  quantize level (quantize level v) = quantize level v.
Proof.
  unfold quantize. destruct (decide (level = 0%Z)) as [->|Hne].
  - by rewrite !Z.mul_0_r.
  - by rewrite Z.div_mul.
Qed.

Lemma quantize_byte (level v : Z) :
  (0 < level)%Z -> byte v -> byte (quantize level v).
Proof.
  unfold byte, quantize. intros Hl Hv.
  pose proof (Z.mul_div_le v level Hl).
  pose proof (Z.div_pos v level ltac:(lia) Hl).
  nia.
Qed.

Lemma binarizeAlpha_cases (a : Z) :
  binarizeAlpha a = 0%Z \/ binarizeAlpha a = 255%Z.
Proof. unfold binarizeAlpha. destruct (a <? 128)%Z; auto. Qed.

(** *** [quantizePixel] *)

Lemma quantizePixel_eq level d i :
  PNGCompressor.quantizePixel level d i =
  if (d !!! (i + 3)%nat =? 0)%Z then d
  else write4 d i (quantize level (d !!! i), quantize level (d !!! (i + 1)),
                   quantize level (d !!! (i + 2)), binarizeAlpha (d !!! (i + 3))).
Proof.
  unfold PNGCompressor.quantizePixel, write4.
  destruct (d !!! (i + 3)%nat =? 0)%Z; [done|].
  rewrite !list_lookup_total_insert_ne by lia. done.
Qed.

Lemma quantizePixel_length level d i :
  length (PNGCompressor.quantizePixel level d i) = length d.
Proof.
  rewrite quantizePixel_eq. destruct (d !!! (i + 3)%nat =? 0)%Z; [done|].
  apply write4_length.
Qed.

Lemma quantizePixel_pixel level d k :
  4 * k + 3 < length d ->
  pixelAt (PNGCompressor.quantizePixel level d (4 * k)) k =
  PNGCompressor.quantizedPixel level (pixelAt d k).
Proof.
  intros Hk. rewrite quantizePixel_eq.
  unfold PNGCompressor.quantizedPixel, pixelAt at 2.
  destruct (d !!! (4 * k + 3)%nat =? 0)%Z; [done|].
  by apply write4_pixel.
Qed.

Lemma quantizePixel_other level d k k' :
  k' <> k ->
  pixelAt (PNGCompressor.quantizePixel level d (4 * k)) k' = pixelAt d k'.
Proof.
  intros Hk. rewrite quantizePixel_eq.
  destruct (d !!! (4 * k + 3)%nat =? 0)%Z; [done|]. by apply write4_other.
Qed.

Lemma reduceColorsWith_length level d :
  length (PNGCompressor.reduceColorsWith level d) = length d.
Proof.
  unfold PNGCompressor.reduceColorsWith. apply pixel_loop_length.
  apply quantizePixel_length.
Qed.

(** the pass, pixel by pixel *)
Lemma reduceColorsWith_pixel level d n k :
  length d = 4 * n -> k < n ->
  pixelAt (PNGCompressor.reduceColorsWith level d) k =
  PNGCompressor.quantizedPixel level (pixelAt d k).
Proof.
  intros Hlen Hk. unfold PNGCompressor.reduceColorsWith.
  apply (pixel_loop_whole _ (fun _ => PNGCompressor.quantizedPixel level))
    with (n := n); try done.
  - apply quantizePixel_length.
  - intros. by apply quantizePixel_pixel.
  - intros. by apply quantizePixel_other.
Qed.

Lemma quantizedPixel_idem level p :
  PNGCompressor.quantizedPixel level (PNGCompressor.quantizedPixel level p) =
  PNGCompressor.quantizedPixel level p.
Proof.
  destruct p as [[[r g] b] a]. unfold PNGCompressor.quantizedPixel.
  destruct (Z.eqb_spec a 0) as [->|Ha]; [done|].
  unfold binarizeAlpha. destruct (a <? 128)%Z; simpl; [done|].
  by rewrite !quantize_idem.
Qed.

Lemma reduceColorsWith_idem level d n :
  length d = 4 * n ->
  PNGCompressor.reduceColorsWith level (PNGCompressor.reduceColorsWith level d)
  = PNGCompressor.reduceColorsWith level d.
Proof.
  intros Hlen. apply (pixels_ext _ _ n).
  - by rewrite !reduceColorsWith_length.
  - by rewrite reduceColorsWith_length.
  - intros k Hk.
    rewrite (reduceColorsWith_pixel level _ n)
      by (done || by rewrite reduceColorsWith_length).
    rewrite (reduceColorsWith_pixel level d n) by done.
    apply quantizedPixel_idem.
Qed.

(** *** [optimizePixel] *)

Lemma optimizePixel_eq cp d i :
  PNGCompressorAdvanced.optimizePixel cp d i =
  write4 d i (PNGCompressorAdvanced.optimizedPixel cp
                (d !!! i, d !!! (i + 1), d !!! (i + 2), d !!! (i + 3))).
Proof.
  unfold PNGCompressorAdvanced.optimizePixel,
    PNGCompressorAdvanced.optimizedPixel, write4.
  destruct (d !!! (i + 3)%nat <? 128)%Z; [done|].
  rewrite !list_lookup_total_insert_ne by lia.
  apply list_eq. intros j.
  destruct (decide (j = i + 3)) as [->|?];
    [|destruct (decide (j = i + 2)) as [->|?];
      [|destruct (decide (j = i + 1)) as [->|?];
        [|destruct (decide (j = i)) as [->|?]]]];
    rewrite ?list_lookup_insert_ne by lia;
    rewrite ?list_lookup_insert; rewrite ?length_insert;
    repeat (case_decide; try lia); try done;
    rewrite ?list_lookup_insert_ne by lia; done.
Qed.

Lemma optimizePixel_length cp d i :
  length (PNGCompressorAdvanced.optimizePixel cp d i) = length d.
Proof. rewrite optimizePixel_eq. apply write4_length. Qed.

Lemma optimizePixel_pixel cp d k :
  4 * k + 3 < length d ->
  pixelAt (PNGCompressorAdvanced.optimizePixel cp d (4 * k)) k =
  PNGCompressorAdvanced.optimizedPixel cp (pixelAt d k).
Proof. intros Hk. rewrite optimizePixel_eq. by apply write4_pixel. Qed.

Lemma optimizePixel_other cp d k k' :
  k' <> k ->
  pixelAt (PNGCompressorAdvanced.optimizePixel cp d (4 * k)) k' = pixelAt d k'.
Proof. intros Hk. rewrite optimizePixel_eq. by apply write4_other. Qed.

Lemma optimizeColorsForPNG_length d w h :
  length (PNGCompressorAdvanced.optimizeColorsForPNG d w h) = length d.
Proof.
  unfold PNGCompressorAdvanced.optimizeColorsForPNG. apply pixel_loop_length.
  apply optimizePixel_length.
Qed.

Lemma optimizeColorsForPNG_pixel d w h n k :
  length d = 4 * n -> k < n ->
  pixelAt (PNGCompressorAdvanced.optimizeColorsForPNG d w h) k =
  PNGCompressorAdvanced.optimizedPixel
    (if (1000000 <? Z.of_nat w * Z.of_nat h)%Z then 16 else 8)%Z (pixelAt d k).
Proof.
  intros Hlen Hk. unfold PNGCompressorAdvanced.optimizeColorsForPNG.
  apply (pixel_loop_whole _ (fun _ => PNGCompressorAdvanced.optimizedPixel _))
    with (n := n); try done.
  - apply optimizePixel_length.
  - intros. by apply optimizePixel_pixel.
  - intros. by apply optimizePixel_other.
Qed.

Lemma optimizedPixel_idem cp p :
  PNGCompressorAdvanced.optimizedPixel cp (PNGCompressorAdvanced.optimizedPixel cp p)
  = PNGCompressorAdvanced.optimizedPixel cp p.
Proof.
  destruct p as [[[r g] b] a]. unfold PNGCompressorAdvanced.optimizedPixel.
  destruct (a <? 128)%Z; simpl; [done|]. by rewrite !quantize_idem.
Qed.

(** C9.  Idempotence of the floor-step quantization with alpha
    binarization.  On every pixel array (a whole number of RGBA pixels,
    each entry a byte), applying the graphical pass twice gives the same
    array as applying it once; likewise for [optimizeColorsForPNG] (at
    the same width and height), which also zeroes the colour of the
    pixels it makes transparent. *)
Theorem quantization_idempotent (data : list Z) (n : nat) :
  length data = 4 * n -> Forall byte data ->
  PNGCompressor.reduceColorsForGraphical (PNGCompressor.reduceColorsForGraphical data)
  = PNGCompressor.reduceColorsForGraphical data
  /\ forall width height,
      PNGCompressorAdvanced.optimizeColorsForPNG
        (PNGCompressorAdvanced.optimizeColorsForPNG data width height) width height
      = PNGCompressorAdvanced.optimizeColorsForPNG data width height.
Proof.
  intros Hlen _. split.
  - by apply (reduceColorsWith_idem _ _ n).
  - intros w h. apply (pixels_ext _ _ n).
    + by rewrite !optimizeColorsForPNG_length.
    + by rewrite optimizeColorsForPNG_length.
    + intros k Hk.
      rewrite (optimizeColorsForPNG_pixel _ w h n)
        by (done || by rewrite optimizeColorsForPNG_length).
      rewrite (optimizeColorsForPNG_pixel data w h n) by done.
      apply optimizedPixel_idem.
Qed.
End QuantizeFacts.

Lemma quantization_idempotent_witness :
  length twoPixels = (4 * 2)%nat /\ Forall byte twoPixels /\
  PNGCompressor.reduceColorsForGraphical twoPixels = [200; 96; 0; 255; 88; 40; 8; 0] /\
  PNGCompressor.reduceColorsForGraphical (PNGCompressor.reduceColorsForGraphical twoPixels)
  = PNGCompressor.reduceColorsForGraphical twoPixels.
Proof.
  assert (Hb : Forall byte twoPixels).
  { unfold twoPixels, byte. repeat constructor; lia. }
  split; [reflexivity|]. split; [exact Hb|]. split; [reflexivity|].
  apply (quantization_idempotent twoPixels 2 eq_refl Hb).
Defined.

(** ** The adaptive colour reduction *)

Section AdaptiveFacts.
Local Open Scope nat_scope.
Import PNGCompressor.
Implicit Types (d m : list Z) (i j k n w h x y : nat).

Lemma foldl_fmap_idx {A B C} (g : A -> C -> A) (f : B -> C) (l : list B) : forall a,
  foldl g a (f <$> l) = foldl (fun a b => g a (f b)) a l.
Proof. induction l as [|b l IH]; intros a; simpl; [done | apply IH]. Qed.

Lemma foldl_pointwise {A B} (f g : A -> B -> A) (l : list B) : forall a,
  (forall a b, f a b = g a b) -> foldl f a l = foldl g a l.
Proof.
  induction l as [|b l IH]; intros a Hfg; simpl; [done|].
  rewrite Hfg. by apply IH.
Qed.

(** a loop over the rows and the columns visits the cells in row-major
    order *)
Lemma foldl_rows {A} (g : A -> nat -> A) w h : forall a,
  foldl (fun a y => foldl (fun a x => g a (y * w + x)) a (seq 0 w)) a (seq 0 h)
  = foldl g a (seq 0 (h * w)).
Proof.
  induction h as [|h IH]; intros a; [done|].
  replace (seq 0 (S h * w)) with (seq 0 (h * w + w)) by (f_equal; lia).
  rewrite seq_S, foldl_app. cbn [foldl Nat.add]. rewrite IH.
  rewrite seq_app, foldl_app. cbn [Nat.add].
  assert (E : seq (h * w) w = Nat.add (h * w) <$> seq 0 w)
    by (rewrite fmap_add_seq; f_equal; lia).
  rewrite E, foldl_fmap_idx. done.
Qed.

Lemma bool_decide_split (P Q R : Prop)
    `{!Decision P, !Decision Q, !Decision R} :
  (P <-> Q \/ R) -> bool_decide P = bool_decide Q || bool_decide R.
Proof. intros HP. repeat case_bool_decide; cbn; tauto. Qed.

(** *** The edge map *)

Lemma detectEdge_eq d w m y x :
  detectEdge d w m y x =
  if opaqueAt d w y x then <[y * w + x := edgeMark d w y x]> m else m.
Proof.
  unfold detectEdge, opaqueAt, edgeMark, maxNeighbourDiff.
  by destruct (d !!! ((y * w + x) * 4 + 3)%nat <? 128)%Z.
Qed.

Lemma detectEdge_length d w m y x : length (detectEdge d w m y x) = length m.
Proof.
  rewrite detectEdge_eq. destruct (opaqueAt d w y x); [|done].
  apply length_insert.
Qed.

Lemma detect_row_length d w y xs : forall m,
  length (foldl (fun m x => detectEdge d w m y x) m xs) = length m.
Proof.
  induction xs as [|x xs IH]; intros m; simpl; [done|].
  by rewrite IH, detectEdge_length.
Qed.

Lemma detect_row d w y y0 x0 xs : forall m,
  x0 < w -> (forall x, x ∈ xs -> x < w) -> y0 * w + x0 < length m ->
  foldl (fun m x => detectEdge d w m y x) m xs !!! (y0 * w + x0) =
  if bool_decide (y = y0 /\ x0 ∈ xs) && opaqueAt d w y0 x0
  then edgeMark d w y0 x0 else m !!! (y0 * w + x0).
Proof.
  induction xs as [|x xs IH]; intros m Hx0 Hxs Hlen.
  { cbn [foldl]. rewrite bool_decide_eq_false_2; [done|].
    intros [_ Hin]. by apply elem_of_nil in Hin. }
  cbn [foldl]. rewrite IH; [|done| |].
  2: { intros x' Hx'. apply Hxs. by right. }
  2: { by rewrite detectEdge_length. }
  assert (Hxw : x < w) by (apply Hxs; by left).
  rewrite detectEdge_eq.
  assert (Hhead :
    (if opaqueAt d w y x then <[y * w + x := edgeMark d w y x]> m else m)
      !!! (y0 * w + x0)
    = if bool_decide (y = y0 /\ x = x0) && opaqueAt d w y0 x0
      then edgeMark d w y0 x0 else m !!! (y0 * w + x0)).
  { destruct (decide (y = y0 /\ x = x0)) as [Hq|Hq].
    - rewrite bool_decide_eq_true_2 by done.
      destruct Hq as [-> ->]. cbn [andb].
      destruct (opaqueAt d w y0 x0); [|done].
      by rewrite list_lookup_total_insert_eq.
    - rewrite bool_decide_eq_false_2 by done.
      cbn [andb]. destruct (opaqueAt d w y x); [|done].
      apply list_lookup_total_insert_ne. intros Heq. apply Hq.
      assert (y = y0) by nia. subst. split; [done | lia]. }
  rewrite Hhead.
  assert (Hsplit : bool_decide (y = y0 /\ x0 ∈ x :: xs)
                   = bool_decide (y = y0 /\ x = x0)
                     || bool_decide (y = y0 /\ x0 ∈ xs)).
  { apply bool_decide_split. split.
    - intros [-> [->|?]%elem_of_cons]; auto.
    - intros [[-> ->]|[-> ?]]; (split; [done|]); apply elem_of_cons; auto. }
  rewrite Hsplit.
  by destruct (bool_decide (y = y0 /\ x = x0)),
    (bool_decide (y = y0 /\ x0 ∈ xs)), (opaqueAt d w y0 x0).
Qed.

Lemma detect_rows_length d w xs ys : forall m,
  length (foldl (fun m y => foldl (fun m x => detectEdge d w m y x) m xs) m ys)
  = length m.
Proof.
  induction ys as [|y ys IH]; intros m; simpl; [done|].
  by rewrite IH, detect_row_length.
Qed.

Lemma detect_rows d w y0 x0 xs ys : forall m,
  x0 < w -> (forall x, x ∈ xs -> x < w) -> y0 * w + x0 < length m ->
  foldl (fun m y => foldl (fun m x => detectEdge d w m y x) m xs) m ys
    !!! (y0 * w + x0) =
  if bool_decide (y0 ∈ ys /\ x0 ∈ xs) && opaqueAt d w y0 x0
  then edgeMark d w y0 x0 else m !!! (y0 * w + x0).
Proof.
  induction ys as [|y ys IH]; intros m Hx0 Hxs Hlen.
  { cbn [foldl]. rewrite bool_decide_eq_false_2; [done|].
    intros [Hin _]. by apply elem_of_nil in Hin. }
  cbn [foldl]. rewrite IH; [|done|done|by rewrite detect_row_length].
  rewrite detect_row by done.
  assert (Hsplit : bool_decide (y0 ∈ y :: ys /\ x0 ∈ xs)
                   = bool_decide (y = y0 /\ x0 ∈ xs)
                     || bool_decide (y0 ∈ ys /\ x0 ∈ xs)).
  { apply bool_decide_split. split.
    - intros [[->|?]%elem_of_cons ?]; auto.
    - intros [[-> ?]|[? ?]]; (split; [|done]); apply elem_of_cons; auto. }
  rewrite Hsplit.
  by destruct (bool_decide (y = y0 /\ x0 ∈ xs)),
    (bool_decide (y0 ∈ ys /\ x0 ∈ xs)), (opaqueAt d w y0 x0).
Qed.

Lemma detectEdges_length d w h : length (detectEdges d w h) = w * h.
Proof. unfold detectEdges. by rewrite detect_rows_length, length_replicate. Qed.

(** the edge map holds 255 at the pixels flagged by [isEdge], 0 elsewhere *)
Lemma detectEdges_lookup d w h y x :
  y < h -> x < w ->
  detectEdges d w h !!! (y * w + x) = if isEdge d w h y x then 255%Z else 0%Z.
Proof.
  intros Hy Hx. unfold detectEdges.
  assert (Hk : y * w + x < w * h) by nia.
  rewrite detect_rows; [|done| |by rewrite length_replicate].
  2: { intros x' Hx'. apply elem_of_seq in Hx'. lia. }
  rewrite lookup_total_replicate_2 by done.
  unfold isEdge, interior, edgeMark.
  destruct (bool_decide (y ∈ seq 1 (h - 2) /\ x ∈ seq 1 (w - 2))) eqn:Hin.
  - apply bool_decide_eq_true in Hin as [Hyin Hxin].
    apply elem_of_seq in Hyin, Hxin.
    rewrite (proj2 (Nat.leb_le 1 y)), (proj2 (Nat.ltb_lt y (h - 1))),
      (proj2 (Nat.leb_le 1 x)), (proj2 (Nat.ltb_lt x (w - 1))) by lia.
    cbn [andb]. destruct (opaqueAt d w y x); cbn [andb]; [|done].
    by destruct (100 <? maxNeighbourDiff d w y x)%Z.
  - apply bool_decide_eq_false in Hin. cbn [andb].
    destruct (Nat.leb_spec 1 y); cbn [andb]; [|done].
    destruct (Nat.ltb_spec y (h - 1)); cbn [andb]; [|done].
    destruct (Nat.leb_spec 1 x); cbn [andb]; [|done].
    destruct (Nat.ltb_spec x (w - 1)); cbn [andb]; [|done].
    exfalso. apply Hin. split; apply elem_of_seq; lia.
Qed.

(** *** The quantization loop *)

Lemma adaptPixel_adaptAt m w d y x :
  adaptPixel m w d y x = adaptAt m d (4 * (y * w + x)).
Proof.
  unfold adaptPixel, adaptAt, quantizePixel.
  replace (4 * (y * w + x)) with ((y * w + x) * 4) by lia.
  rewrite Nat.div_mul by lia. done.
Qed.

Lemma reduceColorsAdaptive_eq d w h :
  length d = 4 * (w * h) ->
  reduceColorsAdaptive d w h =
  foldl (adaptAt (detectEdges d w h)) d (pixelOffsets (length d)).
Proof.
  intros Hlen. unfold reduceColorsAdaptive. cbv zeta.
  set (m := detectEdges d w h).
  rewrite Hlen, pixelOffsets_whole, foldl_fmap_idx.
  replace (w * h) with (h * w) by lia.
  rewrite <- (foldl_rows (fun d k => adaptAt m d (4 * k))).
  apply foldl_pointwise. intros d1 y. apply foldl_pointwise. intros d2 x.
  apply adaptPixel_adaptAt.
Qed.
End AdaptiveFacts.

Section AdaptiveClaim.
Local Open Scope nat_scope.
Import PNGCompressor.

Lemma adaptAt_length m d i : length (adaptAt m d i) = length d.
Proof. apply quantizePixel_length. Qed.

Lemma adaptAt_pixel m d k :
  4 * k + 3 < length d ->
  pixelAt (adaptAt m d (4 * k)) k =
  quantizedPixel (if (0 <? m !!! k)%Z then 2 else 6)%Z (pixelAt d k).
Proof.
  intros Hk. unfold adaptAt.
  replace (4 * k / 4) with k by (rewrite Nat.mul_comm, Nat.div_mul; lia).
  by apply quantizePixel_pixel.
Qed.

Lemma adaptAt_other m d k k' :
  k' <> k -> pixelAt (adaptAt m d (4 * k)) k' = pixelAt d k'.
Proof. intros Hk. by apply quantizePixel_other. Qed.

Lemma reduceColorsAdaptive_length d w h :
  length d = 4 * (w * h) -> length (reduceColorsAdaptive d w h) = length d.
Proof.
  intros Hlen. rewrite reduceColorsAdaptive_eq by done.
  apply pixel_loop_length. apply adaptAt_length.
Qed.

Lemma reduceColorsAdaptive_pixel d w h y x :
  length d = 4 * (w * h) -> y < h -> x < w ->
  pixelAt (reduceColorsAdaptive d w h) (y * w + x) =
  quantizedPixel (if isEdge d w h y x then 2 else 6)%Z (pixelAt d (y * w + x)).
Proof.
  intros Hlen Hy Hx. rewrite reduceColorsAdaptive_eq by done.
  rewrite (pixel_loop_whole _
             (fun k => quantizedPixel
                         (if (0 <? detectEdges d w h !!! k)%Z then 2 else 6)%Z))
    with (n := w * h); try done.
  - rewrite detectEdges_lookup by done. by destruct (isEdge d w h y x).
  - apply adaptAt_length.
  - intros. by apply adaptAt_pixel.
  - intros. by apply adaptAt_other.
  - nia.
Qed.

Lemma isEdge_spec d w h y x :
  isEdge d w h y x = true <->
  (1 <= y /\ y < h - 1 /\ 1 <= x /\ x < w - 1)
  /\ (128 <= d !!! ((y * w + x) * 4 + 3)%nat)%Z
  /\ (100 < maxNeighbourDiff d w y x)%Z.
Proof.
  unfold isEdge, interior, opaqueAt.
  rewrite !andb_true_iff, negb_true_iff, Z.ltb_ge, Z.ltb_lt,
    !Nat.leb_le, !Nat.ltb_lt.
  tauto.
Qed.

(** C6 (as amended).  Mixed/adaptive quantization.  On every buffer of
    [width * height] RGBA pixels: a pixel is flagged as an edge exactly
    when it is not on the border of the image, its alpha is at least
    128 and the largest summed channel difference with one of its four
    neighbours exceeds 100; the edge map holds 255 for flagged pixels and
    0 for the others; a pixel whose alpha is not 0 has its R, G, B
    channels floored to a multiple of 2 when it is flagged and of 6 when
    it is not, and a pixel whose alpha is 0 is left as it is; the alpha
    of every pixel is binarized at 128. *)
Theorem adaptive_quantization (data : list Z) (width height : nat) :
  length data = 4 * (width * height) -> Forall byte data ->
  forall y x, y < height -> x < width ->
    let k := y * width + x in
    let out := reduceColorsAdaptive data width height in
    let edge := isEdge data width height y x in
    let level := (if edge then 2 else 6)%Z in
    (edge = true <->
       (1 <= y /\ y < height - 1 /\ 1 <= x /\ x < width - 1)
       /\ (128 <= (pixelAt data k).2)%Z
       /\ (100 < maxNeighbourDiff data width y x)%Z)
    /\ detectEdges data width height !!! k = (if edge then 255 else 0)%Z
    /\ pixelAt out k =
       (let '(r, g, b, a) := pixelAt data k in
        if (a =? 0)%Z then (r, g, b, a)
        else (quantize level r, quantize level g, quantize level b,
              binarizeAlpha a))
    /\ (pixelAt out k).2 = binarizeAlpha (pixelAt data k).2.
Proof.
  intros Hlen _ y x Hy Hx k out edge level.
  assert (Hpx : pixelAt out k = quantizedPixel level (pixelAt data k))
    by (by apply reduceColorsAdaptive_pixel).
  split; [|split; [|split]].
  - subst edge. rewrite isEdge_spec. unfold pixelAt. cbn [snd].
    replace (4 * k + 3) with ((y * width + x) * 4 + 3) by (subst k; lia).
    done.
  - by apply detectEdges_lookup.
  - rewrite Hpx. unfold quantizedPixel.
    by destruct (pixelAt data k) as [[[r g] b] a].
  - rewrite Hpx. unfold quantizedPixel.
    destruct (pixelAt data k) as [[[r g] b] a]. cbn [snd].
    destruct (Z.eqb_spec a 0) as [->|?]; done.
Qed.
End AdaptiveClaim.

(** C6, counterexample to the claim as stated.  In a row of two opaque
    pixels, black and white, the white pixel differs from its neighbour by
    765 > 100, yet it is on the border, is not flagged, and is quantized
    with step 6 (252) instead of step 2 (254).  And a fully transparent
    pixel of colour (7, 7, 7) keeps its colour instead of being quantized
    with step 6. *)
Lemma adaptive_quantization_border_and_transparent :
  pixelAt blackWhiteRow 1 = (255, 255, 255, 255) /\
  colorDiff blackWhiteRow 4 0 = 765 /\
  PNGCompressor.detectEdges blackWhiteRow 2 1 = [0; 0] /\
  pixelAt (PNGCompressor.reduceColorsAdaptive blackWhiteRow 2 1) 1
    = (252, 252, 252, 255) /\
  quantize 2 255 = 254 /\
  PNGCompressor.reduceColorsAdaptive ghostPixel 1 1 = [7; 7; 7; 0] /\
  quantize 6 7 = 6.
Proof. repeat split. Qed.

Lemma adaptive_quantization_witness :
  length whiteCentre = (4 * (3 * 3))%nat /\ Forall byte whiteCentre /\
  PNGCompressor.isEdge whiteCentre 3 3 1 1 = true /\
  pixelAt (PNGCompressor.reduceColorsAdaptive whiteCentre 3 3) 4 = (254, 254, 254, 255).
Proof.
  assert (Hb : Forall byte whiteCentre).
  { unfold whiteCentre, byte. repeat constructor; lia. }
  split; [reflexivity|]. split; [exact Hb|]. split; [reflexivity|].
  destruct (adaptive_quantization whiteCentre 3 3 eq_refl Hb 1%nat 1%nat
              ltac:(lia) ltac:(lia)) as (_ & _ & Hpx & _).
  exact Hpx.
Defined.

(** ** Tiles *)

Section TileFacts.
Local Open Scope nat_scope.
Implicit Types (w h T x y px py n m : nat) (t : Tile).

Lemma ceilDiv_lt a b x : 0 < b -> x < ceilDiv a b <-> x * b < a.
Proof.
  intros Hb. unfold ceilDiv.
  pose proof (Nat.div_mod_eq a b) as Hdm.
  pose proof (Nat.mod_upper_bound a b ltac:(lia)) as Hm.
  destruct (Nat.eqb_spec (a mod b) 0) as [H0|H0]; split; intros Hx; nia.
Qed.

Lemma list_bind_assoc {A B C} (f : A -> list B) (g : B -> list C) (l : list A) :
  (l ≫= f) ≫= g = l ≫= (fun a => f a ≫= g).
Proof.
  induction l as [|a l IH]; [done|].
  by rewrite !bind_cons, bind_app, IH.
Qed.

(** *** The batches of [compressWithTiling] cover the columns in order *)

Lemma batchColumns_eq n m :
  JPEGCompressorAdvanced.batchColumns n (m * 4)
  = seq (Nat.min n (4 * m)) (Nat.min n (4 * S m) - Nat.min n (4 * m)).
Proof.
  unfold JPEGCompressorAdvanced.batchColumns, JPEGCompressorAdvanced.BATCH_SIZE.
  cbn [seq fmap list_fmap].
  rewrite !filter_cons, filter_nil.
  repeat case_decide; try lia.
  - replace (Nat.min n (4 * S m) - Nat.min n (4 * m)) with 4 by lia.
    replace (Nat.min n (4 * m)) with (m * 4) by lia.
    cbn [seq]. repeat f_equal; lia.
  - replace (Nat.min n (4 * S m) - Nat.min n (4 * m)) with 3 by lia.
    replace (Nat.min n (4 * m)) with (m * 4) by lia.
    cbn [seq]. repeat f_equal; lia.
  - replace (Nat.min n (4 * S m) - Nat.min n (4 * m)) with 2 by lia.
    replace (Nat.min n (4 * m)) with (m * 4) by lia.
    cbn [seq]. repeat f_equal; lia.
  - replace (Nat.min n (4 * S m) - Nat.min n (4 * m)) with 1 by lia.
    replace (Nat.min n (4 * m)) with (m * 4) by lia.
    cbn [seq]. repeat f_equal; lia.
  - replace (Nat.min n (4 * S m) - Nat.min n (4 * m)) with 0 by lia.
    done.
Qed.

Lemma batches_prefix n m :
  ((fun b => b * JPEGCompressorAdvanced.BATCH_SIZE) <$> seq 0 m)
    ≫= JPEGCompressorAdvanced.batchColumns n
  = seq 0 (Nat.min n (4 * m)).
Proof.
  induction m as [|m IH].
  { replace (Nat.min n (4 * 0)) with 0 by lia. done. }
  rewrite seq_S, fmap_app, bind_app, IH. cbn [fmap list_fmap Nat.add].
  rewrite bind_singleton.
  change (m * JPEGCompressorAdvanced.BATCH_SIZE) with (m * 4).
  rewrite batchColumns_eq.
  replace (Nat.min n (4 * S m))
    with (Nat.min n (4 * m) + (Nat.min n (4 * S m) - Nat.min n (4 * m))) at 2
    by lia.
  by rewrite seq_app.
Qed.

Lemma batches_all n :
  ((fun b => b * JPEGCompressorAdvanced.BATCH_SIZE)
     <$> seq 0 (ceilDiv n JPEGCompressorAdvanced.BATCH_SIZE))
    ≫= JPEGCompressorAdvanced.batchColumns n
  = seq 0 n.
Proof.
  rewrite batches_prefix. f_equal.
  assert (n <= 4 * ceilDiv n JPEGCompressorAdvanced.BATCH_SIZE); [|lia].
  unfold ceilDiv, JPEGCompressorAdvanced.BATCH_SIZE.
  pose proof (Nat.div_mod_eq n 4). pose proof (Nat.mod_upper_bound n 4 ltac:(lia)).
  destruct (Nat.eqb_spec (n mod 4) 0); lia.
Qed.

(** the batched order of [compressWithTiling] is the row-major order *)
Lemma tilingOrder_simpleTiles w h T :
  JPEGCompressorAdvanced.tilingOrder w h T = PNGCompressorAdvanced.simpleTiles w h T.
Proof.
  unfold JPEGCompressorAdvanced.tilingOrder, PNGCompressorAdvanced.simpleTiles.
  cbv zeta. apply list_bind_ext; [|done]. intros y.
  rewrite <- (batches_all (ceilDiv w T)) at 1.
  by rewrite list_bind_assoc.
Qed.
End TileFacts.

(** ** The tile partition *)

Section FilterFacts.
Context {A B : Type} (P : B -> Prop) `{!forall b, Decision (P b)}.

Lemma filter_bind_none (g : A -> list B) (l : list A) :
  (forall a, a ∈ l -> filter P (g a) = []) -> filter P (l ≫= g) = [].
Proof.
  induction l as [|a l IH]; intros Hl; [done|].
  rewrite bind_cons, filter_app, Hl by (by left).
  apply IH. intros a' Ha'. apply Hl. by right.
Qed.

(** when the rows of one index only pass the filter, the filter of the
    whole is the filter of that row *)
Lemma filter_bind_unique `{!EqDecision A} (g : A -> list B) (l : list A) (b : A) :
  NoDup l -> b ∈ l ->
  (forall a, a ∈ l -> a <> b -> filter P (g a) = []) ->
  filter P (l ≫= g) = filter P (g b).
Proof.
  induction l as [|a l IH]; intros Hnd Hb Hl; [by apply elem_of_nil in Hb|].
  apply NoDup_cons in Hnd as [Ha Hnd].
  rewrite bind_cons, filter_app.
  destruct (decide (a = b)) as [->|Hne].
  - rewrite filter_bind_none; [by rewrite app_nil_r|].
    intros a Hin. apply Hl; [by right | by intros ->].
  - rewrite Hl by (done || by left). simpl.
    apply IH; [done| |].
    + apply elem_of_cons in Hb as [->|Hb]; done.
    + intros a' Ha' Hne'. apply Hl; [by right | done].
Qed.

(** two elements at different places pass the filter: it keeps two *)
Lemma filter_two (l : list B) (i j : nat) (x y : B) :
  (i < j)%nat -> l !! i = Some x -> l !! j = Some y -> P x -> P y ->
  (2 <= length (filter P l))%nat.
Proof.
  intros Hij Hi Hj Hx Hy.
  rewrite <- (take_drop_middle l i x Hi), filter_app, filter_cons_True by done.
  rewrite length_app. cbn [length].
  assert (Hin : y ∈ filter P (drop (S i) l)).
  { apply list_elem_of_filter. split; [done|].
    apply (list_elem_of_lookup_2 _ (j - S i)%nat).
    rewrite lookup_drop. by replace (S i + (j - S i))%nat with j by lia. }
  destruct (filter P (drop (S i) l)); [by apply elem_of_nil in Hin|].
  cbn [length]. lia.
Qed.
End FilterFacts.

Section TileCover.
Local Open Scope nat_scope.
Variables (w h T : nat).
Hypothesis HT : 0 < T.

Lemma inTile_tileAt x y px py :
  px < w -> py < h ->
  inTile (tileAt w h T x y) px py <-> x = px / T /\ y = py / T.
Proof using HT.
  intros Hpx Hpy. unfold inTile, tileAt. cbn.
  pose proof (Nat.div_mod_eq px T). pose proof (Nat.mod_upper_bound px T ltac:(lia)).
  pose proof (Nat.div_mod_eq py T). pose proof (Nat.mod_upper_bound py T ltac:(lia)).
  split.
  - intros [[Hx1 Hx2] [Hy1 Hy2]]. split; nia.
  - intros [-> ->]. nia.
Qed.

(** a tile of the grid lies inside the image *)
Lemma tileAt_inside x y px py :
  x < ceilDiv w T -> y < ceilDiv h T ->
  inTile (tileAt w h T x y) px py -> px < w /\ py < h.
Proof using HT.
  intros Hx Hy. apply ceilDiv_lt in Hx, Hy; try done.
  unfold inTile, tileAt. cbn. lia.
Qed.

Lemma simpleTiles_elem t :
  t ∈ PNGCompressorAdvanced.simpleTiles w h T <->
  exists x y, x < ceilDiv w T /\ y < ceilDiv h T /\ t = tileAt w h T x y.
Proof.
  clear HT. unfold PNGCompressorAdvanced.simpleTiles. cbv zeta.
  rewrite list_elem_of_bind. split.
  - intros (y & Hin & Hy). apply list_elem_of_bind in Hin as (x & Hin & Hx).
    apply list_elem_of_singleton in Hin. apply elem_of_seq in Hx, Hy.
    exists x, y. repeat split; [lia | lia | done].
  - intros (x & y & Hx & Hy & ->). exists y. split; [|apply elem_of_seq; lia].
    apply list_elem_of_bind. exists x. split; [by left | apply elem_of_seq; lia].
Qed.

(** exactly one tile of the grid holds a given pixel of the image *)
Lemma simpleTiles_cover px py :
  px < w -> py < h ->
  filter (fun t => inTile t px py) (PNGCompressorAdvanced.simpleTiles w h T)
  = [tileAt w h T (px / T) (py / T)].
Proof using HT.
  intros Hpx Hpy. unfold PNGCompressorAdvanced.simpleTiles. cbv zeta.
  pose proof (Nat.div_mod_eq px T). pose proof (Nat.div_mod_eq py T).
  rewrite (filter_bind_unique _ _ _ (py / T)).
  - rewrite (filter_bind_unique _ _ _ (px / T)).
    + rewrite filter_cons_True; [done|]. by apply inTile_tileAt.
    + apply NoDup_seq.
    + apply elem_of_seq. split; [lia|]. cbn. apply ceilDiv_lt; [done | nia].
    + intros x _ Hne. rewrite filter_cons_False; [done|].
      rewrite inTile_tileAt by done. tauto.
  - apply NoDup_seq.
  - apply elem_of_seq. split; [lia|]. cbn. apply ceilDiv_lt; [done | nia].
  - intros y _ Hne. apply filter_bind_none. intros x _.
    rewrite filter_cons_False; [done|]. rewrite inTile_tileAt by done. tauto.
Qed.
End TileCover.

(** ** Cutting tiles out of a canvas and writing them back *)

Section CanvasFacts.
Local Open Scope nat_scope.
Context {P : Type}.
Variable blank : P.
Implicit Types (canvas source data : list P) (t : Tile).

Lemma putImageData_length w canvas t data :
  length (putImageData blank w canvas t data) = length canvas.
Proof. unfold putImageData. apply length_imap. Qed.

Lemma putImageData_nth w canvas t data k :
  k < length canvas ->
  nth k (putImageData blank w canvas t data) blank =
  if decide (inTile t (k mod w) (k / w))
  then nth ((k / w - tile_y t) * tile_width t + (k mod w - tile_x t)) data blank
  else nth k canvas blank.
Proof.
  intros Hk. unfold putImageData.
  destruct (lookup_lt_is_Some_2 canvas k Hk) as [old Hold].
  rewrite (nth_lookup_Some canvas k blank old Hold).
  apply nth_lookup_Some. rewrite list_lookup_imap, Hold. cbn.
  by destruct (decide (inTile t (k mod w) (k / w))).
Qed.

Lemma getImageData_nth w source t j i :
  i < tile_width t -> j < tile_height t -> tile_x t + i < w ->
  nth (j * tile_width t + i) (getImageData blank w source t) blank =
  nth ((tile_y t + j) * w + (tile_x t + i)) source blank.
Proof.
  intros Hi Hj Hw. unfold getImageData.
  rewrite nth_lookup, list_lookup_fmap, lookup_seq_lt by nia.
  cbn [fmap option_fmap option_map default Nat.add].
  rewrite <- (Nat.div_unique (j * tile_width t + i) (tile_width t) j i) by lia.
  rewrite <- (Nat.mod_unique (j * tile_width t + i) (tile_width t) j i) by lia.
  by destruct (Nat.ltb_spec (tile_x t + i) w); [|lia].
Qed.

(** a tile cut out of [source] and written onto [canvas] brings the
    pixels of [source] to the cells of the tile, and only there *)
Lemma put_get_nth w source canvas t k :
  0 < w -> k < length canvas ->
  nth k (putImageData blank w canvas t (getImageData blank w source t)) blank =
  if decide (inTile t (k mod w) (k / w))
  then nth k source blank else nth k canvas blank.
Proof.
  intros Hw Hk. rewrite putImageData_nth by done.
  destruct (decide (inTile t (k mod w) (k / w))) as [Hin|]; [|done].
  destruct Hin as [[Hx1 Hx2] [Hy1 Hy2]].
  pose proof (Nat.mod_upper_bound k w ltac:(lia)).
  rewrite getImageData_nth by lia.
  f_equal. pose proof (Nat.div_mod_eq k w). nia.
Qed.

Lemma writeTiles_length w pieces : forall canvas,
  length (writeTiles blank w canvas pieces) = length canvas.
Proof.
  induction pieces as [|piece pieces IH]; intros canvas; [done|].
  cbn [writeTiles foldl]. unfold writeTiles in IH.
  by rewrite IH, putImageData_length.
Qed.

(** after the pieces are written, a cell holds the pixel of [source] if
    some piece covers it, and what it held before otherwise *)
Lemma writeTiles_nth w source pieces : forall canvas k,
  0 < w -> k < length canvas ->
  Forall (fun piece => piece.2 = getImageData blank w source piece.1) pieces ->
  nth k (writeTiles blank w canvas pieces) blank =
  if decide (Exists (fun piece => inTile piece.1 (k mod w) (k / w)) pieces)
  then nth k source blank else nth k canvas blank.
Proof.
  induction pieces as [|piece pieces IH]; intros canvas k Hw Hk Hcut.
  { cbn. destruct (decide (Exists _ [])) as [Hex|]; [|done].
    by apply Exists_nil in Hex. }
  apply Forall_cons in Hcut as [Hpiece Hcut].
  cbn [writeTiles foldl]. unfold writeTiles in IH.
  rewrite IH by (done || by rewrite putImageData_length).
  rewrite Hpiece, put_get_nth by done.
  destruct (decide (Exists _ pieces)) as [Hex|Hex];
    destruct (decide (Exists _ (piece :: pieces))) as [Hex'|Hex']; try done.
  - exfalso. apply Hex'. by right.
  - apply Exists_cons in Hex' as [Hhere|?]; [|done].
    by rewrite decide_True.
  - rewrite decide_False; [done|]. intros Hin. apply Hex'. by left.
Qed.
End CanvasFacts.

Section Reassembly.
Local Open Scope nat_scope.
Context {P : Type}.
Variable blank : P.
Variables (w h T : nat).
Hypothesis HT : 0 < T.

(** writing the tiles of [source] in any order onto any canvas of the
    same size gives [source] *)
Lemma writeTiles_all (source canvas : list P) (pieces : list (Tile * list P)) :
  length source = w * h -> length canvas = w * h ->
  pieces ≡ₚ cutTiles blank w source (PNGCompressorAdvanced.simpleTiles w h T) ->
  writeTiles blank w canvas pieces = source.
Proof using HT.
  intros Hsrc Hcanvas Hperm.
  apply (nth_ext _ _ blank blank).
  { by rewrite writeTiles_length, Hsrc, Hcanvas. }
  intros k Hk. rewrite writeTiles_length, Hcanvas in Hk.
  assert (Hw : 0 < w) by nia.
  rewrite (writeTiles_nth _ _ source); [|done|lia|].
  2: { rewrite Hperm. unfold cutTiles. apply Forall_fmap, Forall_forall.
       by intros t _. }
  rewrite decide_True; [done|].
  rewrite Hperm. apply Exists_exists.
  pose proof (Nat.mod_upper_bound k w ltac:(lia)) as Hpx.
  assert (Hpy : k / w < h) by (apply Nat.Div0.div_lt_upper_bound; lia).
  pose proof (simpleTiles_cover w h T HT _ _ Hpx Hpy) as Hcover.
  set (t := tileAt w h T (k mod w / T) (k / w / T)) in *.
  assert (Hin : t ∈ filter (fun t => inTile t (k mod w) (k / w))
                    (PNGCompressorAdvanced.simpleTiles w h T))
    by (rewrite Hcover; by left).
  apply list_elem_of_filter in Hin as [Hin Ht].
  exists (t, getImageData blank w source t). split; [|done].
  unfold cutTiles.
  by apply (list_elem_of_fmap_2 (fun t0 => (t0, getImageData blank w source t0))).
Qed.

(** tiles taken out, left as they are, and put back: nothing changes *)
Lemma processTiles_identity (canvas : list P) (tiles : list Tile) :
  0 < w ->
  processTiles blank (fun _ _ data => data) w canvas tiles = canvas.
Proof using Type.
  intros Hw. clear HT. revert canvas.
  induction tiles as [|t tiles IH]; intros canvas; [done|].
  cbn [processTiles foldl]. unfold processTiles in IH.
  cbv zeta.
  replace (putImageData blank w canvas t (getImageData blank w canvas t))
    with canvas; [apply IH|].
  apply (nth_ext _ _ blank blank).
  { by rewrite putImageData_length. }
  intros k Hk. rewrite put_get_nth by done.
  by destruct (decide (inTile t (k mod w) (k / w))).
Qed.
End Reassembly.

(** X28.  The grid of tiles of compressWithSimpleTiling and
    compressWithTiling.  For an image of width [w] and height [h] and a
    tile edge [T > 0], the tiles of the grid ([ceil(w/T)] by [ceil(h/T)],
    the tile of column [x] and row [y] at [(x*T, y*T)] with size
    [(min(T, w - x*T), min(T, h - y*T))], in the order of
    [compressWithSimpleTiling], which is also the batched order of
    [compressWithTiling]) lie inside the image, every pixel of the image
    lies in exactly one of them, and two tiles at different places of the
    list share no pixel.  Consequently pieces that hold, each, the
    rectangle of its own tile of a buffer reproduce the buffer when they
    are written back in any order, onto any canvas of that size; and
    taking each tile out and putting it back unchanged, one tile after
    the other as [compressWithSimpleTiling] does, leaves the canvas as it
    was. *)
Theorem tile_partition_exact_cover {P : Type} (blank : P) (w h T : nat) :
  (0 < T)%nat ->
  let tiles := PNGCompressorAdvanced.simpleTiles w h T in
  JPEGCompressorAdvanced.tilingOrder w h T = tiles
  /\ (forall t px py, t ∈ tiles -> inTile t px py -> (px < w)%nat /\ (py < h)%nat)
  /\ (forall px py, (px < w)%nat -> (py < h)%nat ->
        length (filter (fun t => inTile t px py) tiles) = 1%nat)
  /\ (forall i j t1 t2 px py, i <> j ->
        tiles !! i = Some t1 -> tiles !! j = Some t2 ->
        ~ (inTile t1 px py /\ inTile t2 px py))
  /\ (forall (source canvas : list P) pieces,
        length source = (w * h)%nat -> length canvas = (w * h)%nat ->
        pieces ≡ₚ cutTiles blank w source tiles ->
        writeTiles blank w canvas pieces = source)
  /\ (forall (canvas : list P),
        length canvas = (w * h)%nat ->
        processTiles blank (fun _ _ data => data) w canvas tiles = canvas).
Proof.
  intros HT tiles. subst tiles.
  assert (Hinside : forall t px py,
             t ∈ PNGCompressorAdvanced.simpleTiles w h T ->
             inTile t px py -> (px < w)%nat /\ (py < h)%nat).
  { intros t px py Hin Ht. apply simpleTiles_elem in Hin as (x & y & Hx & Hy & ->).
    by eapply tileAt_inside. }
  split; [apply tilingOrder_simpleTiles|].
  split; [exact Hinside|].
  split; [intros px py Hpx Hpy; by rewrite simpleTiles_cover|].
  split.
  { intros i j t1 t2 px py Hij H1 H2 [Hin1 Hin2].
    destruct (Hinside t1 px py) as [Hpx Hpy];
      [by eapply list_elem_of_lookup_2 | done |].
    pose proof (simpleTiles_cover w h T HT _ _ Hpx Hpy) as Hcover.
    assert (2 <= length (filter (fun t => inTile t px py)
                           (PNGCompressorAdvanced.simpleTiles w h T)))%nat.
    { destruct (decide (i < j)%nat).
      - by eapply (filter_two _ _ i j t1 t2).
      - eapply (filter_two _ _ j i t2 t1); try done. lia. }
    rewrite Hcover in *. cbn in *. lia. }
  split; [intros; by eapply writeTiles_all|].
  intros canvas Hlen.
  destruct (decide (0 < w)%nat) as [Hw|Hw]; [by apply processTiles_identity|].
  assert (w = 0)%nat as -> by lia.
  destruct canvas; [|done].
  unfold processTiles. clear. 
  induction (PNGCompressorAdvanced.simpleTiles 0 h T) as [|t l IH]; [done|].
  cbn [foldl]. exact IH.
Qed.

Lemma tile_partition_exact_cover_witness :
  (0 < 2)%nat /\
  PNGCompressorAdvanced.simpleTiles 3 2 2
  = [ {| tile_x := 0; tile_y := 0; tile_width := 2; tile_height := 2 |};
      {| tile_x := 2; tile_y := 0; tile_width := 1; tile_height := 2 |} ] /\
  writeTiles 0%nat 3 blankCanvas
    (reverse (cutTiles 0%nat 3 numbered (PNGCompressorAdvanced.simpleTiles 3 2 2)))
  = numbered.
Proof.
  split; [lia|]. split; [reflexivity|].
  destruct (tile_partition_exact_cover 0%nat 3 2 2 ltac:(lia))
    as (_ & _ & _ & _ & Hwrite & _).
  apply Hwrite; [reflexivity | reflexivity |].
  apply reverse_Permutation.
Defined.

(** ** The worker pool *)

Section WorkerPoolFacts.
Import PNGCompressorAdvanced.
Local Open Scope nat_scope.
Implicit Types (pool : list PooledWorker) (w : PooledWorker) (t : Task).

Lemma busyIn_cons pool w id :
  busyIn (w :: pool) id =
  if decide (worker_id w = id) then busy w else busyIn pool id.
Proof.
  unfold busyIn. cbn. destruct (decide (worker_id w = id)); [done|].
  by destruct (list_find _ pool) as [[i w']|].
Qed.

Lemma takeIdle_busy now pool w pool' :
  takeIdle now pool = Some (w, pool') -> busyIn pool' (worker_id w) = true.
Proof.
  revert w pool'. induction pool as [|w0 pool IH]; intros w pool' Htake; [done|].
  cbn in Htake. destruct (busy w0) eqn:Hbusy.
  - destruct (takeIdle now pool) as [[got rest]|] eqn:Hrest; [|done].
    injection Htake as <- <-. rewrite busyIn_cons.
    destruct (decide (worker_id w0 = worker_id got)); [done | by apply IH].
  - injection Htake as <- <-. rewrite busyIn_cons. cbn.
    by rewrite decide_True.
Qed.

Lemma takeIdle_none now pool :
  takeIdle now pool = None -> Forall (fun w => busy w = true) pool.
Proof.
  induction pool as [|w0 pool IH]; intros Htake; [constructor|].
  cbn in Htake. destruct (busy w0) eqn:Hbusy; [|done].
  destruct (takeIdle now pool) as [[got rest]|]; [done|].
  constructor; [done | by apply IH].
Qed.

Lemma busyIn_app_new pool w :
  Forall (fun w => busy w = true) pool -> busy w = true ->
  busyIn (pool ++ [w]) (worker_id w) = true.
Proof.
  intros Hall Hw. induction Hall as [|w0 pool Hw0 Hall IH]; cbn [app].
  - rewrite busyIn_cons. by rewrite decide_True.
  - rewrite busyIn_cons. by destruct (decide (worker_id w0 = worker_id w)).
Qed.

(** the worker that [getWorker] hands out is busy in the pool *)
Lemma getWorker_busy maxWorkers now created pool w pool' :
  getWorker maxWorkers now created pool = Acquired w pool' ->
  busyIn pool' (worker_id w) = true.
Proof.
  unfold getWorker. destruct (takeIdle now pool) as [[got rest]|] eqn:Htake.
  - intros [= <- <-]. by eapply takeIdle_busy.
  - destruct (length pool <? maxWorkers); [|done].
    destruct created; [|done]. intros [= <- <-].
    apply busyIn_app_new; [by eapply takeIdle_none | done].
Qed.
End WorkerPoolFacts.

(** C8, the code at the failing input.  With a pool of two idle workers,
    [compressWithPngEncoder] and [compressWithQualityPreservation] acquire
    worker 0; when the toBlob callback then receives null, the promise is
    rejected, no further event of the task can occur (the timer is
    cleared, nothing was posted to the worker), and worker 0 is still
    marked busy in the pool. *)
Theorem null_blob_leaves_worker_busy :
  exists w pool,
    PNGCompressorAdvanced.getWorker 4 7 true idlePool
      = PNGCompressorAdvanced.Acquired w pool /\
    PNGCompressorAdvanced.worker_id w = 0%nat /\
    (exists t,
       PNGCompressorAdvanced.pngEncoderStep 8
         (pool, PNGCompressorAdvanced.pngEncoderTask w)
         PNGCompressorAdvanced.BlobNull = Some (pool, t) /\
       PNGCompressorAdvanced.promise t = PNGCompressorAdvanced.Rejected /\
       (forall now ev, PNGCompressorAdvanced.pngEncoderStep now (pool, t) ev = None) /\
       PNGCompressorAdvanced.busyIn pool 0 = true) /\
    (exists t,
       PNGCompressorAdvanced.qualityPreservationStep 8
         (pool, PNGCompressorAdvanced.qualityPreservationTask w)
         PNGCompressorAdvanced.BlobNull = Some (pool, t) /\
       PNGCompressorAdvanced.promise t = PNGCompressorAdvanced.Rejected /\
       (forall now ev,
          PNGCompressorAdvanced.qualityPreservationStep now (pool, t) ev = None) /\
       PNGCompressorAdvanced.busyIn pool 0 = true).
Proof.
  eexists _, _. split; [reflexivity|]. split; [reflexivity|]. split.
  - eexists. split; [reflexivity|]. split; [reflexivity|].
    split; [by intros now []|reflexivity].
  - eexists. split; [reflexivity|]. split; [reflexivity|].
    split; [by intros now []|reflexivity].
Qed.

(** ** How close to the best quality the searches come *)

Section SimpleSearchTightness.
Import JPEGCompressor.
Context `{Browser}.
Variables (prec : Q) (target : Z) (canvas : Canvas) (lo hi : Q).
Hypothesis Hmono : monotone canvas.

Local Abbreviation next := (next target canvas).
Local Abbreviation tight := (tight target canvas lo hi).

Lemma next_tight st b :
  toBlob Jpeg canvas (midQuality st) = Some b ->
  tight st -> tight (next st b).
Proof using Hmono.
  unfold JPEGCompressor.tight, JPEGCompressor.next.
  intros Hb (Hfit & Hnone & Hsome).
  destruct (Z.leb_spec (blob_size b) target) as [Hle|Hgt]; simpl.
  - split; [exact Hfit|]. split; [done|reflexivity].
  - split; [|split; [exact Hnone | exact Hsome]].
    intros q (bq & Hbq & Hq) Hhi.
    destruct (Qlt_le_dec (midQuality st) q) as [Hlt|Hge]; [|exact Hge].
    pose proof (Hmono _ _ _ _ (Qlt_le_weak _ _ Hlt) Hb Hbq). lia.
Qed.

Lemma searchLoop_tight fuel : forall st st',
  tight st ->
  outcome (searchLoop prec target canvas fuel st) = Ok st' ->
  tight st' /\ (maxQuality st' - minQuality st' <= prec)%Q.
Proof using Hmono.
  induction fuel as [|fuel IH]; intros st st' Hst Hrun;
    destruct (Qlt_le_dec prec (maxQuality st - minQuality st)) as [Hlt|Hle].
  - by rewrite JPEGCompressorFacts.searchLoop_out_of_fuel in Hrun.
  - rewrite JPEGCompressorFacts.searchLoop_exit in Hrun by done.
    injection Hrun as <-. done.
  - rewrite JPEGCompressorFacts.searchLoop_step in Hrun by done.
    destruct (toBlob Jpeg canvas (midQuality st)) as [b|] eqn:Hb; [|done].
    eapply IH; [|exact Hrun]. by apply next_tight.
  - rewrite JPEGCompressorFacts.searchLoop_exit in Hrun by done.
    injection Hrun as <-. done.
Qed.
End SimpleSearchTightness.

Section SimpleSearchNearOptimal.
Context `{Browser}.
Variable canvas : Canvas.

Lemma simple_initial_tight :
  JPEGCompressor.tight JPEGCompressor.TARGET_SIZE canvas
    JPEGCompressor.MIN_QUALITY JPEGCompressor.MAX_QUALITY
    JPEGCompressor.initialState.
Proof. split; [by intros q _ Hq|]. split; [done|]. by intros []. Qed.

(** X1.  JPEGCompressor.compress, the search: when the encoded size is
    weakly monotonic in the quality, the quality of every result is within
    QUALITY_PRECISION (0.01) of every quality up to MAX_QUALITY whose
    encoding is within the target: the search loses at most one hundredth
    against the best quality that fits. *)
Theorem simple_search_near_optimal fuel r q :
  monotone canvas ->
  outcome (JPEGCompressor.search fuel canvas) = Ok r ->
  fits canvas JPEGCompressor.TARGET_SIZE q ->
  (q <= JPEGCompressor.MAX_QUALITY)%Q ->
  (q <= quality r + JPEGCompressor.QUALITY_PRECISION)%Q.
Proof.
  intros Hmono Hrun Hfit Hq.
  destruct (outcome (JPEGCompressor.searchLoop JPEGCompressor.QUALITY_PRECISION
                       JPEGCompressor.TARGET_SIZE canvas fuel
                       JPEGCompressor.initialState)) as [st|e] eqn:Hloop.
  2: { unfold JPEGCompressor.search in Hrun.
       by rewrite outcome_bind, Hloop in Hrun. }
  rewrite (simple_search_after _ _ _ Hloop) in Hrun.
  destruct (searchLoop_tight _ _ _ _ _ Hmono _ _ _ simple_initial_tight Hloop)
    as ((Hbelow & Hnone & Hsome) & Hwidth).
  specialize (Hbelow q Hfit Hq).
  assert (Hgoal : (q <= JPEGCompressor.minQuality st + JPEGCompressor.QUALITY_PRECISION)%Q)
    by lra.
  destruct (JPEGCompressor.best st) as [[b url]|] eqn:Hbest.
  - injection Hrun as <-. cbn [quality]. by rewrite Hsome.
  - destruct (toBlob Jpeg canvas JPEGCompressor.MIN_QUALITY) as [b|]; [|done].
    destruct (blob_size b <=? JPEGCompressor.TARGET_SIZE); [|done].
    injection Hrun as <-. cbn [quality]. by rewrite <- Hnone.
Qed.
End SimpleSearchNearOptimal.

Lemma simple_search_near_optimal_witness :
  exists r,
    outcome (@JPEGCompressor.search pictureBrowser 7 ramp) = Ok r /\
    (0.5 <= quality r + JPEGCompressor.QUALITY_PRECISION)%Q.
Proof.
  eexists. split; [by vm_compute|].
  apply (@simple_search_near_optimal pictureBrowser ramp 7).
  - exact ramp_monotone.
  - by vm_compute.
  - exists (100000, ramp). split; [reflexivity | by vm_compute].
  - discriminate.
Defined.

(** ** The platform calls of JPEGCompressor.compress *)

Section SimpleSearchCalls.
Context `{Browser}.

(** an encoder call is a JPEG encoding at a quality between [lo] and [hi] *)
Local Abbreviation encodeWithin lo hi :=
  (fun ev => match ev with
             | EvEncode m q => m = Jpeg /\ (lo <= q)%Q /\ (q <= hi)%Q
             | _ => True
             end).







End SimpleSearchCalls.


(** ** How close the advanced search comes *)

Section AdvancedSearchTightness.
Import JPEGCompressorAdvanced.
Context `{Browser}.
Variables (prec : Q) (maxIter : nat) (target : Z) (canvas : Canvas) (lo hi : Q).
Hypothesis Hmono : monotone canvas.

Local Abbreviation next := (next target canvas).
Local Abbreviation tight := (tight target canvas lo hi).
Local Abbreviation loop := (searchLoop prec maxIter target canvas).
Local Abbreviation continues := (continues prec maxIter).

Lemma adv_next_tight st b :
  toBlob Jpeg canvas (midQuality st) = Some b ->
  tight st -> tight (next st b).
Proof using Hmono.
  unfold JPEGCompressorAdvanced.tight, JPEGCompressorAdvanced.next.
  intros Hb (Hfit & Hnone & Hsome).
  destruct (Z.leb_spec (blob_size b) target) as [Hle|Hgt]; simpl.
  - split; [exact Hfit|]. split; [done|reflexivity].
  - split; [|split; [exact Hnone | exact Hsome]].
    intros q (bq & Hbq & Hq) Hhi.
    destruct (Qlt_le_dec (midQuality st) q) as [Hlt|Hge]; [|exact Hge].
    pose proof (Hmono _ _ _ _ (Qlt_le_weak _ _ Hlt) Hb Hbq). lia.
Qed.

Lemma adv_next_halved st b : halved lo hi st -> halved lo hi (next st b).
Proof.
  unfold halved. intros Hst.
  assert (Hw : (maxQuality (next st b) - minQuality (next st b)
                == (maxQuality st - minQuality st) / 2)%Q).
  { unfold JPEGCompressorAdvanced.next, midQuality.
    destruct (blob_size b <=? target); simpl; apply half_width. }
  rewrite Hw, JPEGCompressorAdvancedFacts.adv_next_iteration, pow2_succ_Q.
  rewrite <- Hst. field.
Qed.

(** where the loop stops: its condition fails, or the early exit applies *)
Lemma adv_loop_tight fuel : forall st st',
  tight st -> halved lo hi st -> within lo hi st ->
  outcome (loop fuel st) = Ok st' ->
  tight st' /\ halved lo hi st' /\ within lo hi st' /\
  (~ continues st' \/ goodEnough maxIter st' = true).
Proof using Hmono.
  induction fuel as [|fuel IH]; intros st st' Hst Hhalf Hin Hrun;
    destruct (JPEGCompressorAdvancedFacts.continues_dec prec maxIter st) as [Hc|Hc];
    try (rewrite JPEGCompressorAdvancedFacts.adv_loop_exit in Hrun by done;
         injection Hrun as <-; tauto).
  - by rewrite JPEGCompressorAdvancedFacts.adv_loop_out_of_fuel in Hrun.
  - rewrite JPEGCompressorAdvancedFacts.adv_loop_step in Hrun by done.
    destruct (toBlob Jpeg canvas (midQuality st)) as [b|] eqn:Hb; [|done].
    pose proof (adv_next_tight _ _ Hb Hst).
    pose proof (adv_next_halved _ b Hhalf).
    pose proof (JPEGCompressorAdvancedFacts.adv_next_within target canvas _ _ _ b Hin).
    destruct (goodEnough maxIter (next st b)) eqn:Hgood.
    + injection Hrun as <-. tauto.
    + by eapply IH.
Qed.
End AdvancedSearchTightness.

Section AdvancedSearchNearOptimal.
Context `{Browser}.
Variable progressiveEncode : Canvas -> Z -> option CompressedImageResult.
Variable canvas : Canvas.

Lemma advanced_initial_tight target :
  JPEGCompressorAdvanced.tight target canvas
    JPEGCompressorAdvanced.MIN_QUALITY JPEGCompressorAdvanced.MAX_QUALITY
    JPEGCompressorAdvanced.initialState.
Proof. split; [by intros q _ Hq|]. split; [done|]. by intros []. Qed.

Lemma advanced_initial_halved :
  JPEGCompressorAdvanced.halved
    JPEGCompressorAdvanced.MIN_QUALITY JPEGCompressorAdvanced.MAX_QUALITY
    JPEGCompressorAdvanced.initialState.
Proof. reflexivity. Qed.

(** after eight halvings the interval [0.1, 0.95] is narrower than 0.03 *)
Lemma halved_narrow st :
  JPEGCompressorAdvanced.halved
    JPEGCompressorAdvanced.MIN_QUALITY JPEGCompressorAdvanced.MAX_QUALITY st ->
  JPEGCompressorAdvanced.within
    JPEGCompressorAdvanced.MIN_QUALITY JPEGCompressorAdvanced.MAX_QUALITY st ->
  (8 <= JPEGCompressorAdvanced.iteration st)%nat ->
  (JPEGCompressorAdvanced.maxQuality st - JPEGCompressorAdvanced.minQuality st
   < 0.03)%Q.
Proof.
  unfold JPEGCompressorAdvanced.halved. intros Hhalf (_ & Hle & _) Hit.
  set (w := (JPEGCompressorAdvanced.maxQuality st
             - JPEGCompressorAdvanced.minQuality st)%Q) in *.
  assert (Hw : (0 <= w)%Q) by (unfold w; lra).
  assert (Hp : (256 <= inject_Z (2 ^ Z.of_nat (JPEGCompressorAdvanced.iteration st)))%Q).
  { change 256%Q with (inject_Z (2 ^ 8)). rewrite <- Zle_Qle.
    apply Z.pow_le_mono_r; lia. }
  set (p := inject_Z (2 ^ Z.of_nat (JPEGCompressorAdvanced.iteration st))) in *.
  assert (Hmul : (w * 256 <= w * p)%Q).
  { rewrite !(Qmult_comm w). by apply Qmult_le_compat_r. }
  rewrite Hhalf in Hmul.
  change (JPEGCompressorAdvanced.MAX_QUALITY - JPEGCompressorAdvanced.MIN_QUALITY)%Q
    with (0.95 - 0.1)%Q in Hmul.
  lra.
Qed.

(** X3.  JPEGCompressorAdvanced.findOptimalQuality: when the encoded size
    is weakly monotonic in the quality, the quality of the result is less
    than 0.03 below every quality of [MIN_QUALITY, MAX_QUALITY] whose
    encoding is within the target: the early exit of the loop costs at
    most three hundredths against the best quality that fits. *)
Theorem advanced_search_near_optimal target r q :
  monotone canvas ->
  outcome (JPEGCompressorAdvanced.findOptimalQuality progressiveEncode canvas target)
    = Ok r ->
  fits canvas target q ->
  (JPEGCompressorAdvanced.MIN_QUALITY <= q)%Q ->
  (q <= JPEGCompressorAdvanced.MAX_QUALITY)%Q ->
  (q < quality r + 0.03)%Q.
Proof.
  intros Hmono Hrun Hfit Hlo Hhi.
  destruct (toBlob Jpeg canvas JPEGCompressorAdvanced.MAX_QUALITY) as [bmax|] eqn:Hmax;
    [|by rewrite advanced_search_max_fails in Hrun].
  destruct (Z_le_gt_dec (blob_size bmax) target) as [Hle|Hgt].
  { rewrite (advanced_search_at_max _ _ _ _ Hmax Hle) in Hrun.
    injection Hrun as <-. cbn [quality].
    change JPEGCompressorAdvanced.MAX_QUALITY with 0.95%Q in *. lra. }
  assert (Hbig : target < blob_size bmax) by lia.
  destruct (outcome (JPEGCompressorAdvanced.searchLoop
                       JPEGCompressorAdvanced.QUALITY_PRECISION
                       JPEGCompressorAdvanced.maxIterations target canvas
                       JPEGCompressorAdvanced.maxIterations
                       JPEGCompressorAdvanced.initialState))
    as [st|e] eqn:Hloop.
  2: { by rewrite (advanced_loop_error _ _ _ _ _ Hmax Hbig Hloop) in Hrun. }
  rewrite (advanced_search_after _ _ _ _ _ Hmax Hbig Hloop) in Hrun.
  destruct (adv_loop_tight _ _ _ _ _ _ Hmono _ _ _ (advanced_initial_tight target)
              advanced_initial_halved advanced_initial_within Hloop)
    as ((Hbelow & Hnone & Hsome) & Hhalf & Hin & Hstop).
  specialize (Hbelow q Hfit Hhi).
  assert (Hwidth : (JPEGCompressorAdvanced.maxQuality st
                    - JPEGCompressorAdvanced.minQuality st < 0.03)%Q).
  { destruct Hstop as [Hstop|Hgood].
    - unfold JPEGCompressorAdvanced.continues in Hstop.
      destruct (Qlt_le_dec JPEGCompressorAdvanced.QUALITY_PRECISION
                  (JPEGCompressorAdvanced.maxQuality st
                   - JPEGCompressorAdvanced.minQuality st)) as [Hlt|Hnarrow].
      + apply halved_narrow; [done | done |].
        rewrite maxIterations_eq in Hstop.
        destruct (le_lt_dec 9 (JPEGCompressorAdvanced.iteration st)); [lia | tauto].
      + change JPEGCompressorAdvanced.QUALITY_PRECISION with 0.01%Q in Hnarrow. lra.
    - unfold JPEGCompressorAdvanced.goodEnough in Hgood.
      destruct (JPEGCompressorAdvanced.best st); [|done].
      destruct (Qlt_le_dec _ _) as [Hlt|_]; [exact Hlt|].
      rewrite maxIterations_eq in Hgood. cbn [orb] in Hgood.
      apply Nat.leb_le in Hgood. apply halved_narrow; [done | done | simpl in Hgood; lia]. }
  assert (Hgoal : (q < JPEGCompressorAdvanced.minQuality st + 0.03)%Q) by lra.
  destruct (JPEGCompressorAdvanced.best st) as [[b url]|] eqn:Hbest.
  - injection Hrun as <-. cbn [quality]. by rewrite Hsome.
  - destruct (toBlob Jpeg canvas JPEGCompressorAdvanced.MIN_QUALITY) as [b|] eqn:Hb;
      [|done].
    cbv zeta in Hrun.
    destruct (Z.leb_spec (blob_size b) target) as [Hle|Hgt'].
    + injection Hrun as <-. cbn [quality]. by rewrite <- Hnone.
    + destruct Hfit as (bq & Hbq & Hq).
      pose proof (Hmono _ _ _ _ Hlo Hb Hbq). lia.
Qed.
End AdvancedSearchNearOptimal.

Lemma advanced_search_near_optimal_witness :
  exists r,
    outcome (@JPEGCompressorAdvanced.findOptimalQuality pictureBrowser
               noProgressive ramp 102400) = Ok r /\
    (0.5 < quality r + 0.03)%Q.
Proof.
  eexists. split; [by vm_compute|].
  apply (@advanced_search_near_optimal pictureBrowser noProgressive ramp 102400).
  - exact ramp_monotone.
  - by vm_compute.
  - exists (100000, ramp). split; [reflexivity | by vm_compute].
  - discriminate.
  - discriminate.
Defined.

(** ** The worker pool: acquiring and releasing *)

Section WorkerPoolProtocol.
Import PNGCompressorAdvanced.
Local Open Scope nat_scope.
Implicit Types (pool : list PooledWorker) (w : PooledWorker) (t : Task).

Lemma releaseWorker_first now id pool j w1 :
  list_find (fun w => worker_id w = id) pool = Some (j, w1) ->
  releaseWorker now id pool = <[j := idle now w1]> pool.
Proof.
  revert j. induction pool as [|w0 pool IH]; intros j Hfind; [done|].
  cbn in Hfind. cbn [releaseWorker].
  destruct (decide (worker_id w0 = id)) as [Hid|Hid].
  - injection Hfind as <- <-. by rewrite (proj2 (Nat.eqb_eq _ _) Hid).
  - rewrite (proj2 (Nat.eqb_neq _ _) Hid).
    destruct (list_find _ pool) as [[j' w']|] eqn:Hrest; [|done].
    injection Hfind as <- <-. cbn. f_equal. by apply IH.
Qed.

Lemma releaseWorker_absent now id pool :
  list_find (fun w => worker_id w = id) pool = None ->
  releaseWorker now id pool = pool.
Proof.
  induction pool as [|w0 pool IH]; intros Hfind; [done|].
  cbn in Hfind. cbn [releaseWorker].
  destruct (decide (worker_id w0 = id)) as [Hid|Hid]; [done|].
  rewrite (proj2 (Nat.eqb_neq _ _) Hid).
  destruct (list_find _ pool) as [[j' w']|] eqn:Hrest; [done|].
  f_equal. by apply IH.
Qed.

Lemma releaseWorker_length now id pool :
  length (releaseWorker now id pool) = length pool.
Proof.
  induction pool as [|w0 pool IH]; [done|]. cbn [releaseWorker].
  destruct (worker_id w0 =? id); cbn; [done | by rewrite IH].
Qed.

Lemma busyIn_release now id pool : busyIn (releaseWorker now id pool) id = false.
Proof.
  induction pool as [|w0 pool IH]; [done|]. cbn [releaseWorker].
  destruct (Nat.eqb_spec (worker_id w0) id) as [Hid|Hid]; rewrite busyIn_cons.
  - cbn. by rewrite decide_True.
  - by rewrite decide_False.
Qed.

Lemma busyIn_release_ne now id id' pool :
  id' <> id -> busyIn (releaseWorker now id pool) id' = busyIn pool id'.
Proof.
  intros Hne. induction pool as [|w0 pool IH]; [done|]. cbn [releaseWorker].
  destruct (Nat.eqb_spec (worker_id w0) id) as [Hid|Hid]; rewrite !busyIn_cons.
  - cbn. rewrite !decide_False by congruence. done.
  - by rewrite IH.
Qed.

(** [find((w) => !w.busy)]: the first idle worker, marked busy in place *)
Lemma takeIdle_spec now pool w pool' :
  takeIdle now pool = Some (w, pool') ->
  exists i w0, pool !! i = Some w0 /\ busy w0 = false /\
    w = {| worker_id := worker_id w0; busy := true; lastUsed := now |} /\
    pool' = <[i := w]> pool.
Proof.
  revert w pool'. induction pool as [|w0 pool IH]; intros w pool' Htake; [done|].
  cbn in Htake. destruct (busy w0) eqn:Hbusy.
  - destruct (takeIdle now pool) as [[got rest]|] eqn:Hrest; [|done].
    injection Htake as <- <-.
    destruct (IH _ _ eq_refl) as (i & w1 & Hi & Hb & Hw & Hp).
    exists (S i), w1. split; [done|]. split; [done|]. split; [done|].
    by rewrite Hp.
  - injection Htake as <- <-. by exists 0, w0.
Qed.

(** the worker that [takeIdle] takes is the first idle one: every worker
    before it is busy *)
Lemma takeIdle_first now pool w pool' :
  takeIdle now pool = Some (w, pool') ->
  exists i w0, pool !! i = Some w0 /\ busy w0 = false /\
    (forall j wj, j < i -> pool !! j = Some wj -> busy wj = true) /\
    w = {| worker_id := worker_id w0; busy := true; lastUsed := now |} /\
    pool' = <[i := w]> pool.
Proof.
  revert w pool'. induction pool as [|w0 pool IH]; intros w pool' Htake; [done|].
  cbn in Htake. destruct (busy w0) eqn:Hbusy.
  - destruct (takeIdle now pool) as [[got rest]|] eqn:Hrest; [|done].
    injection Htake as <- <-.
    destruct (IH _ _ eq_refl) as (i & w1 & Hi & Hb & Hfirst & Hw & Hp).
    exists (S i), w1. split; [done|]. split; [done|]. split.
    { intros [|j] wj Hj Hwj; [by injection Hwj as <-|].
      apply (Hfirst j); [lia | done]. }
    split; [done|]. by rewrite Hp.
  - injection Htake as <- <-. exists 0, w0.
    split; [done|]. split; [done|]. split; [intros; lia | done].
Qed.

(** X4.  PNGCompressorAdvanced.getWorker, for a call that no other call
    of getWorker overlaps: the pool is as the call finds it until the
    call returns.  With a pool within maxWorkers, the worker that is
    returned is marked busy and the pool stays within maxWorkers.  The
    worker is either the first idle worker of the pool (it was idle, and
    every worker before it is busy), marked busy in place, or, when every
    worker is busy and the pool has room, a new worker appended with the
    pool's length as id; the call polls only when every worker is busy
    and the pool is full. *)
Theorem getWorker_exclusive (maxWorkers now : nat) (created : bool) pool :
  length pool <= maxWorkers ->
  match getWorker maxWorkers now created pool with
  | Acquired w pool' =>
      busy w = true /\ length pool' <= maxWorkers /\
      ((exists i w0, pool !! i = Some w0 /\ busy w0 = false /\
                     (forall j wj, j < i -> pool !! j = Some wj ->
                                   busy wj = true) /\
                     w = {| worker_id := worker_id w0; busy := true;
                            lastUsed := now |} /\
                     pool' = <[i := w]> pool)
       \/ (Forall (fun w0 => busy w0 = true) pool /\ length pool < maxWorkers /\
           w = {| worker_id := length pool; busy := true; lastUsed := now |} /\
           pool' = pool ++ [w]))
  | CreationFailed =>
      Forall (fun w0 => busy w0 = true) pool /\ length pool < maxWorkers /\
      created = false
  | Polling pool' =>
      pool' = pool /\ Forall (fun w0 => busy w0 = true) pool /\
      length pool = maxWorkers
  end.
Proof.
  intros Hlen. unfold getWorker.
  destruct (takeIdle now pool) as [[w pool']|] eqn:Htake.
  - destruct (takeIdle_first _ _ _ _ Htake) as (i & w0 & Hi & Hb & Hfirst & -> & ->).
    split; [done|]. split; [by rewrite length_insert|].
    left. by exists i, w0.
  - pose proof (takeIdle_none _ _ Htake) as Hall.
    destruct (Nat.ltb_spec (length pool) maxWorkers) as [Hlt|Hge].
    + destruct created; [|done].
      split; [done|]. split; [rewrite length_app; simpl; lia|]. by right.
    + split; [done|]. split; [done | lia].
Qed.

Lemma ids_nodup_find pool i w :
  NoDup (worker_id <$> pool) -> pool !! i = Some w ->
  list_find (fun w' => worker_id w' = worker_id w) pool = Some (i, w).
Proof.
  intros Hnd Hi. apply list_find_Some. split; [done|]. split; [done|].
  intros j w' Hj Hlt Heq.
  assert (Hij : j = i); [|lia].
  eapply (NoDup_lookup (worker_id <$> pool)); [done| |].
  - by rewrite list_lookup_fmap, Hj.
  - rewrite list_lookup_fmap, Hi. cbn. by rewrite Heq.
Qed.

Lemma getWorker_member maxWorkers now created pool w pool' :
  getWorker maxWorkers now created pool = Acquired w pool' ->
  exists i, pool' !! i = Some w.
Proof.
  unfold getWorker. destruct (takeIdle now pool) as [[got rest]|] eqn:Htake.
  - intros [= <- <-].
    destruct (takeIdle_spec _ _ _ _ Htake) as (i & w0 & Hi & _ & _ & ->).
    exists i. apply list_lookup_insert_eq. by eapply lookup_lt_Some.
  - destruct (length pool <? maxWorkers); [|done].
    destruct created; [|done]. intros [= <- <-].
    exists (length pool). by rewrite lookup_app_r, Nat.sub_diag by lia.
Qed.

Lemma getWorker_ids maxWorkers now created pool w pool' :
  getWorker maxWorkers now created pool = Acquired w pool' ->
  worker_id <$> pool = seq 0 (length pool) ->
  worker_id <$> pool' = seq 0 (length pool').
Proof.
  unfold getWorker. destruct (takeIdle now pool) as [[got rest]|] eqn:Htake.
  - intros [= <- <-] Hids.
    destruct (takeIdle_spec _ _ _ _ Htake) as (i & w0 & Hi & _ & -> & ->).
    rewrite length_insert, <- Hids, list_fmap_insert. cbn.
    apply list_insert_id. by rewrite list_lookup_fmap, Hi.
  - destruct (length pool <? maxWorkers); [|done].
    destruct created; [|done]. intros [= <- <-] Hids.
    rewrite fmap_app, length_app, Hids. cbn. by rewrite seq_app.
Qed.

(** X5.  getWorker followed by releaseWorker: when the ids of the pool
    are distinct, releasing the worker that was acquired marks exactly
    that worker idle and leaves every other worker as it is.  Ids are
    distinct as long as they are the positions in the pool, which
    [getWorker] preserves. *)
Theorem release_after_acquire (maxWorkers now now' : nat) (created : bool)
    pool w pool' :
  getWorker maxWorkers now created pool = Acquired w pool' ->
  NoDup (worker_id <$> pool') ->
  (exists i, pool' !! i = Some w /\
     releaseWorker now' (worker_id w) pool' = <[i := idle now' w]> pool') /\
  busyIn (releaseWorker now' (worker_id w) pool') (worker_id w) = false /\
  (forall id, id <> worker_id w ->
     busyIn (releaseWorker now' (worker_id w) pool') id = busyIn pool' id) /\
  (worker_id <$> pool = seq 0 (length pool) ->
   worker_id <$> pool' = seq 0 (length pool')).
Proof.
  intros Hget Hnd. split; [|split; [|split]].
  - destruct (getWorker_member _ _ _ _ _ _ Hget) as [i Hi].
    exists i. split; [done|].
    apply releaseWorker_first. by apply ids_nodup_find.
  - apply busyIn_release.
  - intros id Hne. by apply busyIn_release_ne.
  - by eapply getWorker_ids.
Qed.

(** X6.  When a worker of the pool already carries the id that
    [getWorker] gives to a new worker (the pool's length; so after
    createWorker(0) failed and createWorker(1) succeeded), the new worker
    is acquired with an id that is not its own alone, and releasing it
    marks the older worker idle, busy as it is with another task, while
    the new worker stays busy. *)
Theorem release_reaches_wrong_worker (maxWorkers now now' : nat) pool j w1 :
  Forall (fun w0 => busy w0 = true) pool ->
  length pool < maxWorkers ->
  list_find (fun w0 => worker_id w0 = length pool) pool = Some (j, w1) ->
  exists w,
    getWorker maxWorkers now true pool = Acquired w (pool ++ [w]) /\
    busy w = true /\ busy w1 = true /\ j < length pool /\
    let released := releaseWorker now' (worker_id w) (pool ++ [w]) in
    released !! length pool = Some w /\
    released !! j = Some (idle now' w1).
Proof.
  intros Hall Hlt Hfind.
  apply list_find_Some in Hfind as Hj. destruct Hj as (Hj & Hid & _).
  pose proof (lookup_lt_Some _ _ _ Hj) as Hjlt.
  eexists. split.
  { unfold getWorker.
    destruct (takeIdle now pool) as [[got rest]|] eqn:Htake.
    - destruct (takeIdle_spec _ _ _ _ Htake) as (i & w0 & Hi & Hb & _).
      rewrite Forall_forall in Hall.
      rewrite (Hall w0) in Hb; [done|]. by eapply list_elem_of_lookup_2.
    - destruct (Nat.ltb_spec (length pool) maxWorkers); [done | lia]. }
  split; [done|]. split.
  { rewrite Forall_forall in Hall. apply Hall. by eapply list_elem_of_lookup_2. }
  split; [done|]. cbn [worker_id].
  rewrite (releaseWorker_first _ _ _ j w1).
  - split.
    + rewrite list_lookup_insert_ne by lia.
      by rewrite lookup_app_r, Nat.sub_diag by lia.
    + apply list_lookup_insert_eq. rewrite length_app. lia.
  - apply list_find_app_l. exact Hfind.
Qed.
End WorkerPoolProtocol.

Lemma getWorker_exclusive_witness :
  (length halfBusyPool <= 4)%nat /\
  exists w pool',
    PNGCompressorAdvanced.getWorker 4 7 true halfBusyPool
      = PNGCompressorAdvanced.Acquired w pool' /\
    PNGCompressorAdvanced.worker_id w = 1%nat /\
    PNGCompressorAdvanced.busy w = true /\ (length pool' <= 4)%nat.
Proof.
  split; [simpl; lia|].
  pose proof (getWorker_exclusive 4 7 true halfBusyPool ltac:(simpl; lia)) as Hx.
  destruct (PNGCompressorAdvanced.getWorker 4 7 true halfBusyPool)
    as [w pool'| |pool'] eqn:Hget; [|discriminate Hget|discriminate Hget].
  exists w, pool'. split; [reflexivity|]. destruct Hx as (Hb & Hl & _).
  split; [|by split]. by injection Hget as <- _.
Defined.

Lemma release_after_acquire_witness :
  exists w pool',
    PNGCompressorAdvanced.getWorker 4 7 true idlePool
      = PNGCompressorAdvanced.Acquired w pool' /\
    PNGCompressorAdvanced.busyIn
      (PNGCompressorAdvanced.releaseWorker 9 (PNGCompressorAdvanced.worker_id w) pool')
      (PNGCompressorAdvanced.worker_id w) = false.
Proof.
  eexists _, _. split; [reflexivity|].
  refine (proj1 (proj2 (release_after_acquire 4 7 9 true idlePool _ _ eq_refl _))).
  cbn. apply NoDup_cons. split; [|apply NoDup_singleton].
  by intros ?%list_elem_of_singleton.
Defined.

Lemma release_reaches_wrong_worker_witness :
  let pool := [ {| PNGCompressorAdvanced.worker_id := 1;
                   PNGCompressorAdvanced.busy := true;
                   PNGCompressorAdvanced.lastUsed := 0 |} ] in
  exists w,
    PNGCompressorAdvanced.getWorker 4 7 true pool
      = PNGCompressorAdvanced.Acquired w (pool ++ [w]) /\
    PNGCompressorAdvanced.releaseWorker 9 (PNGCompressorAdvanced.worker_id w)
      (pool ++ [w]) !! 1%nat = Some w.
Proof.
  intros pool.
  destruct (release_reaches_wrong_worker 4 7 9 pool 0
              {| PNGCompressorAdvanced.worker_id := 1;
                 PNGCompressorAdvanced.busy := true;
                 PNGCompressorAdvanced.lastUsed := 0 |})
    as (w & Hget & _ & _ & _ & Hnew & _).
  - by repeat constructor.
  - simpl. lia.
  - reflexivity.
  - exists w. split; [exact Hget | exact Hnew].
Defined.

(** ** The tasks dispatched to a worker *)

Section WorkerTaskFacts.
Import PNGCompressorAdvanced.
Local Open Scope nat_scope.
Implicit Types (pool : list PooledWorker) (w : PooledWorker) (t : Task)
  (ev : taskEvent) (evs : list taskEvent).

Local Abbreviation released := settledReleased.

Lemma pngEncoderStep_released now id st ev st' :
  ev <> BlobNull ->
  pngEncoderStep now st ev = Some st' -> released id st -> released id st'.
Proof.
  destruct st as [pool t]. unfold settledReleased.
  intros Hev Hstep [<- Hrel]. cbn [fst snd] in *.
  destruct ev; [done|..]; cbn in Hstep;
    repeat match type of Hstep with
           | (if ?b then _ else _) = _ => destruct b; [|try done]
           end;
    injection Hstep as <-; cbn [fst snd workerId promise];
    (split; [done|]); try (intros _; apply busyIn_release); exact Hrel.
Qed.

Lemma qualityPreservationStep_released now id st ev st' :
  ev <> BlobNull ->
  qualityPreservationStep now st ev = Some st' -> released id st -> released id st'.
Proof.
  destruct st as [pool t]. unfold settledReleased.
  intros Hev Hstep [<- Hrel]. cbn [fst snd] in *.
  destruct ev; [done|..]; cbn in Hstep;
    repeat match type of Hstep with
           | (if ?b then _ else _) = _ => destruct b; [|try done]
           end;
    try done;
    injection Hstep as <-; cbn [fst snd workerId promise];
    (split; [done|]); try (intros _; apply busyIn_release); exact Hrel.
Qed.

Lemma runTask_released step id :
  (forall st ev st', ev <> BlobNull ->
     step st ev = Some st' -> released id st -> released id st') ->
  forall evs st st',
    BlobNull ∉ evs -> runTask step st evs = Some st' ->
    released id st -> released id st'.
Proof.
  intros Hstep. induction evs as [|ev evs IH]; intros st st' Hno Hrun Hst.
  { by injection Hrun as <-. }
  cbn in Hrun. destruct (step st ev) as [st1|] eqn:H1; [|done].
  apply not_elem_of_cons in Hno as [Hev Hno].
  eapply IH; [done | exact Hrun |]. eapply Hstep; [|exact H1 | exact Hst].
  congruence.
Qed.

(** X7.  compressWithPngEncoder and compressWithQualityPreservation: in
    every run of a task in which the toBlob callback does not receive
    null, a promise that is settled goes with a worker that has been
    released. *)
Theorem settled_task_released (now : nat) pool w evs pool' t' :
  BlobNull ∉ evs ->
  (runTask (pngEncoderStep now) (pool, pngEncoderTask w) evs = Some (pool', t') ->
   promise t' <> Pending -> busyIn pool' (worker_id w) = false)
  /\ (runTask (qualityPreservationStep now) (pool, qualityPreservationTask w) evs
        = Some (pool', t') ->
      promise t' <> Pending -> busyIn pool' (worker_id w) = false).
Proof.
  intros Hno. split; intros Hrun Hsettled.
  - destruct (runTask_released (pngEncoderStep now) (worker_id w)
                (pngEncoderStep_released now (worker_id w))
                evs _ _ Hno Hrun) as [_ Hrel]; [by split|].
    by apply Hrel.
  - destruct (runTask_released (qualityPreservationStep now) (worker_id w)
                (qualityPreservationStep_released now (worker_id w))
                evs _ _ Hno Hrun) as [_ Hrel]; [by split|].
    by apply Hrel.
Qed.

(** X8.  compressWithQualityPreservation: when [blob.arrayBuffer()] or
    [postMessage] throws inside the toBlob callback, nothing catches the
    exception: the promise is never settled, no later event of the task
    can occur, and the pool is left as it was, the worker busy.
    compressWithPngEncoder, which has a try/catch there, rejects the
    promise and releases the worker. *)
Theorem quality_preservation_throw_hangs (now : nat) pool w :
  (exists t,
     qualityPreservationStep now (pool, qualityPreservationTask w) BlobThrows
       = Some (pool, t) /\
     promise t = Pending /\
     forall now' pool2 ev, qualityPreservationStep now' (pool2, t) ev = None)
  /\ (forall evs pool' t',
        runTask (qualityPreservationStep now) (pool, qualityPreservationTask w)
          (BlobThrows :: evs) = Some (pool', t') ->
        evs = [] /\ pool' = pool /\ promise t' = Pending)
  /\ (exists t,
        pngEncoderStep now (pool, pngEncoderTask w) BlobThrows
          = Some (releaseWorker now (worker_id w) pool, t) /\
        promise t = Rejected /\
        busyIn (releaseWorker now (worker_id w) pool) (worker_id w) = false).
Proof.
  split; [|split].
  - eexists. split; [reflexivity|]. split; [reflexivity|]. by intros now' pool2 [].
  - intros evs pool' t' Hrun. cbn in Hrun.
    destruct evs as [|ev evs]; [by injection Hrun as <- <-|].
    by destruct ev.
  - eexists. split; [reflexivity|]. split; [reflexivity|]. apply busyIn_release.
Qed.

(** X9.  compressWithPngEncoder does not clear its 10 s timer when the
    worker answers: after a result has resolved the promise the timer is
    still armed, and when it fires releaseWorker runs a second time, on
    whatever the pool then is; the worker is marked idle even if another
    task has acquired it in between. *)
Theorem timer_outlives_result (now : nat) pool w :
  exists t,
    runTask (pngEncoderStep now) (pool, pngEncoderTask w) [BlobPosted; WorkerResult]
      = Some (releaseWorker now (worker_id w) pool, t) /\
    promise t = Resolved /\ timerArmed t = true /\
    forall now' pool2, exists t2,
      pngEncoderStep now' (pool2, t) TimerFires
        = Some (releaseWorker now' (worker_id w) pool2, t2) /\
      promise t2 = Resolved /\
      busyIn (releaseWorker now' (worker_id w) pool2) (worker_id w) = false.
Proof.
  eexists. split; [reflexivity|]. split; [reflexivity|]. split; [reflexivity|].
  intros now' pool2. eexists. split; [reflexivity|]. split; [reflexivity|].
  apply busyIn_release.
Qed.
End WorkerTaskFacts.

Lemma settled_task_released_witness :
  exists pool' t',
    PNGCompressorAdvanced.runTask (PNGCompressorAdvanced.pngEncoderStep 8)
      (idlePool, PNGCompressorAdvanced.pngEncoderTask
                   {| PNGCompressorAdvanced.worker_id := 0;
                      PNGCompressorAdvanced.busy := true;
                      PNGCompressorAdvanced.lastUsed := 7 |})
      [PNGCompressorAdvanced.BlobPosted; PNGCompressorAdvanced.WorkerError]
      = Some (pool', t') /\
    PNGCompressorAdvanced.promise t' = PNGCompressorAdvanced.Rejected /\
    PNGCompressorAdvanced.busyIn pool' 0 = false.
Proof.
  eexists _, _. split; [reflexivity|]. split; [reflexivity|].
  refine (proj1 (settled_task_released 8 idlePool
                   {| PNGCompressorAdvanced.worker_id := 0;
                      PNGCompressorAdvanced.busy := true;
                      PNGCompressorAdvanced.lastUsed := 7 |}
                   [PNGCompressorAdvanced.BlobPosted; PNGCompressorAdvanced.WorkerError]
                   _ _ _) eq_refl _).
  - intros Hin. repeat (apply elem_of_cons in Hin as [Hin|Hin]; [discriminate Hin|]).
    by apply elem_of_nil in Hin.
  - discriminate.
Defined.

(** ** The canvas pool *)

Section CanvasPoolFacts.
Import PNGCompressorAdvanced.
Local Open Scope nat_scope.
Implicit Types (canvasPool : list PoolCanvas) (canvas : PoolCanvas).

(** X10.  PNGCompressorAdvanced.getCanvas and recycleCanvas.  getCanvas
    gives a canvas of the requested size, taken out of the pool or new and
    blank, and never makes the pool longer.  recycleCanvas keeps the pool
    within 10 canvases and drops the canvas when the pool is full.  A
    canvas that was recycled into a pool holding none of its size is what
    the next getCanvas for that size returns, cleared, and the pool is
    back to what it was. *)
Theorem canvas_pool_reuse (hasContext : bool) canvas canvasPool (width height : nat) :
  (let '(got, rest) := getCanvas width height canvasPool in
   canvas_width got = width /\ canvas_height got = height /\
   ((got ∈ canvasPool /\ S (length rest) = length canvasPool)
    \/ (cleared got = true /\ rest = canvasPool /\
        forall c, c ∈ canvasPool ->
          ~ (canvas_width c = width /\ canvas_height c = height))))
  /\ (length canvasPool <= 10 ->
      length (recycleCanvas hasContext canvas canvasPool) <= 10)
  /\ (10 <= length canvasPool ->
      recycleCanvas hasContext canvas canvasPool = canvasPool)
  /\ (length canvasPool < 10 ->
      (forall c, c ∈ canvasPool ->
         ~ (canvas_width c = canvas_width canvas
            /\ canvas_height c = canvas_height canvas)) ->
      getCanvas (canvas_width canvas) (canvas_height canvas)
        (recycleCanvas true canvas canvasPool)
      = ({| canvas_width := canvas_width canvas;
            canvas_height := canvas_height canvas; cleared := true |},
         canvasPool)).
Proof.
  split; [|split; [|split]].
  - unfold getCanvas.
    destruct (list_find _ canvasPool) as [[i c]|] eqn:Hfind.
    + apply list_find_Some in Hfind as (Hi & [Hw Hh] & _).
      split; [done|]. split; [done|]. left.
      split; [by eapply list_elem_of_lookup_2|].
      pose proof (lookup_lt_Some _ _ _ Hi). rewrite length_delete by eauto. lia.
    + split; [done|]. split; [done|]. right. split; [done|]. split; [done|].
      intros c Hc. eapply list_find_None in Hfind.
      rewrite Forall_forall in Hfind. by apply Hfind.
  - intros Hlen. unfold recycleCanvas.
    destruct (Nat.ltb_spec (length canvasPool) 10); [|done].
    rewrite length_app. simpl. lia.
  - intros Hlen. unfold recycleCanvas.
    destruct (Nat.ltb_spec (length canvasPool) 10); [lia | done].
  - intros Hlen Hnone. unfold recycleCanvas, getCanvas.
    destruct (Nat.ltb_spec (length canvasPool) 10); [|lia].
    set (c0 := {| canvas_width := canvas_width canvas;
                  canvas_height := canvas_height canvas; cleared := true |}).
    assert (Hfind : list_find (fun c => canvas_width c = canvas_width canvas
                                        /\ canvas_height c = canvas_height canvas)
                      (canvasPool ++ [c0]) = Some (length canvasPool, c0)).
    { apply list_find_Some. split; [by rewrite lookup_app_r, Nat.sub_diag by lia|].
      split; [done|]. intros j c Hj Hlt.
      rewrite lookup_app_l in Hj by done.
      apply Hnone. by eapply list_elem_of_lookup_2. }
    rewrite Hfind. f_equal.
    rewrite delete_middle. apply app_nil_r.
Qed.
End CanvasPoolFacts.

Lemma canvas_pool_reuse_witness :
  PNGCompressorAdvanced.getCanvas 640 480
    (PNGCompressorAdvanced.recycleCanvas true
       {| PNGCompressorAdvanced.canvas_width := 640;
          PNGCompressorAdvanced.canvas_height := 480;
          PNGCompressorAdvanced.cleared := false |} [])
  = ({| PNGCompressorAdvanced.canvas_width := 640;
        PNGCompressorAdvanced.canvas_height := 480;
        PNGCompressorAdvanced.cleared := true |}, []).
Proof.
  refine (proj2 (proj2 (proj2 (canvas_pool_reuse true
            {| PNGCompressorAdvanced.canvas_width := 640;
               PNGCompressorAdvanced.canvas_height := 480;
               PNGCompressorAdvanced.cleared := false |} [] 0 0))) _ _).
  - simpl. lia.
  - intros c Hc. by apply elem_of_nil in Hc.
Defined.
(** ** What the colour reductions keep *)

Section ReductionBounds.
Local Open Scope nat_scope.
Implicit Types (d : list Z) (p : Z * Z * Z * Z) (i j k n : nat).

Lemma pixels_Forall (P : Z -> Prop) d n :
  length d = 4 * n ->
  (forall k r g b a, k < n -> pixelAt d k = (r, g, b, a) ->
     P r /\ P g /\ P b /\ P a) ->
  Forall P d.
Proof.
  intros Hlen Hpx. apply Forall_lookup_2. intros j x Hj.
  pose proof (lookup_lt_Some _ _ _ Hj) as Hlt.
  apply list_lookup_total_correct in Hj. subst x.
  destruct (Hpx (j / 4) _ _ _ _
              ltac:(apply Nat.Div0.div_lt_upper_bound; lia) eq_refl)
    as (Hr & Hg & Hb & Ha).
  pose proof (Nat.div_mod_eq j 4) as Hdm.
  pose proof (Nat.mod_upper_bound j 4 ltac:(lia)) as Hm.
  destruct (j mod 4) as [|[|[|[|?]]]] eqn:Hmod; try lia.
  - by replace j with (4 * (j / 4)) by lia.
  - by replace j with (4 * (j / 4) + 1) by lia.
  - by replace j with (4 * (j / 4) + 2) by lia.
  - by replace j with (4 * (j / 4) + 3) by lia.
Qed.

Lemma Forall_pixel (P : Z -> Prop) d k r g b a :
  Forall P d -> 4 * k + 3 < length d -> pixelAt d k = (r, g, b, a) ->
  P r /\ P g /\ P b /\ P a.
Proof.
  intros Hall Hk [= <- <- <- <-].
  rewrite Forall_lookup in Hall.
  repeat split; (eapply Hall, list_lookup_lookup_total_lt; lia).
Qed.

Lemma quantize_flooredTo (level v : Z) :
  (0 < level)%Z -> flooredTo level v (quantize level v).
Proof.
  intros Hl. unfold flooredTo, quantize. split.
  - by apply Z.mod_mul; lia.
  - pose proof (Z.mul_div_le v level Hl).
    pose proof (Z.mul_succ_div_gt v level Hl). nia.
Qed.

Lemma flooredTo_byte (level v v' : Z) :
  (0 < level)%Z -> byte v -> flooredTo level v v' -> byte v'.
Proof.
  unfold byte, flooredTo. intros Hl Hv [Hmod Hle]. split; [|lia].
  apply Z.mod_divide in Hmod; [|lia]. destruct Hmod as [c ->].
  destruct (Z_lt_le_dec c 0) as [Hc|Hc]; [|nia].
  assert (c * level <= -1 * level)%Z by nia. lia.
Qed.

Lemma binarizeAlpha_byte (a : Z) : byte (binarizeAlpha a).
Proof. unfold byte, binarizeAlpha. destruct (a <? 128)%Z; lia. Qed.

(** what [quantizedPixel] does, as a relation *)
Lemma quantizedPixel_spec (level r g b a : Z) :
  (0 < level)%Z ->
  exists r' g' b' a',
    PNGCompressor.quantizedPixel level (r, g, b, a) = (r', g', b', a') /\
    (a = 0%Z -> (r', g', b', a') = (r, g, b, a)) /\
    (a <> 0%Z ->
       a' = binarizeAlpha a /\
       flooredTo level r r' /\ flooredTo level g g' /\ flooredTo level b b').
Proof.
  intros Hl. unfold PNGCompressor.quantizedPixel.
  destruct (Z.eqb_spec a 0) as [->|Ha].
  - eexists _, _, _, _. split; [done|]. split; [done | by intros []].
  - eexists _, _, _, _. split; [done|]. split; [by intros ->|]. intros _.
    split; [done|]. repeat split; by apply quantize_flooredTo.
Qed.

Lemma quantizedPixel_byte (level : Z) p :
  (0 < level)%Z -> bytePixel p -> bytePixel (PNGCompressor.quantizedPixel level p).
Proof.
  intros Hl. destruct p as [[[r g] b] a]. intros (Hr & Hg & Hb & Ha).
  unfold PNGCompressor.quantizedPixel. destruct (a =? 0)%Z; [done|].
  repeat split; try (by apply quantize_byte); apply binarizeAlpha_byte.
Qed.

(** X11.  PNGCompressor.reduceColorsForPhotographic, reduceColorsForGraphical
    and reduceColorsAggressively (quantization levels 4, 8, 16; any level
    above 0 here).  On a buffer of whole RGBA pixels whose entries are
    bytes, the result has the same length and its entries are bytes; a
    fully transparent pixel is left as it is; in every other pixel the
    alpha becomes 0 or 255 (255 from 128 on) and each colour channel is
    lowered to a multiple of the level, by less than the level. *)
Theorem colour_reduction_bounds (level : Z) (data : list Z) (n : nat) :
  (0 < level)%Z -> length data = 4 * n -> Forall byte data ->
  let out := PNGCompressor.reduceColorsWith level data in
  length out = length data /\ Forall byte out /\
  forall k r g b a, k < n -> pixelAt data k = (r, g, b, a) ->
    exists r' g' b' a',
      pixelAt out k = (r', g', b', a') /\
      (a = 0%Z -> (r', g', b', a') = (r, g, b, a)) /\
      (a <> 0%Z ->
         a' = (if (a <? 128)%Z then 0 else 255)%Z /\
         flooredTo level r r' /\ flooredTo level g g' /\ flooredTo level b b').
Proof.
  intros Hl Hlen Hbytes out. subst out.
  split; [apply reduceColorsWith_length|]. split.
  - apply (pixels_Forall _ _ n); [by rewrite reduceColorsWith_length|].
    intros k r g b a Hk Hpx.
    rewrite (reduceColorsWith_pixel level data n) in Hpx by done.
    destruct (pixelAt data k) as [[[r0 g0] b0] a0] eqn:Hin.
    assert (Hk4 : 4 * k + 3 < length data) by lia.
    pose proof (Forall_pixel _ _ _ _ _ _ _ Hbytes Hk4 Hin) as Hb0.
    pose proof (quantizedPixel_byte level (r0, g0, b0, a0) Hl Hb0) as Hq.
    rewrite Hpx in Hq. exact Hq.
  - intros k r g b a Hk Hpx.
    rewrite (reduceColorsWith_pixel level data n), Hpx by done.
    by apply quantizedPixel_spec.
Qed.

(** X12.  PNGCompressor.reduceColorsAdaptive.  On a buffer of
    [width * height] RGBA pixels whose entries are bytes, the result has
    the same length and its entries are bytes; a fully transparent pixel
    is left as it is; in every other pixel the alpha becomes 0 or 255 and
    each colour channel is lowered by less than 6 (by less than 2 on an
    edge). *)
Theorem adaptive_reduction_bounds (data : list Z) (width height : nat) :
  length data = 4 * (width * height) -> Forall byte data ->
  let out := PNGCompressor.reduceColorsAdaptive data width height in
  length out = length data /\ Forall byte out /\
  forall y x r g b a, y < height -> x < width ->
    pixelAt data (y * width + x) = (r, g, b, a) ->
    exists r' g' b' a',
      pixelAt out (y * width + x) = (r', g', b', a') /\
      (a = 0%Z -> (r', g', b', a') = (r, g, b, a)) /\
      (a <> 0%Z ->
         a' = (if (a <? 128)%Z then 0 else 255)%Z /\
         (r - 6 < r' <= r)%Z /\ (g - 6 < g' <= g)%Z /\ (b - 6 < b' <= b)%Z /\
         (PNGCompressor.isEdge data width height y x = true ->
            (r - 2 < r' <= r)%Z /\ (g - 2 < g' <= g)%Z /\ (b - 2 < b' <= b)%Z)).
Proof.
  intros Hlen Hbytes out. subst out.
  split; [by apply reduceColorsAdaptive_length|]. split.
  - apply (pixels_Forall _ _ (width * height));
      [by rewrite reduceColorsAdaptive_length|].
    intros k r g b a Hk Hpx.
    assert (Hw : 0 < width) by (destruct width; lia).
    pose proof (Nat.div_mod_eq k width) as Hdm.
    pose proof (Nat.mod_upper_bound k width ltac:(lia)) as Hm.
    assert (Hy : k / width < height).
    { apply Nat.Div0.div_lt_upper_bound. lia. }
    replace k with (k / width * width + k mod width) in Hpx by lia.
    rewrite reduceColorsAdaptive_pixel in Hpx by done.
    destruct (pixelAt data (k / width * width + k mod width))
      as [[[r0 g0] b0] a0] eqn:Hin.
    assert (Hk4 : 4 * (k / width * width + k mod width) + 3 < length data) by lia.
    pose proof (Forall_pixel _ _ _ _ _ _ _ Hbytes Hk4 Hin) as Hb0.
    assert (Hl : (0 < (if PNGCompressor.isEdge data width height (k / width)
                            (k mod width) then 2 else 6))%Z)
      by (destruct (PNGCompressor.isEdge _ _ _ _ _); lia).
    pose proof (quantizedPixel_byte _ (r0, g0, b0, a0) Hl Hb0) as Hq.
    rewrite Hpx in Hq. exact Hq.
  - intros y x r g b a Hy Hx Hpx.
    rewrite reduceColorsAdaptive_pixel, Hpx by done.
    destruct (PNGCompressor.isEdge data width height y x) eqn:Hedge.
    + destruct (quantizedPixel_spec 2 r g b a ltac:(lia))
        as (r' & g' & b' & a' & Heq & Hzero & Hnz).
      exists r', g', b', a'. split; [done|]. split; [done|].
      intros Ha. destruct (Hnz Ha) as (-> & [_ ?] & [_ ?] & [_ ?]).
      split; [done|]. repeat split; lia.
    + destruct (quantizedPixel_spec 6 r g b a ltac:(lia))
        as (r' & g' & b' & a' & Heq & Hzero & Hnz).
      exists r', g', b', a'. split; [done|]. split; [done|].
      intros Ha. destruct (Hnz Ha) as (-> & [_ ?] & [_ ?] & [_ ?]).
      split; [done|]. repeat split; (lia || done).
Qed.

(** X13.  PNGCompressorAdvanced.optimizeColorsForPNG.  On a buffer of
    whole RGBA pixels whose entries are bytes, the result has the same
    length and its entries are bytes; a pixel whose alpha is below 128
    becomes (0, 0, 0, 0); every other pixel gets alpha 255 and each of its
    colour channels is lowered to a multiple of the colour precision, by
    less than it; the precision is 16 when the image has more than
    1000000 pixels and 8 otherwise. *)
Theorem png_colour_optimization_bounds (data : list Z) (width height n : nat) :
  length data = 4 * n -> Forall byte data ->
  let out := PNGCompressorAdvanced.optimizeColorsForPNG data width height in
  let colorPrecision :=
    (if (1000000 <? Z.of_nat width * Z.of_nat height)%Z then 16 else 8)%Z in
  length out = length data /\ Forall byte out /\
  forall k r g b a, k < n -> pixelAt data k = (r, g, b, a) ->
    exists r' g' b' a',
      pixelAt out k = (r', g', b', a') /\
      ((a < 128)%Z -> (r', g', b', a') = (0, 0, 0, 0)%Z) /\
      ((128 <= a)%Z ->
         a' = 255%Z /\ flooredTo colorPrecision r r' /\
         flooredTo colorPrecision g g' /\ flooredTo colorPrecision b b').
Proof.
  intros Hlen Hbytes out cp. subst out.
  assert (Hcp : (0 < cp)%Z) by (subst cp; destruct (_ <? _)%Z; lia).
  assert (Hpixel : forall k r g b a, k < n -> pixelAt data k = (r, g, b, a) ->
            exists r' g' b' a',
              pixelAt (PNGCompressorAdvanced.optimizeColorsForPNG data width height) k
                = (r', g', b', a') /\
              ((a < 128)%Z -> (r', g', b', a') = (0, 0, 0, 0)%Z) /\
              ((128 <= a)%Z ->
                 a' = 255%Z /\ flooredTo cp r r' /\
                 flooredTo cp g g' /\ flooredTo cp b b')).
  { intros k r g b a Hk Hpx.
    rewrite (optimizeColorsForPNG_pixel data width height n), Hpx by done.
    fold cp. unfold PNGCompressorAdvanced.optimizedPixel.
    destruct (Z.ltb_spec a 128) as [Ha|Ha].
    - eexists _, _, _, _. split; [done|]. split; [done | lia].
    - eexists _, _, _, _. split; [done|]. split; [lia|]. intros _.
      split; [done|]. repeat split; by apply quantize_flooredTo. }
  split; [apply optimizeColorsForPNG_length|]. split; [|exact Hpixel].
  apply (pixels_Forall _ _ n); [by rewrite optimizeColorsForPNG_length|].
  intros k r g b a Hk Hpx.
  destruct (pixelAt data k) as [[[r0 g0] b0] a0] eqn:Hin.
  assert (Hk4 : 4 * k + 3 < length data) by lia.
  destruct (Forall_pixel _ _ _ _ _ _ _ Hbytes Hk4 Hin) as (Hr & Hg & Hb & Ha).
  destruct (Hpixel k r0 g0 b0 a0 Hk Hin) as (r' & g' & b' & a' & Heq & Hlow & Hhigh).
  rewrite Hpx in Heq. injection Heq as <- <- <- <-.
  destruct (Z_lt_le_dec a0 128) as [Hlt|Hge].
  - specialize (Hlow Hlt). injection Hlow as -> -> -> ->. unfold byte. lia.
  - destruct (Hhigh Hge) as (-> & Fr & Fg & Fb).
    repeat split; try (eapply flooredTo_byte; [exact Hcp| |eassumption]; done);
      unfold byte; lia.
Qed.
End ReductionBounds.

Lemma twoPixels_bytes : Forall byte twoPixels.
Proof. unfold twoPixels, byte. repeat constructor; lia. Qed.

Lemma colour_reduction_bounds_witness :
  (0 < 16)%Z /\ length twoPixels = (4 * 2)%nat /\ Forall byte twoPixels /\
  Forall byte (PNGCompressor.reduceColorsAggressively twoPixels).
Proof.
  split; [lia|]. split; [reflexivity|]. split; [exact twoPixels_bytes|].
  exact (proj1 (proj2 (colour_reduction_bounds 16 twoPixels 2 ltac:(lia) eq_refl
                         twoPixels_bytes))).
Defined.

Lemma adaptive_reduction_bounds_witness :
  length twoPixels = (4 * (2 * 1))%nat /\ Forall byte twoPixels /\
  Forall byte (PNGCompressor.reduceColorsAdaptive twoPixels 2 1).
Proof.
  split; [reflexivity|]. split; [exact twoPixels_bytes|].
  exact (proj1 (proj2 (adaptive_reduction_bounds twoPixels 2 1 eq_refl
                         twoPixels_bytes))).
Defined.

Lemma png_colour_optimization_bounds_witness :
  length twoPixels = (4 * 2)%nat /\ Forall byte twoPixels /\
  Forall byte (PNGCompressorAdvanced.optimizeColorsForPNG twoPixels 2 1).
Proof.
  split; [reflexivity|]. split; [exact twoPixels_bytes|].
  exact (proj1 (proj2 (png_colour_optimization_bounds twoPixels 2 1 2 eq_refl
                         twoPixels_bytes))).
Defined.
(** ** The line-art passes *)

Section LineArtFacts.
Local Open Scope nat_scope.
Import PNGCompressor.
Implicit Types (d : list Z) (p : Z * Z * Z * Z) (i j k n : nat).

Lemma Math_round_div (a : Z) (b : positive) :
  Math_round (inject_Z a / inject_Z (Z.pos b)) = ((2 * a + Z.pos b) / (2 * Z.pos b))%Z.
Proof.
  unfold Math_round.
  assert (E : (inject_Z a / inject_Z (Z.pos b) + (1 # 2)
               == (2 * a + Z.pos b) # (2 * b))%Q).
  { unfold Qeq, Qdiv, Qmult, Qplus, Qinv, inject_Z. cbn. lia. }
  rewrite E. reflexivity.
Qed.

Lemma insert_own d j : <[j := d !!! j]> d = d.
Proof.
  destruct (decide (j < length d)) as [Hj|Hj].
  - apply list_insert_id. by apply list_lookup_lookup_total_lt.
  - apply list_insert_ge. lia.
Qed.

(** three channels written, the alpha kept: the pixel is rewritten *)
Lemma write3_write4 d i (r g b : Z) :
  <[i + 2 := b]> (<[i + 1 := g]> (<[i := r]> d)) = write4 d i (r, g, b, d !!! (i + 3)).
Proof.
  unfold write4. symmetry.
  etrans; [|apply (insert_own _ (i + 3))]. f_equal.
  rewrite !list_lookup_total_insert_ne by lia. done.
Qed.

Lemma lineArtPixel_eq d i :
  lineArtPixel d i =
  write4 d i (lineArtColor (d !!! i, d !!! (i + 1), d !!! (i + 2), d !!! (i + 3))).
Proof.
  unfold lineArtPixel, lineArtColor.
  destruct (d !!! (i + 3)%nat =? 0)%Z.
  { unfold write4. by rewrite !insert_own. }
  repeat match goal with
         | |- context [if ?c then _ else _] => destruct c
         end; apply write3_write4.
Qed.

Lemma lineArtPixel_length d i : length (lineArtPixel d i) = length d.
Proof. rewrite lineArtPixel_eq. apply write4_length. Qed.

Lemma lineArtPixel_pixel d k :
  4 * k + 3 < length d ->
  pixelAt (lineArtPixel d (4 * k)) k = lineArtColor (pixelAt d k).
Proof. intros Hk. rewrite lineArtPixel_eq. by apply write4_pixel. Qed.

Lemma lineArtPixel_other d k k' :
  k' <> k -> pixelAt (lineArtPixel d (4 * k)) k' = pixelAt d k'.
Proof. intros Hk. rewrite lineArtPixel_eq. by apply write4_other. Qed.

Lemma optimizeLineArt_length d : length (optimizeLineArt d) = length d.
Proof. apply pixel_loop_length, lineArtPixel_length. Qed.

Lemma optimizeLineArt_pixel d n k :
  length d = 4 * n -> k < n ->
  pixelAt (optimizeLineArt d) k = lineArtColor (pixelAt d k).
Proof.
  intros Hlen Hk. unfold optimizeLineArt.
  apply (pixel_loop_whole _ (fun _ => lineArtColor)) with (n := n); try done.
  - apply lineArtPixel_length.
  - intros. by apply lineArtPixel_pixel.
  - intros. by apply lineArtPixel_other.
Qed.

(** the pass on one pixel, in integers *)
Lemma lineArtColor_int (r g b a : Z) :
  lineArtColor (r, g, b, a) =
  (if a =? 0 then (r, g, b, a)
   else if (r <? 30) && (g <? 30) && (b <? 30) then (0, 0, 0, a)
   else if (200 <? r) && (200 <? g) && (200 <? b) then (255, 255, 255, a)
   else if (Z.abs (r - g) <? 20) && (Z.abs (r - b) <? 20) && (Z.abs (g - b) <? 20)
   then let q := clamp8 ((2 * ((2 * (r + g + b) + 3) / 6) + 85) / 170 * 85) in
        (q, q, q, a)
   else (clamp8 ((2 * r + 32) / 64 * 32), clamp8 ((2 * g + 32) / 64 * 32),
         clamp8 ((2 * b + 32) / 64 * 32), a))%Z.
Proof.
  unfold lineArtColor.
  change 3%Q with (inject_Z (Z.pos 3)). change 85%Q with (inject_Z (Z.pos 85)).
  change 32%Q with (inject_Z (Z.pos 32)).
  by rewrite !Math_round_div.
Qed.

Lemma colour_level (c : Z) :
  byte c ->
  clamp8 ((2 * c + 32) / 64 * 32) ∈ lineArtLevels /\
  (Z.abs (clamp8 ((2 * c + 32) / 64 * 32) - c) <= 16)%Z.
Proof.
  unfold byte, clamp8, lineArtLevels. intros Hc.
  set (q := ((2 * c + 32) / 64)%Z).
  assert (Hq : (64 * q <= 2 * c + 32 < 64 * q + 64)%Z).
  { subst q. Z.to_euclidean_division_equations. lia. }
  clearbody q. rewrite !elem_of_cons.
  assert (q = 0 \/ q = 1 \/ q = 2 \/ q = 3 \/ q = 4 \/ q = 5 \/ q = 6 \/ q = 7
          \/ q = 8)%Z as Hcases by lia.
  destruct Hcases as [->|[->|[->|[->|[->|[->|[->|[->| ->]]]]]]]]; cbn; split;
    try lia; tauto.
Qed.

Lemma gray_level (r g b : Z) :
  byte r -> byte g -> byte b ->
  (Z.abs (r - g) < 20)%Z -> (Z.abs (r - b) < 20)%Z -> (Z.abs (g - b) < 20)%Z ->
  let q := clamp8 ((2 * ((2 * (r + g + b) + 3) / 6) + 85) / 170 * 85) in
  q ∈ lineArtLevels /\
  (Z.abs (q - r) <= 55)%Z /\ (Z.abs (q - g) <= 55)%Z /\ (Z.abs (q - b) <= 55)%Z.
Proof.
  unfold byte, clamp8, lineArtLevels. intros Hr Hg Hb Hrg Hrb Hgb.
  set (m := ((2 * (r + g + b) + 3) / 6)%Z).
  assert (Hm : (6 * m <= 2 * (r + g + b) + 3 < 6 * m + 6)%Z).
  { subst m. Z.to_euclidean_division_equations. lia. }
  clearbody m.
  set (q := ((2 * m + 85) / 170)%Z).
  assert (Hq : (170 * q <= 2 * m + 85 < 170 * q + 170)%Z).
  { subst q. Z.to_euclidean_division_equations. lia. }
  clearbody q. cbv zeta. rewrite !elem_of_cons.
  assert (q = 0 \/ q = 1 \/ q = 2 \/ q = 3)%Z as Hcases by lia.
  destruct Hcases as [->|[->|[->| ->]]]; cbn; split; try lia; tauto.
Qed.

Lemma lineArtLevels_byte (c : Z) : c ∈ lineArtLevels -> byte c.
Proof.
  unfold lineArtLevels, byte. rewrite !elem_of_cons, elem_of_nil. lia.
Qed.

(** what [optimizeLineArt] does to a pixel of bytes *)
Lemma lineArtColor_spec (r g b a : Z) :
  byte r -> byte g -> byte b ->
  exists r' g' b',
    lineArtColor (r, g, b, a) = (r', g', b', a) /\
    (a = 0%Z -> (r', g', b') = (r, g, b)) /\
    (a <> 0%Z ->
       (r' ∈ lineArtLevels /\ g' ∈ lineArtLevels /\ b' ∈ lineArtLevels) /\
       (Z.abs (r' - r) <= 55 /\ Z.abs (g' - g) <= 55 /\ Z.abs (b' - b) <= 55)%Z).
Proof.
  intros Hr Hg Hb. rewrite lineArtColor_int.
  destruct (Z.eqb_spec a 0) as [Ha|Ha].
  { eexists _, _, _. split; [done|]. split; [done | by intros []]. }
  assert (H0 : (0 : Z) ∈ lineArtLevels) by (by left).
  assert (H255 : (255 : Z) ∈ lineArtLevels)
    by (unfold lineArtLevels; rewrite !elem_of_cons; tauto).
  destruct ((r <? 30) && (g <? 30) && (b <? 30))%Z eqn:Hblack.
  { apply andb_true_iff in Hblack as [[?%Z.ltb_lt ?%Z.ltb_lt]%andb_true_iff ?%Z.ltb_lt].
    unfold byte in *.
    eexists _, _, _. split; [done|]. split; [done|]. intros _. split; [done|]. lia. }
  destruct ((200 <? r) && (200 <? g) && (200 <? b))%Z eqn:Hwhite.
  { apply andb_true_iff in Hwhite as [[?%Z.ltb_lt ?%Z.ltb_lt]%andb_true_iff ?%Z.ltb_lt].
    unfold byte in *.
    eexists _, _, _. split; [done|]. split; [done|]. intros _. split; [done|]. lia. }
  destruct ((Z.abs (r - g) <? 20) && (Z.abs (r - b) <? 20)
            && (Z.abs (g - b) <? 20))%Z eqn:Hgray.
  { apply andb_true_iff in Hgray as [[Hrg%Z.ltb_lt Hrb%Z.ltb_lt]%andb_true_iff Hgb%Z.ltb_lt].
    destruct (gray_level r g b Hr Hg Hb Hrg Hrb Hgb) as (Hin & Er & Eg & Eb).
    eexists _, _, _. split; [done|]. split; [done|]. intros _. by split. }
  destruct (colour_level r Hr) as [Hir Er].
  destruct (colour_level g Hg) as [Hig Eg].
  destruct (colour_level b Hb) as [Hib Eb].
  eexists _, _, _. split; [done|]. split; [done|]. intros _. split; [done|]. lia.
Qed.

(** X14.  PNGCompressor.optimizeLineArt.  On a buffer of whole RGBA
    pixels whose entries are bytes, the result has the same length and its
    entries are bytes; the alpha of no pixel changes and a fully
    transparent pixel is left as it is; in every other pixel each colour
    channel ends in one of eleven values (the multiples of 32 up to 224,
    and 85, 170, 255: 256 is clamped to 255) and moves by at most 55.
    Unlike the floor quantizations the pass is not idempotent: the pixel
    (81, 95, 101) becomes (96, 96, 96), which a second application turns
    into (85, 85, 85). *)
Theorem line_art_palette (data : list Z) (n : nat) :
  length data = 4 * n -> Forall byte data ->
  let out := optimizeLineArt data in
  length out = length data /\ Forall byte out /\
  (forall k r g b a, k < n -> pixelAt data k = (r, g, b, a) ->
     exists r' g' b',
       pixelAt out k = (r', g', b', a) /\
       (a = 0%Z -> (r', g', b') = (r, g, b)) /\
       (a <> 0%Z ->
          (r' ∈ lineArtLevels /\ g' ∈ lineArtLevels /\ b' ∈ lineArtLevels) /\
          (Z.abs (r' - r) <= 55 /\ Z.abs (g' - g) <= 55 /\ Z.abs (b' - b) <= 55)%Z))
  /\ optimizeLineArt [81; 95; 101; 255]%Z = [96; 96; 96; 255]%Z
  /\ optimizeLineArt [96; 96; 96; 255]%Z = [85; 85; 85; 255]%Z.
Proof.
  intros Hlen Hbytes out. subst out.
  assert (Hpixel : forall k r g b a, k < n -> pixelAt data k = (r, g, b, a) ->
     exists r' g' b',
       pixelAt (optimizeLineArt data) k = (r', g', b', a) /\
       (a = 0%Z -> (r', g', b') = (r, g, b)) /\
       (a <> 0%Z ->
          (r' ∈ lineArtLevels /\ g' ∈ lineArtLevels /\ b' ∈ lineArtLevels) /\
          (Z.abs (r' - r) <= 55 /\ Z.abs (g' - g) <= 55 /\ Z.abs (b' - b) <= 55)%Z)).
  { intros k r g b a Hk Hpx.
    assert (Hk4 : 4 * k + 3 < length data) by lia.
    destruct (Forall_pixel _ _ _ _ _ _ _ Hbytes Hk4 Hpx) as (Hr & Hg & Hb & _).
    rewrite (optimizeLineArt_pixel data n), Hpx by done.
    by apply lineArtColor_spec. }
  split; [apply optimizeLineArt_length|]. split; [|split; [exact Hpixel|]].
  - apply (pixels_Forall _ _ n); [by rewrite optimizeLineArt_length|].
    intros k r g b a Hk Hpx.
    destruct (pixelAt data k) as [[[r0 g0] b0] a0] eqn:Hin.
    assert (Hk4 : 4 * k + 3 < length data) by lia.
    destruct (Forall_pixel _ _ _ _ _ _ _ Hbytes Hk4 Hin) as (Hr & Hg & Hb & Ha).
    destruct (Hpixel k r0 g0 b0 a0 Hk Hin) as (r' & g' & b' & Heq & Hzero & Hnz).
    rewrite Hpx in Heq. injection Heq as <- <- <- <-.
    destruct (decide (a = 0%Z)) as [Ha0|Ha0].
    + specialize (Hzero Ha0). by injection Hzero as -> -> ->.
    + destruct (Hnz Ha0) as [(Ir & Ig & Ib) _].
      repeat split; try (by apply lineArtLevels_byte); apply Ha.
  - split; by vm_compute.
Qed.

(** *** [optimizeLineArtAggressively] *)

Lemma Qltb_third (s : Z) (c : positive) :
  Qltb (inject_Z s / 3) (inject_Z (Z.pos c)) = (s <? 3 * Z.pos c)%Z.
Proof.
  unfold Qltb. destruct (Qlt_le_dec _ _) as [Hlt|Hle];
    destruct (Z.ltb_spec s (3 * Z.pos c)) as [Hs|Hs]; try done; exfalso.
  - unfold Qlt, Qdiv, Qmult, Qinv, inject_Z in Hlt. cbn in Hlt. lia.
  - unfold Qle, Qdiv, Qmult, Qinv, inject_Z in Hle. cbn in Hle. lia.
Qed.

Lemma aggressiveLineArtColor_int (r g b a : Z) :
  aggressiveLineArtColor (r, g, b, a) =
  (if a <? 128 then (r, g, b, 0)
   else if r + g + b <? 120 then (0, 0, 0, 255)
   else if r + g + b <? 450 then (128, 128, 128, 255)
   else (255, 255, 255, 255))%Z.
Proof.
  unfold aggressiveLineArtColor.
  change 40%Q with (inject_Z (Z.pos 40)). change 150%Q with (inject_Z (Z.pos 150)).
  by rewrite !Qltb_third.
Qed.

Lemma aggressiveLineArtPixel_length d i :
  length (aggressiveLineArtPixel d i) = length d.
Proof.
  unfold aggressiveLineArtPixel. cbv zeta.
  repeat match goal with
         | |- context [if ?c then _ else _] => destruct c
         end; by rewrite !length_insert.
Qed.

Lemma aggressiveLineArtPixel_other d k k' :
  k' <> k -> pixelAt (aggressiveLineArtPixel d (4 * k)) k' = pixelAt d k'.
Proof.
  intros Hk. unfold aggressiveLineArtPixel, pixelAt. cbv zeta.
  repeat match goal with
         | |- context [if ?c then _ else _] => destruct c
         end; by rewrite !list_lookup_total_insert_ne by lia.
Qed.

Lemma aggressiveLineArtPixel_eq d i :
  i + 3 < length d ->
  aggressiveLineArtPixel d i =
  write4 d i (aggressiveLineArtColor
                (d !!! i, d !!! (i + 1), d !!! (i + 2), d !!! (i + 3))).
Proof.
  intros Hi. unfold aggressiveLineArtPixel, aggressiveLineArtColor, write4.
  cbv zeta.
  rewrite (list_lookup_total_insert_eq d (i + 3)) by lia.
  rewrite !(list_lookup_total_insert_ne d (i + 3)) by lia.
  unfold binarizeAlpha.
  destruct (d !!! (i + 3)%nat <? 128)%Z; cbn [Z.eqb].
  { by rewrite !insert_own. }
  repeat match goal with
         | |- context [if Qltb ?x ?y then _ else _] => destruct (Qltb x y)
         end;
    by rewrite !(list_insert_insert_ne _ _ (i + 3)) by lia.
Qed.

Lemma aggressiveLineArtPixel_pixel d k :
  4 * k + 3 < length d ->
  pixelAt (aggressiveLineArtPixel d (4 * k)) k = aggressiveLineArtColor (pixelAt d k).
Proof.
  intros Hk. rewrite aggressiveLineArtPixel_eq by done. by apply write4_pixel.
Qed.

Lemma optimizeLineArtAggressively_length d :
  length (optimizeLineArtAggressively d) = length d.
Proof. apply pixel_loop_length, aggressiveLineArtPixel_length. Qed.

Lemma optimizeLineArtAggressively_pixel d n k :
  length d = 4 * n -> k < n ->
  pixelAt (optimizeLineArtAggressively d) k = aggressiveLineArtColor (pixelAt d k).
Proof.
  intros Hlen Hk. unfold optimizeLineArtAggressively.
  apply (pixel_loop_whole _ (fun _ => aggressiveLineArtColor)) with (n := n);
    try done.
  - apply aggressiveLineArtPixel_length.
  - intros. by apply aggressiveLineArtPixel_pixel.
  - intros. by apply aggressiveLineArtPixel_other.
Qed.

Lemma aggressiveLineArtColor_idem p :
  aggressiveLineArtColor (aggressiveLineArtColor p) = aggressiveLineArtColor p.
Proof.
  destruct p as [[[r g] b] a]. rewrite (aggressiveLineArtColor_int r g b a).
  destruct (a <? 128)%Z; [by rewrite aggressiveLineArtColor_int|].
  destruct (r + g + b <? 120)%Z; [by rewrite aggressiveLineArtColor_int|].
  destruct (r + g + b <? 450)%Z; by rewrite aggressiveLineArtColor_int.
Qed.

(** X15.  PNGCompressor.optimizeLineArtAggressively.  On a buffer of whole
    RGBA pixels whose entries are bytes, the result has the same length and
    its entries are bytes; a pixel whose alpha is below 128 keeps its
    colour and gets alpha 0; every other pixel gets alpha 255 and becomes
    black when r + g + b < 120, mid gray (128) when r + g + b < 450 and
    white otherwise: at most three colours are left.  The pass is
    idempotent. *)
Theorem aggressive_line_art_palette (data : list Z) (n : nat) :
  length data = 4 * n -> Forall byte data ->
  let out := optimizeLineArtAggressively data in
  length out = length data /\ Forall byte out /\
  (forall k r g b a, k < n -> pixelAt data k = (r, g, b, a) ->
     pixelAt out k =
     (if a <? 128 then (r, g, b, 0)
      else if r + g + b <? 120 then (0, 0, 0, 255)
      else if r + g + b <? 450 then (128, 128, 128, 255)
      else (255, 255, 255, 255))%Z)
  /\ optimizeLineArtAggressively out = out.
Proof.
  intros Hlen Hbytes out. subst out.
  assert (Hpixel : forall k r g b a, k < n -> pixelAt data k = (r, g, b, a) ->
     pixelAt (optimizeLineArtAggressively data) k =
     (if a <? 128 then (r, g, b, 0)
      else if r + g + b <? 120 then (0, 0, 0, 255)
      else if r + g + b <? 450 then (128, 128, 128, 255)
      else (255, 255, 255, 255))%Z).
  { intros k r g b a Hk Hpx.
    rewrite (optimizeLineArtAggressively_pixel data n), Hpx by done.
    apply aggressiveLineArtColor_int. }
  split; [apply optimizeLineArtAggressively_length|].
  split; [|split; [exact Hpixel|]].
  - apply (pixels_Forall _ _ n); [by rewrite optimizeLineArtAggressively_length|].
    intros k r g b a Hk Hpx.
    destruct (pixelAt data k) as [[[r0 g0] b0] a0] eqn:Hin.
    assert (Hk4 : 4 * k + 3 < length data) by lia.
    destruct (Forall_pixel _ _ _ _ _ _ _ Hbytes Hk4 Hin) as (Hr & Hg & Hb & Ha).
    rewrite (Hpixel k r0 g0 b0 a0 Hk Hin) in Hpx.
    unfold byte in *.
    destruct (a0 <? 128)%Z; [injection Hpx as <- <- <- <-; lia|].
    destruct (r0 + g0 + b0 <? 120)%Z; [injection Hpx as <- <- <- <-; lia|].
    destruct (r0 + g0 + b0 <? 450)%Z; injection Hpx as <- <- <- <-; lia.
  - apply (pixels_ext _ _ n).
    + by rewrite !optimizeLineArtAggressively_length.
    + by rewrite optimizeLineArtAggressively_length.
    + intros k Hk.
      rewrite (optimizeLineArtAggressively_pixel _ n)
        by (done || by rewrite optimizeLineArtAggressively_length).
      rewrite (optimizeLineArtAggressively_pixel data n) by done.
      apply aggressiveLineArtColor_idem.
Qed.
End LineArtFacts.

Lemma line_art_palette_witness :
  length twoPixels = (4 * 2)%nat /\ Forall byte twoPixels /\
  Forall byte (PNGCompressor.optimizeLineArt twoPixels).
Proof.
  split; [reflexivity|]. split; [exact twoPixels_bytes|].
  exact (proj1 (proj2 (line_art_palette twoPixels 2 eq_refl twoPixels_bytes))).
Defined.

Lemma aggressive_line_art_palette_witness :
  length twoPixels = (4 * 2)%nat /\ Forall byte twoPixels /\
  PNGCompressor.optimizeLineArtAggressively
    (PNGCompressor.optimizeLineArtAggressively twoPixels)
  = PNGCompressor.optimizeLineArtAggressively twoPixels.
Proof.
  split; [reflexivity|]. split; [exact twoPixels_bytes|].
  exact (proj2 (proj2 (proj2 (aggressive_line_art_palette twoPixels 2 eq_refl
                                twoPixels_bytes)))).
Defined.
(** ** The grid of tiles *)

Section TileGridFacts.
Local Open Scope nat_scope.
Implicit Types (w h T x y px py n m : nat) (t : Tile).

Lemma bind_length_const {A B} (f : A -> list B) (l : list A) n :
  (forall a, a ∈ l -> length (f a) = n) -> length (l ≫= f) = length l * n.
Proof.
  induction l as [|a l IH]; intros Hf; [done|].
  rewrite bind_cons, length_app, Hf by (by left).
  rewrite IH; [simpl; lia|]. intros a' Ha'. apply Hf. by right.
Qed.

Lemma simpleTiles_length w h T :
  length (PNGCompressorAdvanced.simpleTiles w h T) = ceilDiv w T * ceilDiv h T.
Proof.
  unfold PNGCompressorAdvanced.simpleTiles. cbv zeta.
  rewrite (bind_length_const _ _ (ceilDiv w T)).
  - rewrite length_seq. lia.
  - intros y _. rewrite (bind_length_const _ _ 1); [rewrite length_seq; lia|done].
Qed.

Lemma TILE_SIZE_cases w h :
  JPEGCompressorAdvanced.TILE_SIZE w h = 512
  \/ JPEGCompressorAdvanced.TILE_SIZE w h = 768
  \/ JPEGCompressorAdvanced.TILE_SIZE w h = 1024.
Proof.
  unfold JPEGCompressorAdvanced.TILE_SIZE.
  destruct (_ || _); [by left|]. destruct (_ || _); [right; by left|right; by right].
Qed.

(** X16.  JPEGCompressorAdvanced.compressWithTiling: the tile edge is
    512, 768 or 1024; the grid has [ceil(width / edge) * ceil(height /
    edge)] tiles; no tile is empty, none is wider or higher than the edge,
    and every tile lies inside the image; and when the image is not
    handed to compressExtremelyLargeImage there are at most 36 tiles and
    at most 30000000 pixels. *)
Theorem tiling_grid_shape (width height : nat) :
  let T := JPEGCompressorAdvanced.TILE_SIZE width height in
  let tiles := JPEGCompressorAdvanced.tilingOrder width height T in
  (T = 512 \/ T = 768 \/ T = 1024)
  /\ length tiles = ceilDiv width T * ceilDiv height T
  /\ (forall t, t ∈ tiles ->
        1 <= tile_width t <= T /\ 1 <= tile_height t <= T /\
        tile_x t + tile_width t <= width /\ tile_y t + tile_height t <= height)
  /\ (JPEGCompressorAdvanced.isExtremelyLarge width height T = false ->
        length tiles <= 36 /\ (Z.of_nat width * Z.of_nat height <= 30000000)%Z).
Proof.
  intros T tiles. subst tiles.
  pose proof (TILE_SIZE_cases width height) as HT. fold T in HT.
  assert (HTpos : 0 < T) by lia. clearbody T.
  rewrite tilingOrder_simpleTiles.
  split; [exact HT|]. split; [apply simpleTiles_length|]. split.
  - intros t Hin. apply simpleTiles_elem in Hin as (x & y & Hx & Hy & ->).
    apply ceilDiv_lt in Hx, Hy; try done.
    unfold tileAt. cbn [tile_x tile_y tile_width tile_height]. lia.
  - unfold JPEGCompressorAdvanced.isExtremelyLarge.
    intros [H36 Hpx]%orb_false_iff.
    apply Nat.ltb_ge in H36. apply Z.ltb_ge in Hpx.
    rewrite simpleTiles_length. split; [done | done].
Qed.
End TileGridFacts.

(** ** The regions of compressExtremelyLargeImage *)

Section RegionFacts.
Local Open Scope nat_scope.
Implicit Types (w h T x y px py n m : nat) (t region : Tile).

Lemma ceil_floor_half n : ceilDiv n 2 + n / 2 = n.
Proof.
  unfold ceilDiv. pose proof (Nat.div_mod_eq n 2).
  pose proof (Nat.mod_upper_bound n 2 ltac:(lia)).
  destruct (Nat.eqb_spec (n mod 2) 0); lia.
Qed.

(** a tile of a region, seen from the region *)
Lemma inTile_region_tile T region x y px py :
  inTile {| tile_x := tile_x region + x * T;
            tile_y := tile_y region + y * T;
            tile_width := Nat.min T (tile_width region - x * T);
            tile_height := Nat.min T (tile_height region - y * T) |} px py
  <-> tile_x region <= px /\ tile_y region <= py /\
      inTile (tileAt (tile_width region) (tile_height region) T x y)
             (px - tile_x region) (py - tile_y region).
Proof. unfold inTile, tileAt. cbn. lia. Qed.

Lemma tilesOfRegion_cover T region px py :
  0 < T ->
  length (filter (fun t => inTile t px py)
            (JPEGCompressorAdvanced.tilesOfRegion T region))
  = if decide (inTile region px py) then 1 else 0.
Proof.
  intros HT. unfold JPEGCompressorAdvanced.tilesOfRegion. cbv zeta.
  destruct (decide (inTile region px py)) as [Hin|Hout].
  - destruct Hin as [[Hx1 Hx2] [Hy1 Hy2]].
    set (qx := px - tile_x region). set (qy := py - tile_y region).
    assert (Hqx : qx < tile_width region) by (subst qx; lia).
    assert (Hqy : qy < tile_height region) by (subst qy; lia).
    pose proof (Nat.div_mod_eq qx T). pose proof (Nat.div_mod_eq qy T).
    rewrite (filter_bind_unique _ _ _ (qy / T)).
    + rewrite (filter_bind_unique _ _ _ (qx / T)).
      * rewrite filter_cons_True; [done|].
        apply inTile_region_tile. split; [done|]. split; [done|].
        by apply inTile_tileAt.
      * apply NoDup_seq.
      * apply elem_of_seq. split; [lia|]. cbn. apply ceilDiv_lt; [done | nia].
      * intros x _ Hne. rewrite filter_cons_False; [done|].
        rewrite inTile_region_tile, inTile_tileAt by done. tauto.
    + apply NoDup_seq.
    + apply elem_of_seq. split; [lia|]. cbn. apply ceilDiv_lt; [done | nia].
    + intros y _ Hne. apply filter_bind_none. intros x _.
      rewrite filter_cons_False; [done|].
      rewrite inTile_region_tile, inTile_tileAt by done. tauto.
  - rewrite filter_bind_none; [done|]. intros y Hy.
    apply filter_bind_none. intros x Hx.
    rewrite filter_cons_False; [done|].
    apply elem_of_seq in Hx, Hy. cbn in Hx, Hy.
    destruct Hx as [_ Hx]. destruct Hy as [_ Hy].
    apply ceilDiv_lt in Hx, Hy; try done.
    intros [[? ?] [? ?]]. cbn in *. apply Hout. unfold inTile. lia.
Qed.

(** X17.  JPEGCompressorAdvanced.compressExtremelyLargeImage: the four
    regions split the image, every pixel lying in exactly one of them;
    the tiles of the regions, at the place where they are drawn on the
    full canvas, lie inside the image, and every pixel of the image lies
    in exactly one of them. *)
Theorem region_tiles_cover (width height T px py : nat) :
  0 < T -> px < width -> py < height ->
  length (filter (fun region => inTile region px py)
            (JPEGCompressorAdvanced.regions width height)) = 1
  /\ length (filter (fun t => inTile t px py)
               (JPEGCompressorAdvanced.regionTiles width height T)) = 1
  /\ (forall t qx qy,
        t ∈ JPEGCompressorAdvanced.regionTiles width height T ->
        inTile t qx qy -> qx < width /\ qy < height).
Proof.
  intros HT Hpx Hpy.
  pose proof (ceil_floor_half width) as Hw.
  pose proof (ceil_floor_half height) as Hh.
  split; [|split].
  - unfold JPEGCompressorAdvanced.regions.
    rewrite !filter_cons, filter_nil.
    repeat case_decide; unfold inTile in *;
      cbn [tile_x tile_y tile_width tile_height length] in *; lia.
  - unfold JPEGCompressorAdvanced.regionTiles, JPEGCompressorAdvanced.regions.
    rewrite 3!bind_cons, bind_singleton, !filter_app, !length_app.
    rewrite !tilesOfRegion_cover by done.
    repeat case_decide; unfold inTile in *;
      cbn [tile_x tile_y tile_width tile_height length] in *; lia.
  - intros t qx qy Hin Ht.
    unfold JPEGCompressorAdvanced.regionTiles in Hin.
    apply list_elem_of_bind in Hin as (region & Hin & Hregion).
    assert (Hcount : length (filter (fun t => inTile t qx qy)
                               (JPEGCompressorAdvanced.tilesOfRegion T region)) <> 0).
    { intros Hzero. apply length_zero_iff_nil in Hzero.
      assert (Hf : t ∈ filter (fun t => inTile t qx qy)
                     (JPEGCompressorAdvanced.tilesOfRegion T region))
        by (by apply list_elem_of_filter).
      rewrite Hzero in Hf. by apply elem_of_nil in Hf. }
    rewrite tilesOfRegion_cover in Hcount by done.
    destruct (decide (inTile region qx qy)) as [Hq|]; [|done].
    unfold JPEGCompressorAdvanced.regions in Hregion.
    repeat (apply elem_of_cons in Hregion as [->|Hregion]);
      try (by apply elem_of_nil in Hregion);
      unfold inTile in Hq; cbn [tile_x tile_y tile_width tile_height] in Hq; lia.
Qed.
End RegionFacts.

Lemma region_tiles_cover_witness :
  (0 < 2)%nat /\ (4 < 5)%nat /\ (2 < 3)%nat /\
  length (filter (fun t => inTile t 4 2)
            (JPEGCompressorAdvanced.regionTiles 5 3 2)) = 1%nat.
Proof.
  split; [lia|]. split; [lia|]. split; [lia|].
  exact (proj1 (proj2 (region_tiles_cover 5 3 2 4 2 ltac:(lia) ltac:(lia) ltac:(lia)))).
Defined.
(** ** Tiles processed in place *)

Section TileProcessing.
Local Open Scope nat_scope.
Context {P : Type}.
Variable blank : P.
Implicit Types (canvas data : list P) (t : Tile) (tiles : list Tile).

Lemma getImageData_length w canvas t :
  length (getImageData blank w canvas t) = tile_width t * tile_height t.
Proof. unfold getImageData. by rewrite length_fmap, length_seq. Qed.

(** the offset in the data of a tile of the cell [k] of the canvas *)
Lemma tile_offset w t k :
  inTile t (k mod w) (k / w) ->
  (k / w - tile_y t) * tile_width t + (k mod w - tile_x t)
  < tile_width t * tile_height t.
Proof. intros [[? ?] [? ?]]. nia. Qed.

Variable process : nat -> nat -> list P -> list P.
Variable g : nat -> nat -> P -> P.
Hypothesis process_nth : forall tw th data n,
  length data = tw * th -> n < tw * th ->
  nth n (process tw th data) blank = g tw th (nth n data blank).

(** one tile taken out, processed and put back *)
Lemma process_tile_nth w canvas t k :
  0 < w -> k < length canvas ->
  nth k (putImageData blank w canvas t
           (process (tile_width t) (tile_height t) (getImageData blank w canvas t)))
      blank =
  if decide (inTile t (k mod w) (k / w))
  then g (tile_width t) (tile_height t) (nth k canvas blank)
  else nth k canvas blank.
Proof using process_nth.
  intros Hw Hk. rewrite putImageData_nth by done.
  destruct (decide (inTile t (k mod w) (k / w))) as [Hin|]; [|done].
  rewrite process_nth;
    [|apply getImageData_length | by apply tile_offset].
  f_equal. destruct Hin as [[Hx1 Hx2] [Hy1 Hy2]].
  pose proof (Nat.mod_upper_bound k w ltac:(lia)).
  rewrite getImageData_nth by lia.
  f_equal. pose proof (Nat.div_mod_eq k w). nia.
Qed.

Lemma processTiles_length w tiles : forall canvas,
  length (processTiles blank process w canvas tiles) = length canvas.
Proof.
  induction tiles as [|t tiles IH]; intros canvas; [done|].
  cbn [processTiles foldl]. unfold processTiles in IH.
  by rewrite IH, putImageData_length.
Qed.

(** when at most one tile holds a cell, the cell is processed as that
    tile is, and left alone when no tile holds it *)
Lemma processTiles_nth w tiles : forall canvas k,
  0 < w -> k < length canvas ->
  length (filter (fun t => inTile t (k mod w) (k / w)) tiles) <= 1 ->
  nth k (processTiles blank process w canvas tiles) blank =
  match filter (fun t => inTile t (k mod w) (k / w)) tiles with
  | t :: _ => g (tile_width t) (tile_height t) (nth k canvas blank)
  | [] => nth k canvas blank
  end.
Proof using process_nth.
  induction tiles as [|t tiles IH]; intros canvas k Hw Hk Hone; [done|].
  cbn [processTiles foldl]. unfold processTiles in IH. cbv zeta.
  rewrite filter_cons in Hone |- *.
  destruct (decide (inTile t (k mod w) (k / w))) as [Hin|Hout].
  - cbn [length] in Hone.
    assert (Hnil : filter (fun t => inTile t (k mod w) (k / w)) tiles = [])
      by (apply length_zero_iff_nil; lia).
    rewrite IH, Hnil by (rewrite ?putImageData_length, ?Hnil; done || simpl; lia).
    rewrite process_tile_nth by done. by rewrite decide_True.
  - rewrite IH by (rewrite ?putImageData_length; done).
    rewrite process_tile_nth by done. by rewrite decide_False.
Qed.
End TileProcessing.

Section PieceFacts.
Local Open Scope nat_scope.
Context {P : Type}.
Variable blank : P.
Implicit Types (canvas data : list P) (t : Tile) (pieces : list (Tile * list P)).

Lemma writeTiles_cons w canvas piece pieces :
  writeTiles blank w canvas (piece :: pieces) =
  writeTiles blank w (putImageData blank w canvas piece.1 piece.2) pieces.
Proof. reflexivity. Qed.

(** no piece holds the cell: it keeps what it held *)
Lemma writeTiles_uncovered w pieces : forall canvas k,
  k < length canvas ->
  (forall piece, piece ∈ pieces -> ~ inTile piece.1 (k mod w) (k / w)) ->
  nth k (writeTiles blank w canvas pieces) blank = nth k canvas blank.
Proof.
  induction pieces as [|piece pieces IH]; intros canvas k Hk Hno; [done|].
  rewrite writeTiles_cons, IH.
  - rewrite putImageData_nth by done.
    rewrite decide_False; [done|]. apply Hno. by left.
  - by rewrite putImageData_length.
  - intros p Hp. apply Hno. by right.
Qed.

(** one piece only holds the cell: the cell gets the pixel of that piece *)
Lemma writeTiles_covered w pieces t data : forall canvas k,
  k < length canvas ->
  (t, data) ∈ pieces -> inTile t (k mod w) (k / w) ->
  (forall piece, piece ∈ pieces -> inTile piece.1 (k mod w) (k / w) ->
     piece = (t, data)) ->
  nth k (writeTiles blank w canvas pieces) blank =
  nth ((k / w - tile_y t) * tile_width t + (k mod w - tile_x t)) data blank.
Proof.
  induction pieces as [|piece pieces IH]; intros canvas k Hk Hin Ht Huniq.
  { by apply elem_of_nil in Hin. }
  rewrite writeTiles_cons.
  destruct (decide (Exists (fun p => inTile p.1 (k mod w) (k / w)) pieces))
    as [Hex|Hnone].
  - apply Exists_exists in Hex as (p & Hp & Hcover).
    assert (p = (t, data)) as -> by (apply Huniq; [by right | done]).
    apply IH; [by rewrite putImageData_length | done | done |].
    intros p' Hp'. apply Huniq. by right.
  - rewrite writeTiles_uncovered.
    + rewrite putImageData_nth by done.
      apply elem_of_cons in Hin as [<-|Hin].
      * by rewrite decide_True.
      * exfalso. apply Hnone. apply Exists_exists. by exists (t, data).
    + by rewrite putImageData_length.
    + intros p Hp Hcover. apply Hnone. apply Exists_exists. by exists p.
Qed.
End PieceFacts.

Section PartialTiling.
Local Open Scope nat_scope.
Context {P : Type}.
Variable blank : P.
Variables (w h T : nat).
Hypothesis HT : 0 < T.

(** X18.  JPEGCompressorAdvanced.compressWithTiling, the reassembly: the
    full canvas first holds the original image, and the tiles whose
    processing succeeded are drawn over it, in the order of the grid.
    Whatever tiles fail, a pixel whose tile succeeded holds the pixel of
    the processed tile, and a pixel whose tile failed holds the original
    pixel. *)
Theorem tiling_keeps_failed_tiles (source : list P)
    (results : Tile -> option (list P)) (px py : nat) :
  length source = w * h -> px < w -> py < h ->
  let pieces :=
    omap (fun t => data ← results t; Some (t, data))
         (JPEGCompressorAdvanced.tilingOrder w h T) in
  let t := tileAt w h T (px / T) (py / T) in
  inTile t px py /\
  nth (py * w + px) (writeTiles blank w source pieces) blank =
  match results t with
  | Some data => nth ((py - tile_y t) * tile_width t + (px - tile_x t)) data blank
  | None => nth (py * w + px) source blank
  end.
Proof using HT.
  intros Hlen Hpx Hpy pieces t. subst pieces.
  rewrite tilingOrder_simpleTiles.
  set (k := py * w + px).
  assert (Hmod : k mod w = px).
  { subst k. rewrite Nat.add_comm, Nat.Div0.mod_add. by apply Nat.mod_small. }
  assert (Hdiv : k / w = py).
  { subst k. rewrite Nat.add_comm, Nat.div_add by lia.
    rewrite Nat.div_small by done. done. }
  assert (Hk : k < length source) by (subst k; nia).
  pose proof (simpleTiles_cover w h T HT px py Hpx Hpy) as Hcover. fold t in Hcover.
  assert (Ht : inTile t px py /\ t ∈ PNGCompressorAdvanced.simpleTiles w h T).
  { apply (list_elem_of_filter (fun t => inTile t px py)).
    rewrite Hcover. by left. }
  destruct Ht as [Ht Hin]. split; [exact Ht|].
  assert (Honly : forall t', t' ∈ PNGCompressorAdvanced.simpleTiles w h T ->
                    inTile t' px py -> t' = t).
  { intros t' Hin' Ht'.
    assert (Hf : t' ∈ filter (fun t => inTile t px py)
                   (PNGCompressorAdvanced.simpleTiles w h T))
      by (by apply list_elem_of_filter).
    rewrite Hcover in Hf. by apply list_elem_of_singleton in Hf. }
  destruct (results t) as [data|] eqn:Hres.
  - rewrite (writeTiles_covered blank w _ t data); rewrite ?Hmod, ?Hdiv; try done.
    + apply list_elem_of_omap. exists t. split; [done|]. by rewrite Hres.
    + intros [t' d'] Hp Hcov. cbn in Hcov.
      apply list_elem_of_omap in Hp as (t0 & Hin0 & Heq).
      destruct (results t0) as [d0|] eqn:Hres0; [|done].
      cbn in Heq. injection Heq as <- <-.
      assert (t0 = t) as -> by (by apply Honly). congruence.
  - rewrite writeTiles_uncovered; [done | done |].
    intros [t' d'] Hp. rewrite Hmod, Hdiv. cbn. intros Hcov.
    apply list_elem_of_omap in Hp as (t0 & Hin0 & Heq).
    destruct (results t0) as [d0|] eqn:Hres0; [|done].
    cbn in Heq. injection Heq as <- <-.
    assert (t0 = t) as -> by (by apply Honly). congruence.
Qed.
End PartialTiling.

Lemma tiling_keeps_failed_tiles_witness :
  let results := fun t : Tile =>
    if (tile_x t =? 0)%nat then Some [7; 7; 7; 7]%nat else None in
  writeTiles 0%nat 3 numbered
    (omap (fun t => data ← results t; Some (t, data))
          (JPEGCompressorAdvanced.tilingOrder 3 2 2))
  = [7; 7; 3; 7; 7; 6]%nat.
Proof.
  intros results. apply (nth_ext _ _ 0%nat 0%nat); [reflexivity|].
  intros k Hk. change (k < 6)%nat in Hk.
  assert (Hcell : forall px py, (px < 3)%nat -> (py < 2)%nat ->
            nth (py * 3 + px)
              (writeTiles 0%nat 3 numbered
                 (omap (fun t => data ← results t; Some (t, data))
                       (JPEGCompressorAdvanced.tilingOrder 3 2 2))) 0%nat
            = match results (tileAt 3 2 2 (px / 2) (py / 2)) with
              | Some data =>
                  nth ((py - tile_y (tileAt 3 2 2 (px / 2) (py / 2)))
                       * tile_width (tileAt 3 2 2 (px / 2) (py / 2))
                       + (px - tile_x (tileAt 3 2 2 (px / 2) (py / 2)))) data 0%nat
              | None => nth (py * 3 + px) numbered 0%nat
              end).
  { intros px py Hpx Hpy.
    assert (HT : (0 < 2)%nat) by lia.
    exact (proj2 (tiling_keeps_failed_tiles 0%nat 3 2 2 HT numbered results
                    px py eq_refl Hpx Hpy)). }
  destruct k as [|[|[|[|[|[|k]]]]]]; [| | | | | |lia].
  - apply (Hcell 0 0)%nat; lia.
  - apply (Hcell 1 0)%nat; lia.
  - apply (Hcell 2 0)%nat; lia.
  - apply (Hcell 0 1)%nat; lia.
  - apply (Hcell 1 1)%nat; lia.
  - apply (Hcell 2 1)%nat; lia.
Defined.
(** ** The canvas-only strategies of PNGCompressorAdvanced, pixel by pixel *)

Section CanvasStrategies.
Local Open Scope nat_scope.
Import PNGCompressorAdvanced.
Implicit Types (pixels : list (Z * Z * Z * Z)) (d : list Z) (k n : nat).

Lemma toBytes_cons p pixels :
  toBytes (p :: pixels) = [p.1.1.1; p.1.1.2; p.1.2; p.2] ++ toBytes pixels.
Proof. by destruct p as [[[r g] b] a]. Qed.

Lemma toBytes_length pixels : length (toBytes pixels) = 4 * length pixels.
Proof.
  induction pixels as [|p pixels IH]; [done|].
  rewrite toBytes_cons, length_app, IH. simpl. lia.
Qed.

Lemma toBytes_pixel pixels : forall k,
  k < length pixels -> pixelAt (toBytes pixels) k = nth k pixels transparent.
Proof.
  induction pixels as [|p pixels IH]; intros k Hk; [simpl in Hk; lia|].
  rewrite toBytes_cons. destruct k as [|k].
  - by destruct p as [[[r g] b] a].
  - cbn [nth]. rewrite <- IH by (simpl in Hk; lia).
    unfold pixelAt.
    replace (4 * S k) with (S (S (S (S (4 * k))))) by lia.
    replace (S (S (S (S (4 * k)))) + 1) with (S (S (S (S (4 * k + 1))))) by lia.
    replace (S (S (S (S (4 * k)))) + 2) with (S (S (S (S (4 * k + 2))))) by lia.
    replace (S (S (S (S (4 * k)))) + 3) with (S (S (S (S (4 * k + 3))))) by lia.
    done.
Qed.

Lemma toPixels_length d n : length d = 4 * n -> length (toPixels d) = n.
Proof.
  intros Hlen. unfold toPixels. rewrite length_fmap, length_seq, Hlen.
  by rewrite Nat.mul_comm, Nat.div_mul.
Qed.

Lemma toPixels_nth d n k :
  length d = 4 * n -> k < n -> nth k (toPixels d) transparent = pixelAt d k.
Proof.
  intros Hlen Hk. unfold toPixels.
  assert (Hn : length d / 4 = n) by (rewrite Hlen, Nat.mul_comm, Nat.div_mul; lia).
  apply nth_lookup_Some. rewrite list_lookup_fmap, lookup_seq_lt by lia. done.
Qed.

(** [optimizeColorsForPNG] on the bytes of a run of pixels *)
Lemma optimized_pixels_nth pixels (width height : nat) k :
  k < length pixels ->
  nth k (toPixels (optimizeColorsForPNG (toBytes pixels) width height)) transparent
  = optimizedPixel (colorPrecisionOf width height) (nth k pixels transparent).
Proof.
  intros Hk.
  rewrite (toPixels_nth _ (length pixels))
    by (done || by rewrite optimizeColorsForPNG_length, toBytes_length).
  rewrite (optimizeColorsForPNG_pixel _ _ _ (length pixels))
    by (done || apply toBytes_length).
  by rewrite toBytes_pixel.
Qed.

Lemma optimizeTile_nth (tw th : nat) pixels k :
  length pixels = tw * th -> k < tw * th ->
  nth k (optimizeTile tw th pixels) transparent
  = optimizedPixel (colorPrecisionOf tw th) (nth k pixels transparent).
Proof. intros Hlen Hk. apply optimized_pixels_nth. lia. Qed.

(** X19.  PNGCompressorAdvanced.compressWithSimpleTiling against
    compressWithSimpleApproach.  Tile by tile, the canvas of
    compressWithSimpleTiling holds at every pixel the pixel of the image
    after the colour optimization at the precision of the tile the pixel
    lies in, which is 16 when the tile has more than 1000000 pixels and 8
    otherwise; the canvas of compressWithSimpleApproach holds it at the
    precision of the whole image.  A full tile of 1024 by 1024 pixels is
    optimized at precision 16, a tile of at most 1000000 pixels at 8: the
    tiles of one image are not all treated alike, and the two strategies
    agree on a pixel exactly when the precisions of its tile and of the
    image give the same pixel. *)
Theorem simple_tiling_pixelwise (width height : nat) (canvas : list (Z * Z * Z * Z))
    (px py : nat) :
  length canvas = width * height -> px < width -> py < height ->
  let k := py * width + px in
  let t := tileAt width height tileSize (px / tileSize) (py / tileSize) in
  inTile t px py
  /\ nth k (tiledCanvas width height canvas) transparent
     = optimizedPixel (colorPrecisionOf (tile_width t) (tile_height t))
         (nth k canvas transparent)
  /\ nth k (optimizedCanvas width height canvas) transparent
     = optimizedPixel (colorPrecisionOf width height) (nth k canvas transparent)
  /\ (tile_width t = 1024 -> tile_height t = 1024 ->
      colorPrecisionOf (tile_width t) (tile_height t) = 16%Z)
  /\ ((Z.of_nat (tile_width t) * Z.of_nat (tile_height t) <= 1000000)%Z ->
      colorPrecisionOf (tile_width t) (tile_height t) = 8%Z).
Proof.
  intros Hlen Hpx Hpy k t.
  assert (HT : 0 < tileSize) by (unfold tileSize; lia).
  assert (Hmod : k mod width = px).
  { subst k. rewrite Nat.add_comm, Nat.Div0.mod_add. by apply Nat.mod_small. }
  assert (Hdiv : k / width = py).
  { subst k. rewrite Nat.add_comm, Nat.div_add by lia.
    rewrite Nat.div_small by done. done. }
  assert (Hk : k < length canvas) by (subst k; nia).
  pose proof (simpleTiles_cover width height tileSize HT px py Hpx Hpy) as Hcover.
  fold t in Hcover.
  assert (Ht : inTile t px py /\ t ∈ simpleTiles width height tileSize).
  { apply (list_elem_of_filter (fun t => inTile t px py)).
    rewrite Hcover. by left. }
  split; [apply Ht|]. split; [|split; [|split]].
  - unfold tiledCanvas.
    rewrite (processTiles_nth transparent optimizeTile
               (fun tw th => optimizedPixel (colorPrecisionOf tw th)));
      rewrite ?Hmod, ?Hdiv, ?Hcover; try done; try lia.
    intros tw th data n. apply optimizeTile_nth.
  - unfold optimizedCanvas. apply optimized_pixels_nth. exact Hk.
  - intros -> ->. reflexivity.
  - intros Hsmall. unfold colorPrecisionOf.
    destruct (Z.ltb_spec 1000000
                (Z.of_nat (tile_width t) * Z.of_nat (tile_height t))); [lia|done].
Qed.
End CanvasStrategies.

Lemma simple_tiling_pixelwise_witness :
  nth 1 (PNGCompressorAdvanced.tiledCanvas 2 1 [(203, 100, 7, 200); (90, 45, 13, 100)])
      PNGCompressorAdvanced.transparent
  = (0, 0, 0, 0).
Proof.
  refine (proj1 (proj2 (simple_tiling_pixelwise 2 1
            [(203, 100, 7, 200); (90, 45, 13, 100)] 1 0 eq_refl _ _))); lia.
Defined.
(** ** The choice of a strategy *)

Section PngRouting.
Context `{Browser}.
Import PNGCompressorAdvanced.
Variable initializeWorkerPool : M unit.
Variables compressLargeImage compressWithDownscaling
          compressWithQualityPreservation compressWithSimpleApproach
          compressWithSimpleTiling : File -> Z -> M CompressedImageResult.

Local Abbreviation compress :=
  (compress initializeWorkerPool compressLargeImage compressWithDownscaling
     compressWithQualityPreservation compressWithSimpleApproach
     compressWithSimpleTiling).

(** the strategy tried first for a file of at most 10MB *)
Local Abbreviation primary file :=
  (if 5 * 1024 * 1024 <? file_size file
   then compressWithDownscaling file
          (if 8 * 1024 * 1024 <? file_size file then 300 * 1024 else 250 * 1024)
   else compressWithQualityPreservation file
          (if 3 * 1024 * 1024 <? file_size file then 250 * 1024 else 200 * 1024)).

Lemma png_compress_above_target file options :
  includes supportedTypes (file_type file) = true ->
  file_size file <= MAX_SIZE ->
  chosenTarget options < file_size file ->
  outcome initializeWorkerPool = Ok tt ->
  outcome (compress file options) =
  if 10 * 1024 * 1024 <? file_size file then
    outcome (compressLargeImage file
               (if 15 * 1024 * 1024 <? file_size file then 400 * 1024 else 300 * 1024))
  else
    match outcome (primary file) with
    | Ok r => Ok r
    | Err e =>
        let target :=
          if 8 * 1024 * 1024 <? file_size file then 300 * 1024
          else if 3 * 1024 * 1024 <? file_size file then 250 * 1024
          else 200 * 1024 in
        match outcome (if mentionsWorker e
                       then compressWithSimpleApproach file target
                       else compressWithSimpleTiling file target) with
        | Ok r => Ok r
        | Err _ => Err StrategyFailed
        end
    end.
Proof.
  intros Htype Hmax Habove Hinit. unfold PNGCompressorAdvanced.compress.
  rewrite Htype. cbn [negb].
  destruct (Z.ltb_spec MAX_SIZE (file_size file)); [lia|].
  destruct (Z.leb_spec (file_size file) (chosenTarget options)); [lia|].
  rewrite outcome_bind, Hinit.
  unfold TARGET_SIZE_BASE.
  destruct (Z.ltb_spec (10 * 1024 * 1024) (file_size file)).
  { destruct (Z.ltb_spec (15 * 1024 * 1024) (file_size file)); [done|].
    destruct (Z.ltb_spec (8 * 1024 * 1024) (file_size file)); [done | lia]. }
  destruct (Z.ltb_spec (15 * 1024 * 1024) (file_size file)); [lia|].
  rewrite outcome_try_catch.
  destruct (Z.ltb_spec (5 * 1024 * 1024) (file_size file)).
  - destruct (Z.ltb_spec (8 * 1024 * 1024) (file_size file)).
    + destruct (outcome (compressWithDownscaling _ _)) as [r|e]; [done|].
      rewrite outcome_try_catch.
      by destruct (outcome (if mentionsWorker e then _ else _)).
    + destruct (Z.ltb_spec (3 * 1024 * 1024) (file_size file)); [|lia].
      destruct (outcome (compressWithDownscaling _ _)) as [r|e]; [done|].
      rewrite outcome_try_catch.
      by destruct (outcome (if mentionsWorker e then _ else _)).
  - destruct (Z.ltb_spec (8 * 1024 * 1024) (file_size file)); [lia|].
    destruct (Z.ltb_spec (3 * 1024 * 1024) (file_size file)).
    + destruct (outcome (compressWithQualityPreservation _ _)) as [r|e]; [done|].
      rewrite outcome_try_catch.
      by destruct (outcome (if mentionsWorker e then _ else _)).
    + destruct (outcome (compressWithQualityPreservation _ _)) as [r|e]; [done|].
      rewrite outcome_try_catch.
      by destruct (outcome (if mentionsWorker e then _ else _)).
Qed.

(** X20.  PNGCompressorAdvanced.compress, for a PNG file of at most 50MB
    that is above the chosen target, once the worker pool is there.  The
    [targetSize] of the options plays no part any more: the whole run is
    the same for any two options that leave the file above the target.
    Above 10MB the outcome is that of compressLargeImage, at a target of
    300KB or 400KB, errors included: there is no fallback.  Up to 10MB
    the result of the first strategy is returned when it succeeds, and
    the only error that can come out is the one raised after the fallback
    has failed too. *)
Theorem png_compress_routing file options :
  includes supportedTypes (file_type file) = true ->
  file_size file <= MAX_SIZE ->
  chosenTarget options < file_size file ->
  outcome initializeWorkerPool = Ok tt ->
  (forall options', chosenTarget options' < file_size file ->
     compress file options' = compress file options)
  /\ (10 * 1024 * 1024 < file_size file ->
      exists target, (target = 300 * 1024 \/ target = 400 * 1024) /\
        outcome (compress file options) = outcome (compressLargeImage file target))
  /\ (file_size file <= 10 * 1024 * 1024 ->
      (forall r, outcome (primary file) = Ok r ->
         outcome (compress file options) = Ok r)
      /\ (forall e, outcome (compress file options) = Err e -> e = StrategyFailed)).
Proof.
  intros Htype Hmax Habove Hinit. split; [|split].
  - intros options' Habove'. unfold PNGCompressorAdvanced.compress.
    destruct (negb _); [done|].
    destruct (MAX_SIZE <? file_size file); [done|].
    destruct (Z.leb_spec (file_size file) (chosenTarget options)); [lia|].
    by destruct (Z.leb_spec (file_size file) (chosenTarget options')); [lia|].
  - intros Hlarge. rewrite png_compress_above_target by done.
    destruct (Z.ltb_spec (10 * 1024 * 1024) (file_size file)); [|lia].
    eexists. split; [|done]. destruct (_ <? _); auto.
  - intros Hsmall. rewrite png_compress_above_target by done.
    destruct (Z.ltb_spec (10 * 1024 * 1024) (file_size file)); [lia|].
    split.
    + by intros r ->.
    + intros e. destruct (outcome (primary file)) as [r|e0]; [done|].
      cbv zeta.
      destruct (outcome (if mentionsWorker e0 then _ else _)); [done|].
      by intros [= <-].
Qed.
End PngRouting.

Section JpegRouting.
Context `{Browser}.
Import JPEGCompressorAdvanced.
Variables compressWithTiling compressWithWorker
  : File -> Z -> M CompressedImageResult.

Local Abbreviation compress := (compress compressWithTiling compressWithWorker).

End JpegRouting.

Lemma png_compress_routing_witness :
  outcome (PNGCompressorAdvanced.compress (ret tt) failingStrategy echoStrategy
             failingStrategy failingStrategy failingStrategy largePng None)
  = Ok (@Build_CompressedImageResult pictureBrowser (6000000, ramp) tt 0.5%Q).
Proof.
  refine (proj1 (proj2 (proj2 (png_compress_routing (ret tt) failingStrategy
            echoStrategy failingStrategy failingStrategy failingStrategy
            largePng None eq_refl _ _ eq_refl)) _) _ eq_refl);
    vm_compute; congruence.
Defined.

(** ** The size of the canvas of JPEGCompressor *)

Section CanvasSizeFacts.
Context `{Browser}.

(** the double [side * (2000 / longest)] is within [2 ^ -40] of the exact
    scaled length [e] *)
Lemma scaled_side_close (side longest : Z) (e : Q) :
  0 <= side <= longest -> 3000 < longest < 2 ^ 32 ->
  (e * inject_Z longest == inject_Z (2000 * side))%Q ->
  let d := double (inject_Z side * double (2000 / inject_Z longest)) in
  (e - (1 # 2 ^ 40) <= d <= e + (1 # 2 ^ 40))%Q.
Proof.
  intros Hside Hlong He d. subst d.
  assert (HL : (0 < inject_Z longest)%Q) by (apply inject_Z_pos; lia).
  assert (HL' : (inject_Z longest <= 4294967296)%Q).
  { change 4294967296%Q with (inject_Z 4294967296). rewrite <- Zle_Qle. lia. }
  set (x := (2000 / inject_Z longest)%Q).
  assert (Hx : (x * inject_Z longest == 2000)%Q) by (subst x; field; lra).
  assert (Hx1 : (1 # 4294967296 <= x)%Q).
  { subst x. apply Qle_shift_div_l; [done | lra]. }
  assert (Hx2 : (x <= 1)%Q).
  { subst x. apply Qle_shift_div_r; [done|].
    assert (3000 <= inject_Z longest)%Q; [|lra].
    change 3000%Q with (inject_Z 3000). rewrite <- Zle_Qle. lia. }
  assert (Hnormal : (2 ^ (-1022) <= 1 # 8589934592)%Q)
    by (apply Qle_bool_iff; by vm_compute).
  destruct (double_error x) as [Hc1 Hc2]; [lra | lra |].
  unfold unitRoundoff in Hc1, Hc2.
  set (c := double x) in *.
  assert (Hs : (0 <= inject_Z side)%Q).
  { change 0%Q with (inject_Z 0). rewrite <- Zle_Qle. lia. }
  assert (Hex : (e == inject_Z side * x)%Q).
  { apply (Qmult_inj_r _ _ (inject_Z longest)); [lra|].
    rewrite He, inject_Z_mult, <- Qmult_assoc, Hx.
    change (inject_Z 2000) with 2000%Q. ring. }
  assert (He0 : (0 <= e)%Q).
  { rewrite Hex. apply Qmult_le_0_compat; lra. }
  assert (He2000 : (e <= 2000)%Q).
  { assert (Hle : (inject_Z side * x <= inject_Z longest * x)%Q).
    { apply Qmult_le_compat_r; [|lra]. rewrite <- Zle_Qle. lia. }
    rewrite Hex. rewrite (Qmult_comm (inject_Z longest)), Hx in Hle. exact Hle. }
  destruct (decide (side = 0)) as [->|Hne].
  { rewrite double_0 by (change (inject_Z 0) with 0%Q; ring).
    assert (e == 0)%Q as ->
      by (rewrite Hex; change (inject_Z 0) with 0%Q; ring).
    split; by vm_compute. }
  assert (Hs1 : (1 <= inject_Z side)%Q).
  { change 1%Q with (inject_Z 1). rewrite <- Zle_Qle. lia. }
  assert (Hp1 : (inject_Z side * (x * (1 - (1 # 9007199254740992)))
                 <= inject_Z side * c)%Q)
    by (rewrite !(Qmult_comm (inject_Z side)); apply Qmult_le_compat_r; lra).
  assert (Hp2 : (inject_Z side * c
                 <= inject_Z side * (x * (1 + (1 # 9007199254740992))))%Q)
    by (rewrite !(Qmult_comm (inject_Z side)); apply Qmult_le_compat_r; lra).
  assert (Hpc : (c <= inject_Z side * c)%Q).
  { assert (Hc0 : (0 <= c)%Q) by lra.
    assert (Hm : (1 * c <= inject_Z side * c)%Q)
      by (apply Qmult_le_compat_r; lra).
    lra. }
  set (p := (inject_Z side * c)%Q) in *.
  assert (E1 : (inject_Z side * (x * (1 - (1 # 9007199254740992)))
                == e * (1 - (1 # 9007199254740992)))%Q) by (rewrite Hex; ring).
  assert (E2 : (inject_Z side * (x * (1 + (1 # 9007199254740992)))
                == e * (1 + (1 # 9007199254740992)))%Q) by (rewrite Hex; ring).
  rewrite E1 in Hp1. rewrite E2 in Hp2.
  destruct (double_error p) as [Hd1 Hd2]; [lra | lra |].
  unfold unitRoundoff in Hd1, Hd2.
  change (1 # 2 ^ 40)%Q with (1 # 1099511627776)%Q.
  split; lra.
Qed.

(** [Math.round(side * scale)] is an integer nearest to the exact scaled
    length [2000 * side / longest] *)
Lemma scaled_side_near (side longest : Z) :
  0 <= side <= longest -> 3000 < longest < 2 ^ 32 ->
  let k := Math_round (double (inject_Z side * double (2000 / inject_Z longest))) in
  2 * Z.abs (k * longest - 2000 * side) <= longest.
Proof.
  intros Hside Hlong k.
  assert (HL : (0 < inject_Z longest)%Q) by (apply inject_Z_pos; lia).
  assert (HL' : (inject_Z longest <= 4294967296)%Q).
  { change 4294967296%Q with (inject_Z 4294967296). rewrite <- Zle_Qle. lia. }
  set (e := (inject_Z (2000 * side) / inject_Z longest)%Q).
  assert (He : (e * inject_Z longest == inject_Z (2000 * side))%Q)
    by (subst e; field; lra).
  pose proof (scaled_side_close side longest e Hside Hlong He) as [Hd1 Hd2].
  cbv zeta in Hd1, Hd2. change (1 # 2 ^ 40)%Q with (1 # 1099511627776)%Q in *.
  subst k. unfold Math_round.
  set (d := double (inject_Z side * double (2000 / inject_Z longest))) in *.
  pose proof (Qfloor_le (d + (1 # 2))) as Hk1.
  pose proof (Qlt_floor (d + (1 # 2))) as Hk2.
  rewrite inject_Z_plus in Hk2. change (inject_Z 1) with 1%Q in Hk2.
  set (k := Qfloor (d + (1 # 2))) in *.
  assert (H1 : ((inject_Z k - (1 # 2) - (1 # 1099511627776)) * inject_Z longest
                <= e * inject_Z longest)%Q)
    by (apply Qmult_le_compat_r; lra).
  assert (H2 : (e * inject_Z longest
                <= (inject_Z k + (1 # 2) + (1 # 1099511627776)) * inject_Z longest)%Q)
    by (apply Qmult_le_compat_r; lra).
  rewrite He in H1, H2.
  assert (EkL : (inject_Z k * inject_Z longest == inject_Z (k * longest))%Q)
    by (by rewrite inject_Z_mult).
  set (kL := (inject_Z k * inject_Z longest)%Q) in *.
  assert (E1 : ((inject_Z k - (1 # 2) - (1 # 1099511627776)) * inject_Z longest
                == kL - (1 # 2) * inject_Z longest
                   - (1 # 1099511627776) * inject_Z longest)%Q)
    by (subst kL; ring).
  assert (E2 : ((inject_Z k + (1 # 2) + (1 # 1099511627776)) * inject_Z longest
                == kL + (1 # 2) * inject_Z longest
                   + (1 # 1099511627776) * inject_Z longest)%Q)
    by (subst kL; ring).
  rewrite E1 in H1. rewrite E2 in H2. rewrite EkL in H1, H2.
  assert (Z1 : 2 * (k * longest) < 2 * (2000 * side) + 1 + longest).
  { rewrite Zlt_Qlt, !inject_Z_plus, !inject_Z_mult.
    rewrite !inject_Z_mult in H1.
    change (inject_Z 2) with 2%Q. change (inject_Z 1) with 1%Q.
    lra. }
  assert (Z2 : 2 * (2000 * side) < 2 * (k * longest) + longest + 1).
  { rewrite Zlt_Qlt, !inject_Z_plus, !inject_Z_mult.
    rewrite !inject_Z_mult in H2.
    change (inject_Z 2) with 2%Q. change (inject_Z 1) with 1%Q.
    lra. }
  lia.
Qed.

(** X22.  JPEGCompressor.compress, the size of the canvas.  The image is
    drawn at its own size unless the file is above 5MB and a side is above
    3000 pixels; then, for sides below [2 ^ 32] (the range of the width
    and height of an image element), the longest side becomes exactly
    2000 pixels, the other side is an integer nearest to its scaled length
    (so it is between 0 and 2000 and the proportions are kept up to the
    rounding), and it is 0 when the side is shorter than a 4000th of the
    longest one.  The scale and the products are doubles: when the scaled
    length lies halfway between two integers the rounding of the doubles
    decides which of the two is taken. *)
Theorem canvas_size_scaling (file : File) (img : Image) (w' h' : Z) :
  let width := image_width img in
  let height := image_height img in
  let longest := Z.max width height in
  0 <= width < 2 ^ 32 -> 0 <= height < 2 ^ 32 ->
  JPEGCompressor.canvasSize file img = (w', h') ->
  (file_size file <= 5 * 1024 * 1024 \/ (width <= 3000 /\ height <= 3000) ->
     (w', h') = (width, height))
  /\ (5 * 1024 * 1024 < file_size file -> 3000 < width \/ 3000 < height ->
      Z.max w' h' = 2000 /\ 0 <= w' <= 2000 /\ 0 <= h' <= 2000 /\
      2 * Z.abs (w' * longest - 2000 * width) <= longest /\
      2 * Z.abs (h' * longest - 2000 * height) <= longest /\
      (4000 * width < longest -> w' = 0) /\
      (4000 * height < longest -> h' = 0)).
Proof.
  intros width height longest Hw Hh Hsize.
  unfold JPEGCompressor.canvasSize in Hsize.
  fold width height in Hsize. split.
  - intros Hsmall.
    destruct (Z.ltb_spec (5 * 1024 * 1024) (file_size file)); cbn [andb] in Hsize;
      [|by injection Hsize as <- <-].
    destruct (Z.ltb_spec 3000 width); [lia|].
    destruct (Z.ltb_spec 3000 height); [lia|].
    by injection Hsize as <- <-.
  - intros Hbig Hside.
    destruct (Z.ltb_spec (5 * 1024 * 1024) (file_size file)); [|lia].
    cbn [andb] in Hsize.
    assert (Hor : (3000 <? width) || (3000 <? height) = true).
    { apply orb_true_iff. rewrite !Z.ltb_lt. exact Hside. }
    rewrite Hor in Hsize. fold longest in Hsize. cbv zeta in Hsize.
    assert (Hlong : 3000 < longest < 2 ^ 32) by (subst longest; lia).
    assert (Hwle : 0 <= width <= longest) by (subst longest; lia).
    assert (Hhle : 0 <= height <= longest) by (subst longest; lia).
    assert (Hmax : width = longest \/ height = longest) by (subst longest; lia).
    pose proof (scaled_side_near width longest Hwle Hlong) as Hnw.
    pose proof (scaled_side_near height longest Hhle Hlong) as Hnh.
    cbv zeta in Hnw, Hnh. injection Hsize as <- <-.
    set (kw := Math_round _) in *. set (kh := Math_round _) in *.
    clearbody kw kh longest. clear Hor Hside.
    repeat split; nia.
Qed.
End CanvasSizeFacts.

Lemma canvas_size_scaling_witness :
  @JPEGCompressor.canvasSize panoramaBrowser panoramaFile heavy = (2000, 62)
  /\ 2 * Z.abs (62 * 3168 - 2000 * 99) <= 3168.
Proof.
  split; [by vm_compute|].
  assert (Hw : 0 <= 3168 < 2 ^ 32) by lia.
  assert (Hh : 0 <= 99 < 2 ^ 32) by lia.
  assert (Hsize : @JPEGCompressor.canvasSize panoramaBrowser panoramaFile heavy
                  = (2000, 62)) by (by vm_compute).
  assert (Hbig : 5 * 1024 * 1024 < 6000000) by lia.
  assert (Hside : 3000 < 3168 \/ 3000 < 99) by lia.
  exact (proj1 (proj2 (proj2 (proj2 (proj2
           (proj2 (@canvas_size_scaling panoramaBrowser panoramaFile heavy
                     2000 62 Hw Hh Hsize) Hbig Hside)))))).
Defined.

(** ** The counters of the classifier *)

Section TallyFacts.
Local Open Scope nat_scope.
Import PNGCompressor.
Implicit Types (t : Tally) (v n : nat).

Lemma size_add_color (key : Z * Z * Z) (X : gset (Z * Z * Z)) :
  size ({[ key ]} ∪ X) <= S (size X).
Proof.
  destruct (decide (key ∈ X)) as [Hin|Hout].
  - rewrite (subseteq_union_1_L {[ key ]} X) by (by apply singleton_subseteq_l). lia.
  - rewrite size_union by (by apply disjoint_singleton_l).
    rewrite size_singleton. lia.
Qed.

Lemma visit_tallied data sampleSize stride t y x v :
  tallied v t -> tallied (S v) (visit data sampleSize stride t y x).
Proof.
  unfold tallied, counted. intros (Hc & He & Hu & Ht). unfold visit. cbv zeta.
  set (alpha := data !!! ((y * sampleSize + x) * 4 + 3)).
  pose proof (size_add_color
                ((data !!! ((y * sampleSize + x) * 4)%nat / 5)%Z,
                 (data !!! ((y * sampleSize + x) * 4 + 1)%nat / 5)%Z,
                 (data !!! ((y * sampleSize + x) * 4 + 2)%nat / 5)%Z)
                (uniqueColors t)) as Hsize.
  destruct (alpha <? 255)%Z; destruct (alpha =? 0)%Z; cbn [andb];
    repeat match goal with
           | |- context [if ?c then _ else _] => destruct c
           end;
    repeat match goal with
           | |- context [bucketOf ?r ?g ?b] => destruct (bucketOf r g b)
           end;
    cbn; lia.
Qed.

Lemma foldl_tallied {A} (f : Tally -> A -> Tally) (step : nat) (l : list A) :
  (forall v t a, tallied v t -> tallied (v + step) (f t a)) ->
  forall v t, tallied v t -> tallied (v + length l * step) (foldl f t l).
Proof.
  intros Hf. induction l as [|a l IH]; intros v t Ht; cbn [foldl length].
  - by rewrite Nat.add_0_r.
  - replace (v + S (length l) * step) with (v + step + length l * step) by lia.
    apply IH. by apply Hf.
Qed.

Lemma scan_tallied data sampleSize stride :
  let n := length (strides sampleSize stride) in
  tallied (n * n) (scan data sampleSize stride).
Proof.
  intros n. unfold scan.
  replace (n * n) with (0 + length (strides sampleSize stride) * n)
    by (subst n; lia).
  apply foldl_tallied.
  - intros v t y Ht.
    replace (v + n) with (v + n * 1) by lia.
    apply (foldl_tallied _ 1); [|done].
    intros v' t' x Ht'. replace (v' + 1) with (S v') by lia.
    by apply visit_tallied.
  - unfold tallied, counted. cbn. rewrite size_empty. lia.
Qed.

Lemma strides_length_exact sampleSize stride :
  0 < stride -> sampleSize mod stride = 0 ->
  length (strides sampleSize stride) = sampleSize / stride.
Proof.
  intros Hs Hmod. unfold strides. rewrite length_fmap, length_seq.
  pose proof (Nat.div_mod_eq sampleSize stride) as Hdm.
  rewrite Hmod, Nat.add_0_r in Hdm.
  replace (sampleSize + stride - 1) with (stride - 1 + sampleSize / stride * stride)
    by nia.
  rewrite Nat.div_add by lia. rewrite Nat.div_small by lia. done.
Qed.

Lemma ratio_nonneg count total : (0 <= ratio count total)%Q.
Proof.
  unfold ratio. destruct total as [|total].
  - unfold Qdiv, Qinv. cbn. rewrite Qmult_0_r. apply Qle_refl.
  - apply Qle_shift_div_l.
    + change 0%Q with (inject_Z 0). rewrite <- Zlt_Qlt. lia.
    + rewrite Qmult_0_l. change 0%Q with (inject_Z 0). rewrite <- Zle_Qle. lia.
Qed.

Lemma ratio_le_1 count total :
  0 < total -> count <= total -> (ratio count total <= 1)%Q.
Proof.
  intros Ht Hc. unfold ratio. apply Qle_shift_div_r.
  - change 0%Q with (inject_Z 0). rewrite <- Zlt_Qlt. lia.
  - rewrite Qmult_1_l, <- Zle_Qle. lia.
Qed.

Lemma ratio_plus a b total :
  (ratio a total + ratio b total == ratio (a + b) total)%Q.
Proof.
  unfold ratio. rewrite Nat2Z.inj_add, inject_Z_plus.
  unfold Qdiv. ring.
Qed.

(** X23.  PNGCompressor.analyzeImageType, the counters.  The two loops
    visit [ceil(sampleSize / stride)] squared samples, while the ratios
    are taken against [floor(sampleSize / stride)] squared; edges and
    colours are only counted on samples that were put in a bucket.  So
    when the stride divides the sample size (as it does for every image
    whose sides are at least 300 pixels, where the sample is 300 wide and
    the stride 6) every ratio lies between 0 and 1, and the black-white
    and gray ratios add up to at most 1. *)
Theorem classifier_ratios_bounded (data : list Z) (sampleSize : nat) :
  0 < sampleSize ->
  sampleSize mod Nat.max 1 (sampleSize / 50) = 0 ->
  let m := derivedRatios data sampleSize in
  (0 <= colorRatio m <= 1)%Q /\ (0 <= edgeRatio m <= 1)%Q /\
  (0 <= blackWhiteRatio m)%Q /\ (0 <= grayRatio m)%Q /\
  (blackWhiteRatio m + grayRatio m <= 1)%Q.
Proof.
  intros Hs Hmod m. subst m. unfold derivedRatios. cbv zeta.
  cbn [colorRatio edgeRatio blackWhiteRatio grayRatio].
  set (stride := Nat.max 1 (sampleSize / 50)) in *.
  assert (Hstride : 0 < stride) by (subst stride; lia).
  pose proof (scan_tallied data sampleSize stride) as Htally. cbv zeta in Htally.
  rewrite strides_length_exact in Htally by done.
  set (n := sampleSize / stride) in *.
  assert (Hn : 0 < n * n).
  { assert (0 < n); [|nia]. subst n.
    pose proof (Nat.div_mod_eq sampleSize stride). nia. }
  destruct Htally as (Hc & He & Hu & Ht). unfold counted in *.
  repeat split; try apply ratio_nonneg.
  - apply ratio_le_1; [done | lia].
  - apply ratio_le_1; [done | lia].
  - rewrite ratio_plus. apply ratio_le_1; [done | lia].
Qed.
End TallyFacts.

Lemma classifier_ratios_bounded_witness :
  (0 < 2)%nat /\ (2 mod Nat.max 1 (2 / 50) = 0)%nat /\
  (PNGCompressor.blackWhiteRatio (PNGCompressor.derivedRatios checker2 2)
   + PNGCompressor.grayRatio (PNGCompressor.derivedRatios checker2 2) <= 1)%Q.
Proof.
  split; [lia|]. split; [reflexivity|].
  refine (proj2 (proj2 (proj2 (proj2
            (classifier_ratios_bounded checker2 2 _ eq_refl))))). lia.
Defined.
(** ** The ladders of the workers *)

Section MozJPEGWorkerFacts.
Import MozJPEGWorker.
Variables Data Url : Type.
Variable byteLength : Data -> Z.
Variables encodeTuned encodePlain : Z -> option Data.
Variable blobToDataURL : Data -> option Url.
Variable targetSize : Z.

Local Abbreviation tryProgressive :=
  (tryProgressive Data byteLength encodeTuned targetSize).
Local Abbreviation compressProgressive :=
  (compressProgressive Data Url byteLength encodeTuned encodePlain blobToDataURL).
Local Abbreviation tunedTooLarge := (tunedTooLarge Data byteLength encodeTuned targetSize).

(** one level of the loop, with nothing recorded yet *)
Lemma tryProgressive_step (quality : Q) (rest : list Q) :
  tryProgressive (quality :: rest) MIN_QUALITY None =
  match encodeTuned (Math_round (quality * 100)) with
  | None => None
  | Some compressedData =>
      if byteLength compressedData <=? targetSize then
        if PNGCompressor.Qltb MIN_QUALITY quality
        then Some (quality, Some compressedData)
        else Some (MIN_QUALITY, None)
      else tryProgressive rest MIN_QUALITY None
  end.
Proof.
  cbn [MozJPEGWorker.tryProgressive].
  destruct (encodeTuned _) as [d|]; [|done].
  destruct (byteLength d <=? targetSize); cbn [andb]; [|done].
  by destruct (PNGCompressor.Qltb MIN_QUALITY quality).
Qed.

(** X24.  public/js/jpeg/mozjpeg-worker.js, the "compressProgressive"
    handler.  A result at quality 0.7, 0.5 or 0.3 is the tuned encoding at
    that quality, it is within the target, and the tuned encodings at the
    higher levels were above it.  Any other result is at quality 0.1, and
    it is never the tuned encoding that the loop made at that level: the
    comparison [quality > bestQuality] fails there, so the loop records
    nothing even when that encoding is within the target, and the data
    are encoded once more with the short settings, whose size is not
    checked against the target. *)
Theorem progressive_ladder (data : Data) (url : Url) (quality : Q) :
  compressProgressive targetSize = Some (data, url, quality) ->
  blobToDataURL data = Some url /\
  ((quality = 0.7%Q /\ encodeTuned 70 = Some data /\ byteLength data <= targetSize)
   \/ (quality = 0.5%Q /\ encodeTuned 50 = Some data /\ byteLength data <= targetSize
       /\ tunedTooLarge 70)
   \/ (quality = 0.3%Q /\ encodeTuned 30 = Some data /\ byteLength data <= targetSize
       /\ tunedTooLarge 70 /\ tunedTooLarge 50)
   \/ (quality = 0.1%Q /\ encodePlain 10 = Some data
       /\ tunedTooLarge 70 /\ tunedTooLarge 50 /\ tunedTooLarge 30
       /\ is_Some (encodeTuned 10))).
Proof.
  unfold MozJPEGWorker.compressProgressive, qualityLevels.
  rewrite tryProgressive_step.
  change (Math_round (0.7 * 100)) with 70.
  change (PNGCompressor.Qltb MIN_QUALITY 0.7) with true.
  destruct (encodeTuned 70) as [d70|] eqn:H70; [|done].
  destruct (Z.leb_spec (byteLength d70) targetSize) as [Hfit|Hbig].
  { destruct (blobToDataURL d70) eqn:Hurl; [|done].
    intros [= <- <- <-]. split; [done|]. by left. }
  assert (T70 : tunedTooLarge 70) by (by exists d70).
  rewrite tryProgressive_step.
  change (Math_round (0.5 * 100)) with 50.
  change (PNGCompressor.Qltb MIN_QUALITY 0.5) with true.
  destruct (encodeTuned 50) as [d50|] eqn:H50; [|done].
  destruct (Z.leb_spec (byteLength d50) targetSize) as [Hfit|Hbig50].
  { destruct (blobToDataURL d50) eqn:Hurl; [|done].
    intros [= <- <- <-]. split; [done|]. right; left. done. }
  assert (T50 : tunedTooLarge 50) by (by exists d50).
  rewrite tryProgressive_step.
  change (Math_round (0.3 * 100)) with 30.
  change (PNGCompressor.Qltb MIN_QUALITY 0.3) with true.
  destruct (encodeTuned 30) as [d30|] eqn:H30; [|done].
  destruct (Z.leb_spec (byteLength d30) targetSize) as [Hfit|Hbig30].
  { destruct (blobToDataURL d30) eqn:Hurl; [|done].
    intros [= <- <- <-]. split; [done|]. right; right; left. done. }
  assert (T30 : tunedTooLarge 30) by (by exists d30).
  rewrite tryProgressive_step.
  change (Math_round (0.1 * 100)) with 10.
  change (PNGCompressor.Qltb MIN_QUALITY 0.1) with false.
  change (Math_round (MIN_QUALITY * 100)) with 10.
  destruct (encodeTuned 10) as [d10|] eqn:H10; [|done].
  assert (Hlast : match encodePlain 10 with
                  | Some compressedData =>
                      match blobToDataURL compressedData with
                      | Some dataUrl => Some (compressedData, dataUrl, MIN_QUALITY)
                      | None => None
                      end
                  | None => None
                  end = Some (data, url, quality) ->
                  blobToDataURL data = Some url /\
                  quality = 0.1%Q /\ encodePlain 10 = Some data).
  { destruct (encodePlain 10) as [d|]; [|done].
    destruct (blobToDataURL d) eqn:Hurl; [|done]. by intros [= <- <- <-]. }
  destruct (byteLength d10 <=? targetSize); cbn [MozJPEGWorker.tryProgressive];
    intros Hres; destruct (Hlast Hres) as (Hurl & -> & Hplain);
    (split; [done|]); right; right; right; by repeat split.
Qed.
End MozJPEGWorkerFacts.

Section OxipngWorkerFacts.
Import OxipngWorker.
Variables OutBlob Url : Type.
Variable size : OutBlob -> Z.
Variable convertToBlob : Q -> option OutBlob.
Variable blobToDataURL : OutBlob -> option Url.
Variable targetSize : Z.

Local Abbreviation tryLevels :=
  (tryLevels OutBlob Url size convertToBlob blobToDataURL targetSize).
Local Abbreviation compressPng :=
  (compressPng OutBlob Url size convertToBlob blobToDataURL).
Local Abbreviation skipped :=
  (skipped OutBlob Url size convertToBlob blobToDataURL targetSize).

Lemma tryLevels_found (levels : list Q) blob url quality :
  tryLevels levels = Some (blob, url, quality) ->
  convertToBlob quality = Some blob /\ size blob <= targetSize /\
  blobToDataURL blob = Some url /\
  exists before after,
    levels = before ++ quality :: after /\ Forall skipped before.
Proof.
  induction levels as [|q levels IH]; [done|]. cbn [OxipngWorker.tryLevels].
  assert (Hrest : tryLevels levels = Some (blob, url, quality) -> skipped q ->
            convertToBlob quality = Some blob /\ size blob <= targetSize /\
            blobToDataURL blob = Some url /\
            exists before after,
              q :: levels = before ++ quality :: after /\ Forall skipped before).
  { intros Hfound Hskip.
    destruct (IH Hfound) as (Hc & Hs & Hu & before & after & -> & Hall).
    split; [done|]. split; [done|]. split; [done|].
    exists (q :: before), after. split; [done|]. by constructor. }
  destruct (convertToBlob q) as [b|] eqn:Hq.
  - destruct (Z.leb_spec (size b) targetSize) as [Hfit|Hbig].
    + destruct (blobToDataURL b) as [u|] eqn:Hu.
      * intros [= <- <- <-]. split; [done|]. split; [done|]. split; [done|].
        by exists [], levels.
      * intros Hfound. apply Hrest; [done|].
        unfold OxipngWorker.skipped. by rewrite Hq.
    + intros Hfound. apply Hrest; [done|].
      unfold OxipngWorker.skipped. rewrite Hq. lia.
  - intros Hfound. apply Hrest; [done|].
    unfold OxipngWorker.skipped. by rewrite Hq.
Qed.

Lemma tryLevels_none (levels : list Q) :
  tryLevels levels = None -> Forall skipped levels.
Proof.
  induction levels as [|q levels IH]; [constructor|].
  cbn [OxipngWorker.tryLevels]. unfold OxipngWorker.skipped at 1.
  destruct (convertToBlob q) as [b|] eqn:Hq.
  - destruct (Z.leb_spec (size b) targetSize) as [Hfit|Hbig].
    + destruct (blobToDataURL b) as [u|] eqn:Hu; [done|].
      intros Hnone. constructor; [|by apply IH].
      unfold OxipngWorker.skipped. by rewrite Hq.
    + intros Hnone. constructor; [|by apply IH].
      unfold OxipngWorker.skipped. rewrite Hq. lia.
  - intros Hnone. constructor; [|by apply IH].
    unfold OxipngWorker.skipped. by rewrite Hq.
Qed.

(** X25.  public/js/png/oxipng-worker.js, the "compressPng" handler that
    compressWithPngEncoder calls.  The result is the encoding at the
    quality it names.  Either it is within the target, and it comes from
    the first level of 0.8, 0.6, 0.4, 0.2, 0.1 that the loop does not pass
    over (a level is passed over when its encoding throws, is above the
    target, or cannot be turned into a data URL); or it is above the
    target, and then it is the encoding at quality 0.1, made once more
    after the loop has passed over every level. *)
Theorem png_worker_ladder (blob : OutBlob) (url : Url) (quality : Q) :
  compressPng targetSize = Some (blob, url, quality) ->
  convertToBlob quality = Some blob /\ blobToDataURL blob = Some url /\
  ((size blob <= targetSize /\
    exists before after,
      qualityLevels = before ++ quality :: after /\ Forall skipped before)
   \/ (targetSize < size blob /\ quality = 0.1%Q /\ Forall skipped qualityLevels)).
Proof.
  unfold OxipngWorker.compressPng.
  destruct (tryLevels qualityLevels) as [[[b u] q]|] eqn:Hloop.
  - intros [= <- <- <-].
    destruct (tryLevels_found _ _ _ _ Hloop)
      as (Hc & Hs & Hu & before & after & Heq & Hall).
    split; [done|]. split; [done|]. left. split; [done|]. by exists before, after.
  - pose proof (tryLevels_none _ Hloop) as Hall.
    destruct (convertToBlob 0.1) as [b|] eqn:Hc; [|done].
    destruct (blobToDataURL b) as [u|] eqn:Hu; [|done].
    intros [= <- <- <-]. split; [done|]. split; [done|]. right.
    split; [|done].
    assert (Hlast : skipped 0.1%Q).
    { rewrite Forall_forall in Hall. apply Hall. unfold qualityLevels.
      rewrite !elem_of_cons. tauto. }
    unfold OxipngWorker.skipped in Hlast. rewrite Hc in Hlast.
    destruct (Z_le_gt_dec (size b) targetSize) as [Hle|Hgt]; [|lia].
    rewrite (Hlast Hle) in Hu. done.
Qed.
End OxipngWorkerFacts.

Lemma progressive_ladder_witness :
  MozJPEGWorker.compressProgressive Z unit (fun d => d)
    (fun q => Some (q * 1000)) (fun q => Some 99999) (fun _ => Some tt) 20000
  = Some (99999, tt, 0.1%Q) /\
  MozJPEGWorker.tunedTooLarge Z (fun d => d) (fun q => Some (q * 1000)) 20000 70.
Proof.
  split; [reflexivity|].
  destruct (progressive_ladder Z unit (fun d => d) (fun q => Some (q * 1000))
              (fun q => Some 99999) (fun _ => Some tt) 20000 99999 tt 0.1%Q eq_refl)
    as [_ [(Hq & _)|[(Hq & _)|[(Hq & _)|(_ & _ & Hbig & _)]]]];
    [discriminate Hq | discriminate Hq | discriminate Hq | exact Hbig].
Defined.

Lemma png_worker_ladder_witness :
  OxipngWorker.compressPng Z unit (fun b => b)
    (fun q => Some (Qfloor (q * 100000))) (fun _ => Some tt) 50000
  = Some (40000, tt, 0.4%Q) /\
  (40000 <= 50000).
Proof.
  split; [reflexivity|].
  destruct (png_worker_ladder Z unit (fun b => b)
              (fun q => Some (Qfloor (q * 100000))) (fun _ => Some tt) 50000
              40000 tt 0.4%Q eq_refl) as (_ & _ & [[Hfit _]|[Hbig _]]).
  - exact Hfit.
  - lia.
Defined.
(** ** The strategies of PNGCompressor *)

Section StrategyFacts.
Context `{Browser}.
Import PNGCompressor.
Variable imageData : Image -> option (list Z).
Variable canvasWith : Image -> list Z -> Canvas.

Lemma outcome_emit {A} ev (m : M A) : outcome (emit ev ;; m) = outcome m.
Proof. by rewrite outcome_bind. Qed.

Lemma outcome_lift {A B} e (o : option A) (k : A -> M B) :
  outcome (lift e o ≫= k) = match o with Some a => outcome (k a) | None => Err e end.
Proof. rewrite outcome_bind. by destruct o. Qed.

Lemma reducedTo_true size originalSize ratio :
  reducedTo size originalSize ratio = true <->
  (inject_Z size <= inject_Z originalSize * ratio)%Q.
Proof.
  unfold reducedTo. destruct (Qlt_le_dec _ _) as [Hlt|Hle]; split; try done.
  intros Hle. exfalso. apply (Qlt_not_le _ _ Hlt Hle).
Qed.

Lemma reducedTo_false size originalSize ratio :
  reducedTo size originalSize ratio = false <->
  (inject_Z originalSize * ratio < inject_Z size)%Q.
Proof.
  unfold reducedTo. destruct (Qlt_le_dec _ _) as [Hlt|Hle]; split; try done.
  intros Hlt. exfalso. apply (Qlt_not_le _ _ Hlt Hle).
Qed.

(** what a ladder comes to: the first level whose encoding is within the
    limit, or nothing when every level is above it; it fails only when
    the encoder does *)
Lemma tryQualities_spec canvas originalSize ratio levels :
  match outcome (tryQualities canvas originalSize ratio levels) with
  | Ok (Some r) =>
      encodingOf canvas r /\
      (inject_Z (blob_size (blob r)) <= inject_Z originalSize * ratio)%Q /\
      exists before after,
        levels = before ++ quality r :: after /\
        Forall (notReduced canvas originalSize ratio) before
  | Ok None => Forall (notReduced canvas originalSize ratio) levels
  | Err e => e = CanvasToBlobFailed
  end.
Proof.
  induction levels as [|q levels IH]; [constructor|].
  cbn [tryQualities]. rewrite outcome_bind, canvasToBlob_eq. cbn [outcome snd].
  destruct (toBlob Png canvas q) as [b|] eqn:Hb; [|done].
  destruct (reducedTo (blob_size b) originalSize ratio) eqn:Hred.
  - cbn. split; [by split|]. split; [by apply reducedTo_true|].
    by exists [], levels.
  - assert (Hq : notReduced canvas originalSize ratio q).
    { exists b. split; [done|]. by apply reducedTo_false. }
    destruct (outcome (tryQualities canvas originalSize ratio levels))
      as [[r|]|e]; [|by constructor|done].
    destruct IH as (Henc & Hle & before & after & -> & Hall).
    split; [done|]. split; [done|].
    exists (q :: before), after. split; [done|]. by constructor.
Qed.

Lemma lastResort_spec canvas q :
  match outcome (lastResort canvas q) with
  | Ok r => encodingOf canvas r /\ quality r = q
  | Err e => e = CanvasToBlobFailed
  end.
Proof.
  unfold lastResort. rewrite outcome_bind, canvasToBlob_eq. cbn [outcome snd].
  destruct (toBlob Png canvas q) as [b|] eqn:Hb; [|done].
  cbn. by repeat split.
Qed.

(** a colour reduction, a ladder against a first limit, the same ladder
    against a second limit, and a last resort *)
Lemma two_ladders (reduce : list Z -> list Z) (levels : list Q)
    (first second last : Q) (img : Image) (originalSize : Z) :
  let run :=
    emit (EvDraw (image_width img) (image_height img)) ;;
    data ← lift NoCanvasContext (imageData img);
    emit EvQuantize ;;
    let canvas := canvasWith img (reduce data) in
    found ← tryQualities canvas originalSize first levels;
    match found with
    | Some r => ret r
    | None =>
        found ← tryQualities canvas originalSize second levels;
        match found with
        | Some r => ret r
        | None => lastResort canvas last
        end
    end in
  match outcome run with
  | Ok r =>
      exists data, imageData img = Some data /\
        let canvas := canvasWith img (reduce data) in
        encodingOf canvas r /\
        ((quality r ∈ levels /\
          (inject_Z (blob_size (blob r)) <= inject_Z originalSize * first)%Q)
         \/ (quality r ∈ levels /\
             (inject_Z (blob_size (blob r)) <= inject_Z originalSize * second)%Q /\
             Forall (notReduced canvas originalSize first) levels)
         \/ (quality r = last /\
             Forall (notReduced canvas originalSize first) levels /\
             Forall (notReduced canvas originalSize second) levels))
  | Err e => e = NoCanvasContext \/ e = CanvasToBlobFailed
  end.
Proof.
  intros run. subst run. rewrite outcome_emit, outcome_lift.
  destruct (imageData img) as [data|] eqn:Hdata; [|by left].
  rewrite outcome_emit. cbv zeta. rewrite outcome_bind.
  pose proof (tryQualities_spec (canvasWith img (reduce data)) originalSize first
                levels) as H1.
  destruct (outcome (tryQualities _ _ first levels)) as [[r|]|e]; [| |by right].
  { cbn. destruct H1 as (Henc & Hle & before & after & -> & Hall).
    exists data. split; [done|]. split; [done|]. left. split; [|done].
    apply elem_of_app. right. by left. }
  rewrite outcome_bind.
  pose proof (tryQualities_spec (canvasWith img (reduce data)) originalSize second
                levels) as H2.
  destruct (outcome (tryQualities _ _ second levels)) as [[r|]|e]; [| |by right].
  { cbn. destruct H2 as (Henc & Hle & before & after & Heq & Hall).
    exists data. split; [done|]. split; [done|]. right; left.
    split; [|done]. rewrite Heq. apply elem_of_app. right. by left. }
  pose proof (lastResort_spec (canvasWith img (reduce data)) last) as H3.
  destruct (outcome (lastResort _ last)) as [r|e]; [|by right].
  destruct H3 as [Henc Hq].
  exists data. split; [done|]. split; [done|]. right; right. done.
Qed.

(** X26.  PNGCompressor.compressPhotographicPNG and compressGraphicalPNG.
    A result is the encoding, at the quality it names, of the canvas that
    holds the image after the colour reduction (level 4, level 8).  It
    comes from the first ladder when a level brings the size down to 85%
    (80%) of the original, from the second ladder when none does and a
    level brings it down to 95% (90%), and otherwise it is the encoding at
    the lowest quality of the ladder, 0.4 (0.5), whatever its size: the
    result can be larger than the original file, and the 200KB target of
    the compressor plays no part.  The only errors are a canvas without
    context and a failed encoding. *)
Theorem photographic_and_graphical_strategies (img : Image) (originalSize : Z) :
  match outcome (compressPhotographicPNG imageData canvasWith img originalSize) with
  | Ok r =>
      exists data, imageData img = Some data /\
        let canvas := canvasWith img (reduceColorsForPhotographic data) in
        let levels := [0.8; 0.7; 0.6; 0.5; 0.4]%Q in
        encodingOf canvas r /\
        ((quality r ∈ levels /\
          (inject_Z (blob_size (blob r)) <= inject_Z originalSize * 0.85)%Q)
         \/ (quality r ∈ levels /\
             (inject_Z (blob_size (blob r)) <= inject_Z originalSize * 0.95)%Q /\
             Forall (notReduced canvas originalSize 0.85) levels)
         \/ (quality r = 0.4%Q /\
             Forall (notReduced canvas originalSize 0.85) levels /\
             Forall (notReduced canvas originalSize 0.95) levels))
  | Err e => e = NoCanvasContext \/ e = CanvasToBlobFailed
  end
  /\ match outcome (compressGraphicalPNG imageData canvasWith img originalSize) with
     | Ok r =>
         exists data, imageData img = Some data /\
           let canvas := canvasWith img (reduceColorsForGraphical data) in
           let levels := [0.9; 0.8; 0.7; 0.6; 0.5]%Q in
           encodingOf canvas r /\
           ((quality r ∈ levels /\
             (inject_Z (blob_size (blob r)) <= inject_Z originalSize * 0.8)%Q)
            \/ (quality r ∈ levels /\
                (inject_Z (blob_size (blob r)) <= inject_Z originalSize * 0.9)%Q /\
                Forall (notReduced canvas originalSize 0.8) levels)
            \/ (quality r = 0.5%Q /\
                Forall (notReduced canvas originalSize 0.8) levels /\
                Forall (notReduced canvas originalSize 0.9) levels))
     | Err e => e = NoCanvasContext \/ e = CanvasToBlobFailed
     end.
Proof.
  split.
  - exact (two_ladders reduceColorsForPhotographic [0.8; 0.7; 0.6; 0.5; 0.4]%Q
             0.85 0.95 0.4 img originalSize).
  - exact (two_ladders reduceColorsForGraphical [0.9; 0.8; 0.7; 0.6; 0.5]%Q
             0.8 0.9 0.5 img originalSize).
Qed.

(** X27.  PNGCompressor.compressLineArt.  A result is the encoding, at
    the quality it names, of the canvas after optimizeLineArt, within 60%
    of the original size; or, when no level of 0.7, 0.5, 0.3, 0.2, 0.1
    brings that canvas down to 60%, of the canvas after
    optimizeLineArtAggressively applied on top of optimizeLineArt: within
    60% at one of the levels, or else at quality 0.1 whatever its size.
    The only errors are a canvas without context and a failed encoding. *)
Theorem line_art_strategy (img : Image) (originalSize : Z) :
  match outcome (compressLineArt imageData canvasWith img originalSize) with
  | Ok r =>
      exists data, imageData img = Some data /\
        let levels := [0.7; 0.5; 0.3; 0.2; 0.1]%Q in
        let gentle := canvasWith img (optimizeLineArt data) in
        let aggressive :=
          canvasWith img (optimizeLineArtAggressively (optimizeLineArt data)) in
        (encodingOf gentle r /\ quality r ∈ levels /\
         (inject_Z (blob_size (blob r)) <= inject_Z originalSize * 0.6)%Q)
        \/ (encodingOf aggressive r /\
            Forall (notReduced gentle originalSize 0.6) levels /\
            ((quality r ∈ levels /\
              (inject_Z (blob_size (blob r)) <= inject_Z originalSize * 0.6)%Q)
             \/ (quality r = 0.1%Q /\
                 Forall (notReduced aggressive originalSize 0.6) levels)))
  | Err e => e = NoCanvasContext \/ e = CanvasToBlobFailed
  end.
Proof.
  unfold compressLineArt. rewrite outcome_emit, outcome_lift.
  destruct (imageData img) as [data|] eqn:Hdata; [|by left].
  rewrite outcome_emit. cbv zeta. rewrite outcome_bind.
  pose proof (tryQualities_spec (canvasWith img (optimizeLineArt data)) originalSize
                0.6 [0.7; 0.5; 0.3; 0.2; 0.1]%Q) as H1.
  destruct (outcome (tryQualities (canvasWith img (optimizeLineArt data)) _ _ _))
    as [[r|]|e]; [| |by right].
  { cbn. destruct H1 as (Henc & Hle & before & after & Heq & Hall).
    exists data. split; [done|]. left. split; [done|]. split; [|done].
    rewrite Heq. apply elem_of_app. right. by left. }
  rewrite outcome_emit, outcome_bind.
  pose proof (tryQualities_spec
                (canvasWith img (optimizeLineArtAggressively (optimizeLineArt data)))
                originalSize 0.6 [0.7; 0.5; 0.3; 0.2; 0.1]%Q) as H2.
  destruct (outcome (tryQualities
                       (canvasWith img (optimizeLineArtAggressively
                                          (optimizeLineArt data))) _ _ _))
    as [[r|]|e]; [| |by right].
  { cbn. destruct H2 as (Henc & Hle & before & after & Heq & Hall).
    exists data. split; [done|]. right. split; [done|]. split; [done|]. left.
    split; [|done]. rewrite Heq. apply elem_of_app. right. by left. }
  pose proof (lastResort_spec
                (canvasWith img (optimizeLineArtAggressively (optimizeLineArt data)))
                0.1) as H3.
  destruct (outcome (lastResort _ _)) as [r|e]; [|by right].
  destruct H3 as [Henc Hq].
  exists data. split; [done|]. right. split; [done|]. split; [done|]. by right.
Qed.
End StrategyFacts.

(** ** The remaining properties at concrete inputs *)

Lemma quality_preservation_throw_hangs_witness :
  exists t,
    PNGCompressorAdvanced.qualityPreservationStep 8
      (idlePool, PNGCompressorAdvanced.qualityPreservationTask
                   {| PNGCompressorAdvanced.worker_id := 0;
                      PNGCompressorAdvanced.busy := true;
                      PNGCompressorAdvanced.lastUsed := 7 |})
      PNGCompressorAdvanced.BlobThrows = Some (idlePool, t) /\
    PNGCompressorAdvanced.promise t = PNGCompressorAdvanced.Pending.
Proof.
  destruct (proj1 (quality_preservation_throw_hangs 8 idlePool
                     {| PNGCompressorAdvanced.worker_id := 0;
                        PNGCompressorAdvanced.busy := true;
                        PNGCompressorAdvanced.lastUsed := 7 |}))
    as (t & Hstep & Hpending & _).
  by exists t.
Defined.

Lemma timer_outlives_result_witness :
  exists t,
    PNGCompressorAdvanced.runTask (PNGCompressorAdvanced.pngEncoderStep 8)
      (idlePool, PNGCompressorAdvanced.pngEncoderTask
                   {| PNGCompressorAdvanced.worker_id := 0;
                      PNGCompressorAdvanced.busy := true;
                      PNGCompressorAdvanced.lastUsed := 7 |})
      [PNGCompressorAdvanced.BlobPosted; PNGCompressorAdvanced.WorkerResult]
    = Some (PNGCompressorAdvanced.releaseWorker 8 0 idlePool, t) /\
    PNGCompressorAdvanced.timerArmed t = true.
Proof.
  destruct (timer_outlives_result 8 idlePool
              {| PNGCompressorAdvanced.worker_id := 0;
                 PNGCompressorAdvanced.busy := true;
                 PNGCompressorAdvanced.lastUsed := 7 |})
    as (t & Hrun & _ & Harmed & _).
  by exists t.
Defined.

Lemma tiling_grid_shape_witness :
  JPEGCompressorAdvanced.TILE_SIZE 4500 3100 = 768%nat /\
  length (JPEGCompressorAdvanced.tilingOrder 4500 3100
            (JPEGCompressorAdvanced.TILE_SIZE 4500 3100))
  = (ceilDiv 4500 (JPEGCompressorAdvanced.TILE_SIZE 4500 3100)
     * ceilDiv 3100 (JPEGCompressorAdvanced.TILE_SIZE 4500 3100))%nat.
Proof.
  split; [reflexivity|].
  exact (proj1 (proj2 (tiling_grid_shape 4500 3100))).
Defined.

Lemma photographic_and_graphical_strategies_witness :
  exists r,
    outcome (@PNGCompressor.compressPhotographicPNG pictureBrowser twoPixelData
               sameCanvas ramp 100000) = Ok r /\
    quality r = 0.4%Q /\
    @PNGCompressor.encodingOf pictureBrowser
      (sameCanvas ramp (PNGCompressor.reduceColorsForPhotographic twoPixels)) r.
Proof.
  pose proof (proj1 (@photographic_and_graphical_strategies pictureBrowser
                       twoPixelData sameCanvas ramp 100000)) as Hx.
  destruct (outcome (@PNGCompressor.compressPhotographicPNG pictureBrowser
                       twoPixelData sameCanvas ramp 100000)) as [r|e] eqn:Hrun;
    [|discriminate Hrun].
  exists r. split; [reflexivity|].
  injection Hrun as <-. split; [reflexivity|].
  destruct Hx as (data & Hdata & Henc & _).
  injection Hdata as <-. exact Henc.
Defined.

Lemma line_art_strategy_witness :
  exists r,
    outcome (@PNGCompressor.compressLineArt pictureBrowser twoPixelData
               sameCanvas heavy 100000) = Ok r /\
    quality r = 0.1%Q /\
    @PNGCompressor.encodingOf pictureBrowser
      (sameCanvas heavy
         (PNGCompressor.optimizeLineArtAggressively
            (PNGCompressor.optimizeLineArt twoPixels))) r.
Proof.
  pose proof (@line_art_strategy pictureBrowser twoPixelData sameCanvas heavy 100000)
    as Hx.
  destruct (outcome (@PNGCompressor.compressLineArt pictureBrowser
                       twoPixelData sameCanvas heavy 100000)) as [r|e] eqn:Hrun;
    [|discriminate Hrun].
  exists r. split; [reflexivity|].
  injection Hrun as <-. split; [reflexivity|].
  destruct Hx as (data & Hdata & [(_ & _ & Hle)|(Henc & _)]).
  - exfalso. vm_compute in Hle. by apply Hle.
  - injection Hdata as <-. exact Henc.
Defined.

(** ** The tile canvas of compressWithTiling *)

Section TileCanvasFacts.
Import JPEGCompressorAdvanced.
Local Open Scope nat_scope.
Context {P : Type}.
Variable blank : P.
Variables workerImage localImage : nat -> nat -> list P -> list P.
Implicit Types (c : TileCanvas (P:=P)) (t : Tile) (batch : list Tile)
  (img data : list P).

Lemma putImageData_whole w h canvas data :
  length canvas = w * h -> length data = w * h ->
  putImageData blank w canvas (wholeTile w h) data = data.
Proof.
  intros Hc Hd. apply (nth_ext _ _ blank blank).
  { by rewrite putImageData_length, Hc, Hd. }
  intros k Hk. rewrite putImageData_length in Hk.
  rewrite putImageData_nth by done. rewrite Hc in Hk.
  assert (Hw : 0 < w) by nia.
  pose proof (Nat.mod_upper_bound k w ltac:(lia)) as Hx.
  assert (Hy : k / w < h) by (apply Nat.Div0.div_lt_upper_bound; lia).
  rewrite decide_True by (unfold inTile, wholeTile; cbn; lia).
  cbn. f_equal. pose proof (Nat.div_mod_eq k w). nia.
Qed.

Lemma getImageData_whole w h data :
  length data = w * h ->
  getImageData blank w data (wholeTile w h) = data.
Proof.
  intros Hd. apply (nth_ext _ _ blank blank).
  { by rewrite getImageData_length, Hd. }
  intros k Hk. rewrite getImageData_length in Hk. cbn in Hk.
  assert (Hw : 0 < w) by nia.
  pose proof (Nat.mod_upper_bound k w ltac:(lia)) as Hx.
  assert (Hy : k / w < h) by (apply Nat.Div0.div_lt_upper_bound; lia).
  pose proof (Nat.div_mod_eq k w) as Hk'.
  pose proof (getImageData_nth blank w data (wholeTile w h) (k / w) (k mod w))
    as Hget.
  cbn [wholeTile tile_x tile_y tile_width tile_height] in Hget.
  replace (k / w * w + k mod w) with k in Hget by lia.
  replace ((0 + k / w) * w + (0 + k mod w)) with k in Hget by lia.
  apply Hget; lia.
Qed.

Lemma canvasOf_filled w img t : filled (canvasOf blank w img t).
Proof. unfold filled, canvasOf. cbn. by rewrite getImageData_length. Qed.

Lemma newCanvas_filled w h : filled (newCanvas blank w h).
Proof. unfold filled, newCanvas. cbn. by rewrite length_replicate. Qed.

(** whatever the tile canvas held, after a tile is drawn it has the size
    of the tile and holds the tile's part of the image *)
Lemma drawTile_canvasOf w img t c :
  filled c -> drawTile blank w img t c = canvasOf blank w img t.
Proof.
  intros Hc. unfold drawTile.
  set (c' := if decide _ then c else _).
  assert (Hc' : tileCanvas_width c' = tile_width t /\
                tileCanvas_height c' = tile_height t /\ filled c').
  { subst c'. destruct (decide _) as [[-> ->]|_]; [done|].
    split; [done|]. split; [done|]. apply newCanvas_filled. }
  destruct Hc' as (Hw & Hh & Hfill). unfold filled in Hfill.
  cbv zeta. rewrite Hw, Hh in *. unfold canvasOf. f_equal.
  rewrite putImageData_whole; [done| |].
  - by rewrite putImageData_length.
  - by rewrite getImageData_length.
Qed.

(** a tile read from the canvas on which it has just been drawn *)
Lemma readTileCanvas_own w img t :
  readTileCanvas blank (canvasOf blank w img t) (tile_width t) (tile_height t)
  = getImageData blank w img t.
Proof.
  unfold readTileCanvas, canvasOf. cbn.
  apply getImageData_whole. by rewrite getImageData_length.
Qed.

(** the batch loop reads every tile as the image has it, and leaves the
    last tile on the canvas *)
Lemma drawBatch_spec w img batch : forall c read,
  filled c ->
  foldl (fun '(c, read) t =>
           let c := drawTile blank w img t c in
           (c, read ++ [(t, readTileCanvas blank c (tile_width t) (tile_height t))]))
        (c, read) batch
  = (from_option (canvasOf blank w img) c (last batch),
     read ++ cutTiles blank w img batch).
Proof.
  induction batch as [|t batch IH]; intros c read Hc.
  { cbn. by rewrite app_nil_r. }
  cbn [foldl]. cbv zeta. rewrite drawTile_canvasOf by done.
  rewrite readTileCanvas_own.
  rewrite IH by apply canvasOf_filled.
  f_equal.
  - rewrite last_cons. by destruct (last batch).
  - unfold cutTiles. by rewrite <- app_assoc.
Qed.

Lemma drawBatch_filled w img batch c :
  filled c -> filled (from_option (canvasOf blank w img) c (last batch)).
Proof.
  intros Hc. destruct (last batch); [apply canvasOf_filled | done].
Qed.

Lemma settleTile_piece w img outcome lastTile t :
  settleTile blank workerImage localImage outcome (canvasOf blank w img lastTile)
    (t, getImageData blank w img t)
  = settledPiece blank workerImage localImage w img outcome lastTile t.
Proof. unfold settleTile, settledPiece. by destruct (outcome t). Qed.

(** one batch draws the pieces of [batchPieces] on the full canvas *)
Lemma runBatch_spec w img outcome c fullCanvas batch :
  filled c ->
  runBatch blank workerImage localImage w img outcome (c, fullCanvas) batch
  = (from_option (canvasOf blank w img) c (last batch),
     writeTiles blank w fullCanvas
       (batchPieces blank workerImage localImage w img outcome batch)).
Proof.
  intros Hc. unfold runBatch, drawBatch. rewrite drawBatch_spec by done.
  cbn [app]. f_equal. f_equal. unfold batchPieces.
  destruct (last batch) as [lastTile|] eqn:Hlast.
  - cbn [from_option]. unfold cutTiles.
    clear Hlast. induction batch as [|t batch IH]; [done|].
    cbn [fmap list_fmap omap list_omap]. rewrite settleTile_piece.
    by rewrite IH.
  - apply last_None in Hlast as ->. done.
Qed.

Lemma writeTiles_app w canvas (pieces1 pieces2 : list (Tile * list P)) :
  writeTiles blank w canvas (pieces1 ++ pieces2)
  = writeTiles blank w (writeTiles blank w canvas pieces1) pieces2.
Proof. unfold writeTiles. apply foldl_app. Qed.

Lemma runBatches_spec w img outcome (batches : list (list Tile)) :
  forall c fullCanvas,
  filled c ->
  (foldl (runBatch blank workerImage localImage w img outcome)
         (c, fullCanvas) batches).2
  = writeTiles blank w fullCanvas
      (batches ≫= batchPieces blank workerImage localImage w img outcome).
Proof.
  induction batches as [|batch batches IH]; intros c fullCanvas Hc; [done|].
  cbn [foldl]. rewrite runBatch_spec by done.
  rewrite IH by (by apply drawBatch_filled).
  by rewrite bind_cons, writeTiles_app.
Qed.

(** the full canvas of [compressWithTiling]: the image, with the pieces
    of the batches drawn over it *)
Lemma tiledFullCanvas_pieces w h T img outcome :
  tiledFullCanvas blank workerImage localImage w h T img outcome
  = writeTiles blank w img
      (tilingBatches w h T
         ≫= batchPieces blank workerImage localImage w img outcome).
Proof.
  unfold tiledFullCanvas. apply runBatches_spec, newCanvas_filled.
Qed.

Lemma join_bind {A B : Type} (f : A -> list (list B)) (l : list A) :
  mjoin (l ≫= f) = l ≫= (fun a => mjoin (f a)).
Proof.
  induction l as [|a l IH]; [done|]. by rewrite !bind_cons, join_app, IH.
Qed.

Lemma fmap_bind_singleton {A B : Type} (g : A -> B) (l : list A) :
  g <$> l = l ≫= (fun a => [g a]).
Proof.
  induction l as [|a l IH]; [done|]. by rewrite fmap_cons, bind_cons, IH.
Qed.

(** the batches, one after the other, are the tiles in the order of the
    grid *)
Lemma tilingBatches_order w h T :
  mjoin (tilingBatches w h T) = tilingOrder w h T.
Proof.
  unfold tilingBatches, tilingOrder. cbv zeta.
  rewrite join_bind. apply list_bind_ext; [|done]. intros y.
  rewrite join_bind. apply list_bind_ext; [|done]. intros x.
  cbn [mjoin list_join]. rewrite app_nil_r. apply fmap_bind_singleton.
Qed.

End TileCanvasFacts.

Section UntouchedTiles.
Import JPEGCompressorAdvanced.
Local Open Scope nat_scope.
Context {P : Type}.
Variable blank : P.

(** every piece of a batch holds the rectangle of its own tile when the
    tiles are left as they are and none but the last tile of the batch
    falls back late *)
Lemma batchPieces_own w img outcome batch :
  (forall t, t ∈ batch -> outcome t = LocalLater -> last batch = Some t) ->
  Forall (fun piece => piece.2 = getImageData blank w img piece.1)
         (batchPieces blank untouched untouched w img outcome batch).
Proof.
  intros Hlate. unfold batchPieces.
  destruct (last batch) as [lastTile|] eqn:Hlast; [|done].
  apply Forall_forall. intros piece Hin.
  apply list_elem_of_omap in Hin as (t & Ht & Hpiece).
  unfold settledPiece, untouched in Hpiece.
  destruct (outcome t) eqn:Hout.
  - by injection Hpiece as <-.
  - by injection Hpiece as <-.
  - injection Hpiece as <-. cbn [fst snd].
    specialize (Hlate t Ht Hout). injection Hlate as <-.
    apply getImageData_whole. by rewrite getImageData_length.
  - discriminate Hpiece.
Qed.

(** pieces that hold their own rectangles, drawn over the image, leave
    the image as it is *)
Lemma writeTiles_own w h img (pieces : list (Tile * list P)) :
  length img = w * h ->
  Forall (fun piece => piece.2 = getImageData blank w img piece.1) pieces ->
  writeTiles blank w img pieces = img.
Proof.
  intros Hlen Hown. apply (nth_ext _ _ blank blank).
  { apply writeTiles_length. }
  intros k Hk. rewrite writeTiles_length in Hk.
  assert (Hw : 0 < w) by nia.
  rewrite (writeTiles_nth blank w img) by done.
  by destruct (decide (Exists _ pieces)).
Qed.

Lemma tiledFullCanvas_untouched w h T img outcome :
  length img = w * h ->
  (forall batch t, batch ∈ tilingBatches w h T -> t ∈ batch ->
     outcome t = LocalLater -> last batch = Some t) ->
  tiledFullCanvas blank untouched untouched w h T img outcome = img.
Proof.
  intros Hlen Hlate. rewrite tiledFullCanvas_pieces.
  apply (writeTiles_own w h); [done|].
  apply Forall_forall. intros piece Hin.
  apply list_elem_of_bind in Hin as (batch & Hin & Hbatch).
  pose proof (batchPieces_own w img outcome batch (fun t => Hlate batch t Hbatch)) as Hown.
  rewrite Forall_forall in Hown. by apply Hown.
Qed.
End UntouchedTiles.

(** C5, the code at the failing input.  As long as no tile but the last
    of its batch is handed to [processTileLocally] late (after a
    "tileError", a failed load of the worker's image, or the 5 s timer),
    the full canvas of [compressWithTiling] is the image again when the
    tiles are left as they are, whatever tiles give no image.  An image
    of 1025 by 1 pixels is cut into two tiles of one batch, 1024 and 1
    pixels wide.  When the worker reports an error for the first tile,
    [processTileLocally] reads the tile canvas after the second tile has
    been drawn on it: the canvas is then 1 pixel wide and holds the last
    pixel of the image, and the first tile is drawn back as that pixel
    followed by 1023 transparent ones. *)
Theorem late_fallback_draws_wrong_tile :
  (forall (P : Type) (blank : P) w h T (img : list P) outcome,
     length img = (w * h)%nat ->
     (forall batch t, batch ∈ JPEGCompressorAdvanced.tilingBatches w h T ->
        t ∈ batch -> outcome t = JPEGCompressorAdvanced.LocalLater ->
        last batch = Some t) ->
     JPEGCompressorAdvanced.tiledFullCanvas blank untouched untouched
       w h T img outcome = img) /\
  JPEGCompressorAdvanced.TILE_SIZE 1025 1 = 1024%nat /\
  JPEGCompressorAdvanced.isExtremelyLarge 1025 1 1024 = false /\
  JPEGCompressorAdvanced.tilingBatches 1025 1 1024
  = [[ {| tile_x := 0; tile_y := 0; tile_width := 1024; tile_height := 1 |};
       {| tile_x := 1024; tile_y := 0; tile_width := 1; tile_height := 1 |} ]] /\
  JPEGCompressorAdvanced.tiledFullCanvas 0%nat untouched untouched
    1025 1 1024 stripImage leftTileFails
  = (1025 :: replicate 1023 0 ++ [1025])%nat /\
  JPEGCompressorAdvanced.tiledFullCanvas 0%nat untouched untouched
    1025 1 1024 stripImage leftTileFails <> stripImage.
Proof.
  split; [intros; by apply tiledFullCanvas_untouched|].
  split; [by vm_compute|]. split; [by vm_compute|].
  assert (Hbatches :
    JPEGCompressorAdvanced.tilingBatches 1025 1 1024
    = [[ {| tile_x := 0; tile_y := 0; tile_width := 1024; tile_height := 1 |};
         {| tile_x := 1024; tile_y := 0; tile_width := 1; tile_height := 1 |} ]])
    by (by vm_compute).
  split; [exact Hbatches|].
  rewrite tiledFullCanvas_pieces, Hbatches.
  split; [by vm_compute|].
  intros Heq. apply (f_equal (fun l => nth 0 l 0%nat)) in Heq.
  vm_compute in Heq. discriminate Heq.
Qed.

(** ** Calls of getWorker that overlap *)

Section OverlappingCalls.
Import PNGCompressorAdvanced.
Local Open Scope nat_scope.
Implicit Types (pool : list PooledWorker) (w : PooledWorker).

Lemma getWorker_start_creating maxWorkers now pool :
  Forall (fun w0 => busy w0 = true) pool -> length pool < maxWorkers ->
  getWorker_start maxWorkers now pool = Creating (length pool).
Proof.
  intros Hall Hlt. unfold getWorker_start.
  destruct (takeIdle now pool) as [[got rest]|] eqn:Htake.
  - destruct (takeIdle_spec _ _ _ _ Htake) as (i & w0 & Hi & Hb & _).
    rewrite Forall_forall in Hall.
    rewrite (Hall w0) in Hb; [done|]. by eapply list_elem_of_lookup_2.
  - by destruct (Nat.ltb_spec (length pool) maxWorkers); [|lia].
Qed.

(** X29.  PNGCompressorAdvanced.getWorker, two calls that overlap.  When
    every worker is busy and the pool has room, a call decides to create
    the worker whose id is the pool's length and waits for it; run on its
    own from there, it returns that worker, as [getWorker] says.  A second
    call that starts while the first one waits finds the same pool and
    decides on the same id.  When its own worker is ready and pushed, the
    entry of the pool at that id is the worker of the first call, busy:
    the second call marks it busy again and returns it, so that two tasks
    hold one worker; the worker created for the second call stays in the
    pool, idle, under the id of the first, and the pool has grown by two,
    beyond maxWorkers when it had room for one. *)
Theorem overlapping_calls_share_worker
    (maxWorkers now readyA nowA readyB nowB : nat) pool :
  Forall (fun w0 => busy w0 = true) pool -> length pool < maxWorkers ->
  let n := length pool in
  let wA := {| worker_id := n; busy := true; lastUsed := nowA |} in
  let wB := {| worker_id := n; busy := true; lastUsed := nowB |} in
  let spare := {| worker_id := n; busy := false; lastUsed := readyB |} in
  getWorker_start maxWorkers now pool = Creating n /\
  getWorker_resume nowA n (createWorker readyA n true pool)
    = Some (wA, pool ++ [wA]) /\
  getWorker maxWorkers nowA true pool = Acquired wA (pool ++ [wA]) /\
  createWorker readyB n true (pool ++ [wA]) !! n = Some wA /\
  getWorker_resume nowB n (createWorker readyB n true (pool ++ [wA]))
    = Some (wB, pool ++ [wB; spare]) /\
  length (pool ++ [wB; spare]) = n + 2.
Proof.
  intros Hall Hlt n wA wB spare.
  split; [by apply getWorker_start_creating|].
  split.
  { unfold getWorker_resume, createWorker.
    rewrite lookup_app_r, Nat.sub_diag by (subst n; lia). cbn.
    rewrite insert_app_r_alt, Nat.sub_diag by (subst n; lia). done. }
  split.
  { unfold getWorker.
    destruct (takeIdle nowA pool) as [[got rest]|] eqn:Htake.
    - destruct (takeIdle_spec _ _ _ _ Htake) as (i & w0 & Hi & Hb & _).
      rewrite Forall_forall in Hall.
      rewrite (Hall w0) in Hb; [done|]. by eapply list_elem_of_lookup_2.
    - by destruct (Nat.ltb_spec (length pool) maxWorkers); [|lia]. }
  assert (Hn : createWorker readyB n true (pool ++ [wA]) !! n = Some wA).
  { unfold createWorker. rewrite <- app_assoc.
    by rewrite lookup_app_r, Nat.sub_diag by (subst n; lia). }
  split; [exact Hn|]. split.
  - unfold getWorker_resume. rewrite Hn. cbn.
    unfold createWorker. rewrite <- app_assoc.
    rewrite insert_app_r_alt, Nat.sub_diag by (subst n; lia). done.
  - rewrite length_app. cbn. subst n. lia.
Qed.
End OverlappingCalls.

Lemma overlapping_calls_share_worker_witness :
  exists wB pool',
    PNGCompressorAdvanced.getWorker_resume 9 1
      (PNGCompressorAdvanced.createWorker 8 1 true
         (busyPool ++ [ {| PNGCompressorAdvanced.worker_id := 1;
                           PNGCompressorAdvanced.busy := true;
                           PNGCompressorAdvanced.lastUsed := 7 |} ]))
    = Some (wB, pool') /\
    PNGCompressorAdvanced.worker_id wB = 1%nat /\
    (PNGCompressorAdvanced.maxWorkers 2 < length pool')%nat.
Proof.
  assert (Hall : Forall (fun w0 => PNGCompressorAdvanced.busy w0 = true) busyPool)
    by (by repeat constructor).
  assert (Hlt : (length busyPool < 2)%nat) by (simpl; lia).
  destruct (overlapping_calls_share_worker 2 5 6 7 8 9 busyPool Hall Hlt)
    as (_ & _ & _ & _ & Hresume & Hlen).
  eexists _, _. split; [exact Hresume|]. split; [reflexivity|].
  rewrite Hlen. vm_compute. lia.
Defined.
